(** * AGV protocol client: control commands and laser acquisition

    A shallow embedding of [agv_control.py] and [agv_laser_get.py].

    The two scripts talk to the vehicle over a TCP socket with a 16-byte
    header followed by a JSON body.  The socket, the clock and the ROS
    publisher are the outside world: every call to them is recorded in a
    trace, and what the socket answers is read from a script carried by the
    state, so that the theorems quantify over every behaviour of the peer.

    The vendor module [rbkNetProtoEnums] ([packMsg], [unpackHead] and the API
    numbers) and Python's [json.loads] / [bytes.decode] are not part of the
    repository; they are taken as an interface ([Class Externals]). *)

From Stdlib Require Import List ZArith QArith Lia Bool String Ascii.
From Stdlib.Strings Require Import Byte.
Import ListNotations.
Local Open Scope Z_scope.

Set Implicit Arguments.
Set Warnings "-register-all".

(** ** Python run-time values used by the scripts *)

Definition bytes := list byte.

(** Exceptions the scripts distinguish in their [except] clauses.
    [socket_timeout] is tested before [socket_error] in the source, so the two
    are kept apart although the first is a subclass of the second. *)
Inductive exn : Type :=
| socket_timeout
| socket_error
| JSONDecodeError
| ValueError
| UnicodeDecodeError
| AttributeError
| TypeError
| UnboundLocalError.

Inductive res (A : Type) : Type :=
| Ret (a : A)
| Raise (e : exn).
Arguments Ret {A} a.
Arguments Raise {A} e.

(** State-and-exception monad: a Python statement run from a state gives a
    value or a raised exception, and the state it leaves behind. *)
Definition M (S A : Type) : Type := S -> res A * S.

Definition ret {S A : Type} (a : A) : M S A := fun st => (Ret a, st).

Definition raise {S A : Type} (e : exn) : M S A := fun st => (Raise e, st).

Definition bind {S A B : Type} (c : M S A) (k : A -> M S B) : M S B :=
  fun st =>
    match c st with
    | (Ret a, st') => k a st'
    | (Raise e, st') => (Raise e, st')
    end.

Declare Scope py_scope.
Delimit Scope py_scope with py.
Notation "x <- c ;; k" := (bind c (fun x => k))
  (at level 61, c at next level, right associativity) : py_scope.
Notation "c ;; k" := (bind c (fun _ => k))
  (at level 61, right associativity) : py_scope.
Local Open Scope py_scope.

(** Sequencing of pure computations that may raise. *)
Definition rbind {A B : Type} (r : res A) (k : A -> res B) : res B :=
  match r with
  | Ret a => k a
  | Raise e => Raise e
  end.

Notation "'do' x <- r ; k" := (rbind r (fun x => k))
  (at level 10, x name, r at level 100, k at level 200) : py_scope.

(** ** JSON values as [json.loads] builds them *)

Module Json.

(** A JSON number: the exact value of the Python [int] or finite [float], or
    one of the three non-finite floats [json.loads] accepts. *)
Inductive number : Type :=
| Fin (q : Q)
| NaN
| Infinity
| NegInfinity.

Inductive json : Type :=
| JNull
| JBool (b : bool)
| JNum (x : number)
| JStr (s : string)
| JArr (items : list json)
| JObj (fields : list (string * json)).

(** [x <= y] on Python numbers (all comparisons with NaN are false). *)
Definition num_le (x y : number) : bool :=
  match x, y with
  | NaN, _ | _, NaN => false
  | NegInfinity, _ => true
  | _, Infinity => true
  | Fin a, Fin b => Qle_bool a b
  | _, _ => false
  end.

Definition num_is_zero (x : number) : bool :=
  match x with
  | Fin q => Qeq_bool q 0
  | _ => false
  end.

(** [d[key]] lookup in the association list of an object. *)
Fixpoint assoc (key : string) (fields : list (string * json)) : option json :=
  match fields with
  | [] => None
  | (k, v) :: rest => if String.eqb key k then Some v else assoc key rest
  end.

(** [obj.get(key, default)]: only a [dict] has the method. *)
Definition get (obj : json) (key : string) (default : json) : res json :=
  match obj with
  | JObj fields =>
      match assoc key fields with
      | Some v => Ret v
      | None => Ret default
      end
  | _ => Raise AttributeError
  end.

(** [obj[key]] with a string key. *)
Definition getitem (obj : json) (key : string) : res json :=
  match obj with
  | JObj fields =>
      match assoc key fields with
      | Some v => Ret v
      | None => Raise ValueError  (* KeyError; never reached after [key in obj] *)
      end
  | _ => Raise TypeError
  end.

Definition is_str (s : string) (v : json) : bool :=
  match v with
  | JStr t => String.eqb s t
  | _ => false
  end.

Definition is_substring (needle hay : string) : bool :=
  match String.index 0 needle hay with
  | Some _ => true
  | None => false
  end.

(** [key in obj] for a string [key]: key membership for a dict, element
    membership for a list, substring test for a str, [TypeError] otherwise. *)
Definition contains (key : string) (obj : json) : res bool :=
  match obj with
  | JObj fields =>
      Ret (match assoc key fields with Some _ => true | None => false end)
  | JArr items => Ret (existsb (is_str key) items)
  | JStr s => Ret (is_substring key s)
  | _ => Raise TypeError
  end.

(** Truth value of an object in a condition. *)
Definition truthy (v : json) : bool :=
  match v with
  | JNull => false
  | JBool b => b
  | JNum x => negb (num_is_zero x)
  | JStr s => negb (String.eqb s EmptyString)
  | JArr items => match items with [] => false | _ => true end
  | JObj fields => match fields with [] => false | _ => true end
  end.

(** [v == 0]. [False == 0] holds in Python, [None == 0] does not. *)
Definition eq_zero (v : json) : bool :=
  match v with
  | JNum x => num_is_zero x
  | JBool b => negb b
  | _ => false
  end.

(** The number a value stands for in an ordering comparison with a float
    ([bool] is a subclass of [int]); other types raise [TypeError]. *)
Definition as_number (v : json) : res number :=
  match v with
  | JNum x => Ret x
  | JBool b => Ret (Fin (if b then 1 else 0)%Q)
  | _ => Raise TypeError
  end.

Fixpoint chars (s : string) : list json :=
  match s with
  | EmptyString => []
  | String c rest => JStr (String c EmptyString) :: chars rest
  end.

(** [for x in v]: the items of a list, the keys of a dict, the characters of
    a str; other values are not iterable. *)
Definition iter (v : json) : res (list json) :=
  match v with
  | JArr items => Ret items
  | JObj fields => Ret (map (fun kv => JStr (fst kv)) fields)
  | JStr s => Ret (chars s)
  | _ => Raise TypeError
  end.

End Json.
Import Json.

(** ** The TCP socket *)

Module Net.

(** What the peer and the network do to the receiving side, in order:
    a segment of data arrives, the read times out, or the connection fails.
    The end of the list is the peer's orderly close (every later [recv]
    returns the empty byte string). *)
Inductive in_event : Type :=
| Data (chunk : bytes)
| Stall
| Broken.

(** A socket object.  [send_faults] scripts the outcome of the coming
    [send] calls ([None]: accepted); a send with nothing scripted is
    accepted. *)
Record socket : Type := mkSocket {
  connected : bool;
  inbox : list in_event;
  send_faults : list (option exn)
}.

(** A socket that [connect] has not (successfully) been called on. *)
Definition unconnected : socket := mkSocket false [] [].

(** [sock.recv(bufsize)] on the arrival queue: at most [bufsize] bytes of the
    first segment that holds data; the rest of the segment stays queued. *)
Fixpoint recv_queue (bufsize : nat) (q : list in_event)
  : res bytes * list in_event :=
  match q with
  | [] => (Ret [], [])
  | Data [] :: q' => recv_queue bufsize q'
  | Data chunk :: q' =>
      if (List.length chunk <=? bufsize)%nat then (Ret chunk, q')
      else (Ret (firstn bufsize chunk), Data (skipn bufsize chunk) :: q')
  | Stall :: q' => (Raise socket_timeout, q')
  | Broken :: q' => (Raise socket_error, q')
  end.

Definition sock_recv (bufsize : Z) (s : socket) : res bytes * socket :=
  if connected s then
    let (r, q) := recv_queue (Z.to_nat bufsize) (inbox s) in
    (r, mkSocket true q (send_faults s))
  else (Raise socket_error, s).

(** [sock.send(data)].  The scripts ignore the byte count [send] returns, so
    only acceptance or failure is modelled. *)
Definition sock_send (s : socket) : res unit * socket :=
  if connected s then
    match send_faults s with
    | [] => (Ret tt, s)
    | None :: rest => (Ret tt, mkSocket true (inbox s) rest)
    | Some e :: rest => (Raise e, mkSocket true (inbox s) rest)
    end
  else (Raise socket_error, s).

(** What the next [connect] call meets: a refusal, or a peer whose behaviour
    on the new connection is given. *)
Inductive endpoint : Type :=
| Refuse
| Accept (peer_inbox : list in_event) (peer_faults : list (option exn)).

(** Calls that reach outside the process, in the order they are made. *)
Inductive event : Type :=
| EvSend (msg : bytes)
| EvSetTimeout (seconds : Q)
| EvRecv (bufsize : Z)
| EvClose
| EvConnect (host : string) (port : Z)
| EvSleep (seconds : Q)
| EvPublish (linear_x angular_z : Q)
| EvRateSleep.

Definition is_send (e : event) : bool :=
  match e with EvSend _ => true | _ => false end.

Definition is_recv (e : event) : bool :=
  match e with EvRecv _ => true | _ => false end.

Definition is_close (e : event) : bool :=
  match e with EvClose => true | _ => false end.

Definition is_connect (e : event) : bool :=
  match e with EvConnect _ _ => true | _ => false end.

Definition is_sleep (e : event) : bool :=
  match e with EvSleep _ => true | _ => false end.

(** Events of a read: setting the timeout and receiving. *)
Definition quiet (e : event) : bool :=
  match e with
  | EvSetTimeout _ | EvRecv _ => true
  | _ => false
  end.

Definition count (p : event -> bool) (t : list event) : nat :=
  List.length (filter p t).

(** Calls to the ROS side: publishing and the rate limiter. *)
Definition is_ros (e : event) : bool :=
  match e with
  | EvPublish _ _ | EvRateSleep => true
  | _ => false
  end.

End Net.
Import Net.

(** ** External code: the vendor protocol module and the Python library *)

Class Externals : Type := {
  (** [rbkNetProtoEnums.packMsg(reqId, msgType, msg)]: the request frame, or
      a false value ([None]) when packing fails. *)
  packMsg : Z -> Z -> json -> option bytes;
  (** [rbkNetProtoEnums.unpackHead(header)]: payload length and the number
      echoed in the header; [None] stands for a raised [ValueError]. *)
  unpackHead : bytes -> option (Z * Z);
  robot_control_motion_req : Z;
  robot_control_stop_req : Z;
  robot_status_laser_req : Z;
  (** [data.decode('utf-8')]; [None]: [UnicodeDecodeError]. *)
  decode_utf8 : bytes -> option string;
  (** [json.loads(text)]; [None]: [json.JSONDecodeError]. *)
  json_loads : string -> option json
}.

(** ** agv_control.py *)

Module Control.
Section WithExternals.
Context {ext : Externals}.

Definition AGV_IP : string := "192.168.1.121".
Definition CONTROL_PORT : Z := 19205.
(** [0.2] and [0.8]: the exact values of the two float literals. *)
Definition LINEAR_SPEED : Q := 3602879701896397 # 18014398509481984.
Definition ANGULAR_SPEED : Q := 3602879701896397 # 4503599627370496.

(** The module's global variables ([so], [vx], [vy], [w]) and the outside
    world: the endpoints later [connect] calls will meet and the trace of the
    calls made so far. *)
Record world : Type := mkWorld {
  so : option socket;
  vx : Q;
  vy : Q;
  w : Q;
  net : list endpoint;
  trace : list event
}.

Definition set_so (s : option socket) (st : world) : world :=
  mkWorld s (vx st) (vy st) (w st) (net st) (trace st).

Definition set_net (n : list endpoint) (st : world) : world :=
  mkWorld (so st) (vx st) (vy st) (w st) n (trace st).

Definition set_speed (x y z : Q) (st : world) : world :=
  mkWorld (so st) x y z (net st) (trace st).

Definition emit (e : event) : M world unit :=
  fun st =>
    (Ret tt, mkWorld (so st) (vx st) (vy st) (w st) (net st) (trace st ++ [e])).

(** A method call on the global [so]; calling a method of [None] raises. *)
Definition on_so {A : Type} (op : socket -> res A * socket) : M world A :=
  fun st =>
    match so st with
    | Some s => let (r, s') := op s in (r, set_so (Some s') st)
    | None => (Raise AttributeError, st)
    end.

Definition so_send (msg : bytes) : M world unit :=
  emit (EvSend msg) ;; on_so sock_send.

Definition so_settimeout (seconds : Q) : M world unit :=
  emit (EvSetTimeout seconds).

Definition so_recv (bufsize : Z) : M world bytes :=
  emit (EvRecv bufsize) ;; on_so (sock_recv bufsize).

Definition so_close : M world unit :=
  emit EvClose ;;
  on_so (fun s => (Ret tt, mkSocket false (inbox s) (send_faults s))).

(** [so = socket.socket(AF_INET, SOCK_STREAM)] *)
Definition so_new : M world unit :=
  fun st => (Ret tt, set_so (Some unconnected) st).

(** [so.connect((AGV_IP, CONTROL_PORT))] *)
Definition so_connect : M world unit :=
  emit (EvConnect AGV_IP CONTROL_PORT) ;;
  fun st =>
    match net st with
    | Accept q f :: rest =>
        (Ret tt, set_net rest (set_so (Some (mkSocket true q f)) st))
    | Refuse :: rest => (Raise socket_error, set_net rest st)
    | [] => (Raise socket_error, st)
    end.

Definition time_sleep (seconds : Q) : M world unit :=
  emit (EvSleep seconds).

Definition len (b : bytes) : Z := Z.of_nat (List.length b).

(** How one pass through the [try] body of [send_control_command] ends when
    no exception leaves it. *)
Inductive outcome : Type :=
| Returned        (* [return True] *)
| Continued       (* a [continue] statement *)
| FellThrough.    (* the [else] branch after the [ret_code] test *)

Definition decode (data : bytes) : M world string :=
  match decode_utf8 data with
  | Some text => ret text
  | None => raise UnicodeDecodeError
  end.

Definition loads (text : string) : M world json :=
  match json_loads text with
  | Some v => ret v
  | None => raise JSONDecodeError
  end.

Definition lift {A : Type} (r : res A) : M world A := fun st => (r, st).

(** Lines 35-62: the body of the [try] statement. *)
Definition exchange (request_msg : bytes) : M world outcome :=
  so_send request_msg ;;
  so_settimeout 5 ;;
  header <- so_recv 16 ;;
  if negb (len header =? 16) then ret Continued
  else
    match unpackHead header with
    | None => raise ValueError
    | Some (json_data_len, back_req_num) =>
        if json_data_len >? 10 * 1024 * 1024 then ret Continued
        else
          resp_data <- (if json_data_len >? 0
                        then data <- so_recv json_data_len ;; decode data
                        else ret "{}"%string) ;;
          resp_json <- loads resp_data ;;
          ret_code <- lift (get resp_json "ret_code" (JNum (Fin 0))) ;;
          if eq_zero ret_code then ret Returned else ret FellThrough
    end.

(** Lines 79-80. *)
Definition pause (i retry : Z) : M world unit :=
  if i <? retry then time_sleep (1 # 2) else ret tt.

(** Lines 69-73, in the [socket.error] handler. *)
Definition reconnect (i retry : Z) : M world unit :=
  if i <? retry then so_close ;; so_new ;; so_connect else ret tt.

(** One iteration of the [for] loop, with its [except] clauses.  [Some b]:
    the function returned [b]; [None]: the loop goes on.  An exception raised
    inside a handler (a failed reconnect) leaves the function. *)
Definition iteration (i retry : Z) (request_msg : bytes)
  : M world (option bool) :=
  fun st =>
    match exchange request_msg st with
    | (Ret Returned, st') => (Ret (Some true), st')
    | (Ret Continued, st') => (Ret None, st')
    | (Ret FellThrough, st') => (pause i retry ;; ret None) st'
    | (Raise socket_timeout, st') => (pause i retry ;; ret None) st'
    | (Raise socket_error, st') =>
        (reconnect i retry ;; pause i retry ;; ret None) st'
    | (Raise _, st') => (pause i retry ;; ret None) st'
    end.

(** [for i in range(retry + 1)] from index [i] with [n] iterations left,
    then lines 82-83. *)
Fixpoint attempts (n : nat) (i retry : Z) (request_msg : bytes)
  : M world bool :=
  match n with
  | O => ret false
  | S n' =>
      r <- iteration i retry request_msg ;;
      match r with
      | Some b => ret b
      | None => attempts n' (i + 1) retry request_msg
      end
  end.

Definition send_control_command (api_type : Z) (params : json) (retry : Z)
  : M world bool :=
  fun st =>
    match so st with
    | None => (Ret false, st)
    | Some _ =>
        match packMsg 1 api_type params with
        | None | Some [] => (Ret false, st)
        | Some request_msg =>
            attempts (Z.to_nat (retry + 1)) 0 retry request_msg st
        end
    end.

(** One reading of the keys [update_speed_by_keyboard] polls. *)
Record keyboard : Type := mkKeys {
  key_space : bool;
  key_w : bool;
  key_s : bool;
  key_a : bool;
  key_d : bool
}.

Definition update_speed_by_keyboard (k : keyboard) : M world unit :=
  fun st =>
    if key_space k then (Ret tt, set_speed 0 0 0 st)
    else
      let x := if key_w k then LINEAR_SPEED
               else if key_s k then (- LINEAR_SPEED)%Q else 0%Q in
      let z := if key_a k then ANGULAR_SPEED
               else if key_d k then (- ANGULAR_SPEED)%Q else 0%Q in
      (Ret tt, set_speed x (vy st) z st).

Definition motion_params (st : world) : json :=
  JObj [("vx"%string, JNum (Fin (vx st)));
        ("vy"%string, JNum (Fin (vy st)));
        ("w"%string, JNum (Fin (w st)))].

(** Lines 107-116.  The list holds the keyboard readings of the iterations
    made before [rospy.is_shutdown()] becomes true. *)
Fixpoint main_loop (keys : list keyboard) : M world unit :=
  match keys with
  | [] => ret tt
  | k :: later =>
      update_speed_by_keyboard k ;;
      (fun st => emit (EvPublish (vx st) (w st)) st) ;;
      (fun st =>
         send_control_command robot_control_motion_req (motion_params st) 1 st) ;;
      emit EvRateSleep ;;
      main_loop later
  end.

(** Lines 122-127: the [finally] block. *)
Definition shutdown : M world unit :=
  fun st =>
    match so st with
    | Some _ =>
        (send_control_command robot_control_stop_req (JObj []) 0 ;; so_close) st
    | None => (Ret tt, st)
    end.

(** [agv_keyboard_control]: both [except] clauses only log, so whatever the
    [try] body raised, the [finally] block runs next. *)
Definition agv_keyboard_control (keys : list keyboard) : M world unit :=
  fun st =>
    let (_, st') := (so_new ;; so_connect ;; main_loop keys) st in
    shutdown st'.

(** *** Vocabulary for the statements about [send_control_command] *)

Definition has_socket (st : world) : bool :=
  match so st with Some _ => true | None => false end.

(** [st'] differs from [st] by the socket's state and the events [t]. *)
Definition extends (st st' : world) (t : list event) : Prop :=
  trace st' = trace st ++ t /\ net st' = net st /\
  has_socket st' = has_socket st /\
  vx st' = vx st /\ vy st' = vy st /\ w st' = w st.

(** The calls an iteration makes after its [try] body. *)
Definition handler_events (i retry : Z) (u : list event) : Prop :=
  u = [] \/
  (i < retry /\
   (u = [EvSleep (1 # 2)] \/
    u = [EvClose; EvConnect AGV_IP CONTROL_PORT] \/
    u = [EvClose; EvConnect AGV_IP CONTROL_PORT; EvSleep (1 # 2)])).

(** An attempt that fails without a [continue] and without a socket error:
    the device rejected the command, or an exception other than
    [socket.error] was caught. *)
Definition soft_failure (r : res outcome) : bool :=
  match r with
  | Ret FellThrough => true
  | Raise socket_error => false
  | Raise _ => true
  | Ret _ => false
  end.

Definition timed_out (r : res outcome) : bool :=
  match r with Raise socket_timeout => true | _ => false end.


(** Each of the [n] coming attempts, starting with index [i] in state [st],
    ends in the way [kind] describes. *)
Fixpoint every_attempt (kind : res outcome -> bool) (n : nat) (i retry : Z)
    (request_msg : bytes) (st : world) : bool :=
  match n with
  | O => true
  | S n' =>
      kind (fst (exchange request_msg st)) &&
      every_attempt kind n' (i + 1) retry request_msg
                    (snd (iteration i retry request_msg st))
  end.

(** The first three calls of an attempt: send, set the timeout, read the
    header. *)
Definition read_header (request_msg : bytes) : M world bytes :=
  so_send request_msg ;; so_settimeout 5 ;; so_recv 16.

(** *** Vocabulary for the statements about the keyboard loop *)

(** The speeds the keyboard can select. *)
Definition speed_levels (x z : Q) : Prop :=
  (x = 0%Q \/ x = LINEAR_SPEED \/ x = (- LINEAR_SPEED)%Q) /\
  (z = 0%Q \/ z = ANGULAR_SPEED \/ z = (- ANGULAR_SPEED)%Q).

Definition publish_within_levels (e : event) : Prop :=
  match e with
  | EvPublish x z => speed_levels x z
  | _ => True
  end.

(** A read request of the control client: the header, or a body of at most
    10 MiB. *)
Definition capped_read (e : event) : Prop :=
  match e with
  | EvRecv n => n = 16 \/ 0 < n <= 10 * 1024 * 1024
  | _ => True
  end.

(** No peer accepts the next connection attempt. *)
Definition refused (n : list endpoint) : Prop :=
  match n with
  | Accept _ _ :: _ => False
  | _ => True
  end.

(** Every [close] in the trace is followed at once by the [connect] of a new
    socket: the socket in use at the end of the trace has not been closed. *)
Fixpoint every_close_reconnects (t : list event) : bool :=
  match t with
  | [] => true
  | EvClose :: rest =>
      match rest with
      | EvConnect _ _ :: _ => every_close_reconnects rest
      | _ => false
      end
  | _ :: rest => every_close_reconnects rest
  end.

End WithExternals.
End Control.

(** ** agv_laser_get.py *)

Module LaserGet.
Section WithExternals.
Context {ext : Externals}.

(** The configuration block at the top of the script. *)
Record config : Type := mkConfig {
  AGV_IP : string;
  API_PORT_STATE : Z;
  TIMEOUT : Q;
  LASER_STEP : Z;
  LASER_RANGE_MAX : Q;
  LASER_RANGE_MIN : Q;
  ROS_PUB_FREQ : Z
}.

(** The values in the source; [0.1] is the exact value of the float
    literal. *)
Definition default_config : config :=
  mkConfig "192.168.1.121" 19204 8 1 5
           (3602879701896397 # 36028797018963968) 10.

Definition MAX_DATA_LEN : Z := 10 * 1024 * 1024.
Definition ROBOT_STATUS_LASER_RESP : Z := 11009.

Section WithConfig.
Variable cfg : config.

Definition validate_laser_params : bool :=
  if negb ((0 <=? LASER_STEP cfg) && (LASER_STEP cfg <=? 100)) then false
  else if negb (Qle_bool (5764607523034235 # 576460752303423488)
                         (LASER_RANGE_MIN cfg)
                && negb (Qle_bool (LASER_RANGE_MAX cfg) (LASER_RANGE_MIN cfg))
                && Qle_bool (LASER_RANGE_MAX cfg) 20)
       then false
  else if negb ((1 <=? ROS_PUB_FREQ cfg) && (ROS_PUB_FREQ cfg <=? 50))
       then false
  else true.

Definition validate_configuration : bool :=
  if String.eqb (AGV_IP cfg) EmptyString
     || negb (String.prefix "192.168" (AGV_IP cfg)) then false
  else if negb ((1 <=? API_PORT_STATE cfg) && (API_PORT_STATE cfg <=? 65535))
       then false
  else true.

(** The socket object the script creates, the endpoints the coming
    [connect] calls will meet, and the trace of outside calls. *)
Record world : Type := mkWorld {
  sock : option socket;
  net : list endpoint;
  trace : list event
}.

Definition emit (e : event) : M world unit :=
  fun st => (Ret tt, mkWorld (sock st) (net st) (trace st ++ [e])).

Definition on_sock {A : Type} (op : socket -> res A * socket) : M world A :=
  fun st =>
    match sock st with
    | Some s => let (r, s') := op s in (r, mkWorld (Some s') (net st) (trace st))
    | None => (Raise AttributeError, st)
    end.

Definition sock_new : M world unit :=
  fun st => (Ret tt, mkWorld (Some unconnected) (net st) (trace st)).

Definition send (msg : bytes) : M world unit :=
  emit (EvSend msg) ;; on_sock sock_send.

Definition recv (bufsize : Z) : M world bytes :=
  emit (EvRecv bufsize) ;; on_sock (sock_recv bufsize).

Definition close : M world unit :=
  emit EvClose ;;
  on_sock (fun s => (Ret tt, mkSocket false (inbox s) (send_faults s))).

Definition connect : M world unit :=
  emit (EvConnect (AGV_IP cfg) (API_PORT_STATE cfg)) ;;
  fun st =>
    match net st with
    | Accept q f :: rest =>
        (Ret tt, mkWorld (Some (mkSocket true q f)) rest (trace st))
    | Refuse :: rest => (Raise socket_error, mkWorld (sock st) rest (trace st))
    | [] => (Raise socket_error, st)
    end.

Definition len (b : bytes) : Z := Z.of_nat (List.length b).

(** The [while remaining > 0] loop of [receive_full_data].  [Some received]:
    the loop ended; [None]: [return None] inside it.  Every pass either
    leaves or takes at least one byte off [remaining], so [fuel] passes are
    enough once [fuel] is at least [remaining] (see [receive_loop_fuel]). *)
Fixpoint receive_loop (fuel : nat) (received : bytes) (remaining : Z)
  : M world (option bytes) :=
  if remaining >? 0 then
    match fuel with
    | O => ret (Some received)
    | S fuel' =>
        chunk <- recv (Z.min remaining 8192) ;;
        match chunk with
        | [] => ret None
        | _ => receive_loop fuel' (received ++ chunk) (remaining - len chunk)
        end
    end
  else ret (Some received).

Definition receive_full_data (expected_len : Z) : M world (option bytes) :=
  r <- receive_loop (Z.to_nat expected_len) [] expected_len ;;
  match r with
  | None => ret None
  | Some received =>
      if negb (len received =? expected_len) then ret None
      else ret (Some received)
  end.

(** [for attempt in range(3)] from index [attempt], [n] iterations left.
    The result tells whether a socket is returned ([true]) or [None]. *)
Fixpoint connect_attempts (n : nat) (attempt : Z) : M world bool :=
  match n with
  | O => ret false
  | S n' =>
      fun st =>
        match connect st with
        | (Ret _, st') => (Ret true, st')
        | (Raise _, st') =>
            if attempt <? 2
            then (emit (EvSleep 3) ;; connect_attempts n' (attempt + 1)) st'
            else (Ret false, st')
        end
  end.

Definition connect_to_agv : M world bool :=
  sock_new ;;
  emit (EvSetTimeout (TIMEOUT cfg)) ;;
  connect_attempts 3 0.

(** Lines 186-193: what one beam adds to [valid_beams]. *)
Definition select_beam (beam : json) : res (option (list json)) :=
  do has_angle <- contains "angle" beam;
  if negb has_angle then Ret None else
  do has_dist <- contains "dist" beam;
  if negb has_dist then Ret None else
  do valid <- get beam "valid" (JBool false);
  if negb (truthy valid) then Ret None else
  do dist <- getitem beam "dist";
  do d <- as_number dist;
  if num_le (Fin (LASER_RANGE_MIN cfg)) d && num_le d (Fin (LASER_RANGE_MAX cfg))
  then (do angle <- getitem beam "angle"; Ret (Some [angle; dist]))
  else Ret None.

(** The inner [for beam in ...] loop. *)
Fixpoint scan_beams (beams : list json) (valid_beams : list (list json))
  : res (list (list json)) :=
  match beams with
  | [] => Ret valid_beams
  | beam :: rest =>
      do p <- select_beam beam;
      match p with
      | Some point => scan_beams rest (valid_beams ++ [point])
      | None => scan_beams rest valid_beams
      end
  end.

(** The outer [for idx, laser in enumerate(laser_beams)] loop. *)
Fixpoint scan_lasers (laser_beams : list json) (valid_beams : list (list json))
  : res (list (list json)) :=
  match laser_beams with
  | [] => Ret valid_beams
  | laser :: rest =>
      do beams_value <- get laser "beams" (JArr []);
      do beams <- iter beams_value;
      do valid_beams' <- scan_beams beams valid_beams;
      scan_lasers rest valid_beams'
  end.

(** Lines 176-200. *)
Definition extract_beams (laser_json : json) : res (option (list (list json))) :=
  do laser_beams <- get laser_json "lasers" (JArr []);
  match laser_beams with
  | JArr [] => Ret None
  | JArr groups =>
      do valid_beams <- scan_lasers groups [];
      match valid_beams with
      | [] => Ret None
      | _ => Ret (Some valid_beams)
      end
  | _ => Ret None
  end.

Definition lift {A : Type} (r : res A) : M world A := fun st => (r, st).

(** Lines 167-174: [json.loads(resp_data.decode("utf-8"))]; only
    [JSONDecodeError] is caught here. *)
Definition parse_body (resp_data : bytes) : M world (option json) :=
  match decode_utf8 resp_data with
  | None => raise UnicodeDecodeError
  | Some text =>
      match json_loads text with
      | None => ret None
      | Some v => ret (Some v)
      end
  end.

(** Line 122: [req_params = {"step": LASER_STEP}]. *)
Definition req_params : json :=
  JObj [("step"%string, JNum (Fin (inject_Z (LASER_STEP cfg))))].

(** Lines 121-200: the [try] body once [sock] is bound to a socket. *)
Definition acquire : M world (option (list (list json))) :=
  match packMsg 1 robot_status_laser_req req_params with
  | None | Some [] => ret None
  | Some request =>
      send request ;;
      header <- recv 16 ;;
      if negb (len header =? 16) then ret None
      else
        match unpackHead header with
        | None => ret None
        | Some (json_data_len, resp_type) =>
            if json_data_len >? MAX_DATA_LEN then ret None
            else if json_data_len <? 0 then ret None
            else if negb (resp_type =? ROBOT_STATUS_LASER_RESP) then ret None
            else
              resp_data <- receive_full_data json_data_len ;;
              match resp_data with
              | None | Some [] => ret None
              | Some data =>
                  laser_json <- parse_body data ;;
                  match laser_json with
                  | None => ret None
                  | Some v => lift (extract_beams v)
                  end
              end
        end
  end.

(** [get_laser_from_agv].  The [finally] clause calls [sock.close()]: when
    validation fails [sock] was never assigned, and when [connect_to_agv]
    gave [None] it is [None]; in both cases the call in [finally] raises and
    that exception replaces the [return None].  Otherwise every exception of
    the body is turned into [None] by [except Exception]. *)
Definition get_laser_from_agv : M world (option (list (list json))) :=
  fun st =>
    if negb validate_configuration || negb validate_laser_params
    then (Raise UnboundLocalError, st)
    else
      match connect_to_agv st with
      | (Ret true, st1) =>
          let (r, st2) := acquire st1 in
          let (_, st3) := close st2 in
          (match r with Ret v => Ret v | Raise _ => Ret None end, st3)
      | (Ret false, st1) => (Raise AttributeError, st1)
      | (Raise _, st1) => (Raise UnboundLocalError, st1)
      end.

End WithConfig.

(** *** Vocabulary for the statements about the laser client *)

Definition has_socket (st : world) : bool :=
  match sock st with Some _ => true | None => false end.

(** The socket of [st] is connected and will receive the data segments
    [chunks], then [rest]. *)
Definition receiving (st : world) (chunks : list bytes) (rest : list in_event)
  : Prop :=
  exists faults,
    sock st = Some (mkSocket true (map Data chunks ++ rest) faults).

(** Lines 131-134: send the request and read the header. *)
Definition request_header (request : bytes) : M world bytes :=
  send request ;; recv 16.

(** The beam filter as the specification words it (sections 3, 4.4 and 6):
    a beam may carry an angle, a distance and a validity flag; a point is
    made from a beam that carries both an angle and a distance, whose flag
    is true and whose distance lies in [[rangeMin, rangeMax]].  The angle is
    copied into the point as it is, so it is kept as the value it is. *)
Record Beam : Type := mkBeam {
  b_angle : option json;
  b_dist : option number;
  b_valid : option bool
}.

Definition FilteredPoint : Type := (json * number)%type.

Definition spec_keep (rangeMin rangeMax : Q) (b : Beam) : option FilteredPoint :=
  match b_angle b, b_dist b, b_valid b with
  | Some a, Some d, Some true =>
      if num_le (Fin rangeMin) d && num_le d (Fin rangeMax)
      then Some (a, d) else None
  | _, _, _ => None
  end.

Fixpoint spec_filter (rangeMin rangeMax : Q) (beams : list Beam)
  : list FilteredPoint :=
  match beams with
  | [] => []
  | b :: rest =>
      match spec_keep rangeMin rangeMax b with
      | Some p => p :: spec_filter rangeMin rangeMax rest
      | None => spec_filter rangeMin rangeMax rest
      end
  end.

(** The JSON form of a point in the result: [[angle, dist]]. *)
Definition point_json (p : FilteredPoint) : list json :=
  [fst p; JNum (snd p)].

(** Reading the payload of section 6 as beams: a beam is an object whose
    [dist], where present, is a number and whose [valid], where present, is
    a boolean; a group is an object whose [beams], where present, is a list
    of beams. *)
Definition number_field (key : string) (fields : list (string * json))
  : option (option number) :=
  match assoc key fields with
  | None => Some None
  | Some (JNum x) => Some (Some x)
  | Some _ => None
  end.

Definition bool_field (key : string) (fields : list (string * json))
  : option (option bool) :=
  match assoc key fields with
  | None => Some None
  | Some (JBool b) => Some (Some b)
  | Some _ => None
  end.

Definition beam_of_json (v : json) : option Beam :=
  match v with
  | JObj fields =>
      match number_field "dist" fields, bool_field "valid" fields with
      | Some d, Some f => Some (mkBeam (assoc "angle" fields) d f)
      | _, _ => None
      end
  | _ => None
  end.

Fixpoint beams_of_json (items : list json) : option (list Beam) :=
  match items with
  | [] => Some []
  | v :: rest =>
      match beam_of_json v, beams_of_json rest with
      | Some b, Some bs => Some (b :: bs)
      | _, _ => None
      end
  end.

Definition group_of_json (v : json) : option (list Beam) :=
  match v with
  | JObj fields =>
      match assoc "beams" fields with
      | None => Some []
      | Some (JArr items) => beams_of_json items
      | Some _ => None
      end
  | _ => None
  end.

(** All the beams of the groups, in source order. *)
Fixpoint payload_of_json (groups : list json) : option (list Beam) :=
  match groups with
  | [] => Some []
  | g :: rest =>
      match group_of_json g, payload_of_json rest with
      | Some bs, Some cs => Some (bs ++ cs)
      | _, _ => None
      end
  end.

(** The same filter read on any decoded payload, typed or not: a value is
    kept when it is an object that has an [angle] field and a [dist] field,
    whose [valid] field is the boolean [true] and whose [dist] is a number
    within [[rangeMin, rangeMax]]; the beams of a group are the items of its
    [beams] list. *)
Definition claimed_keep (rangeMin rangeMax : Q) (beam : json)
  : option (list json) :=
  match beam with
  | JObj fields =>
      match assoc "angle" fields, assoc "dist" fields, assoc "valid" fields with
      | Some angle, Some (JNum d), Some (JBool true) =>
          if num_le (Fin rangeMin) d && num_le d (Fin rangeMax)
          then Some [angle; JNum d] else None
      | _, _, _ => None
      end
  | _ => None
  end.

Definition claimed_beams (group : json) : list json :=
  match group with
  | JObj fields =>
      match assoc "beams" fields with
      | Some (JArr items) => items
      | _ => []
      end
  | _ => []
  end.

Fixpoint claimed_points (rangeMin rangeMax : Q) (beams : list json)
  : list (list json) :=
  match beams with
  | [] => []
  | beam :: rest =>
      match claimed_keep rangeMin rangeMax beam with
      | Some p => p :: claimed_points rangeMin rangeMax rest
      | None => claimed_points rangeMin rangeMax rest
      end
  end.

Definition claimed_filter (rangeMin rangeMax : Q) (groups : list json)
  : list (list json) :=
  claimed_points rangeMin rangeMax (flat_map claimed_beams groups).

(** A response header the laser client does not go on with: not 16 bytes,
    not parsable, a declared length above [MAX_DATA_LEN] or below zero, or a
    response type other than [ROBOT_STATUS_LASER_RESP]. *)
Definition header_rejected (header : bytes) : bool :=
  negb (len header =? 16) ||
  match unpackHead header with
  | None => true
  | Some (json_data_len, resp_type) =>
      (json_data_len >? MAX_DATA_LEN) || (json_data_len <? 0) ||
      negb (resp_type =? ROBOT_STATUS_LASER_RESP)
  end.

(** A read request of the body loop: at least one byte, at most 8192 and
    at most [cap]. *)
Definition bounded_read (cap : Z) (e : event) : Prop :=
  match e with
  | EvRecv n => 1 <= n <= 8192 /\ n <= cap
  | _ => False
  end.

(** A point of the result: the pair [[angle, dist]] with [dist] a number
    within the configured range. *)
Definition point_in_range (cfg : config) (p : list json) : Prop :=
  exists angle dist d,
    p = [angle; dist] /\ as_number dist = Ret d /\
    num_le (Fin (LASER_RANGE_MIN cfg)) d = true /\
    num_le d (Fin (LASER_RANGE_MAX cfg)) = true.

(** None of the next three connection attempts is accepted. *)
Fixpoint all_refused (k : nat) (n : list endpoint) : bool :=
  match k, n with
  | O, _ => true
  | S _, [] => true
  | S k', Refuse :: rest => all_refused k' rest
  | S _, Accept _ _ :: _ => false
  end.

End WithExternals.
End LaserGet.

(** ** A concrete device for running the scripts

    An instance of the external interface with the 16-byte RoboKit header
    (sync byte, version, 16-bit number, 32-bit length, 16-bit type, six
    reserved bytes, big-endian) and a [json.loads] that knows the handful of
    response bodies used below. *)

Module Fixture.

Definition byte_of_Z (z : Z) : byte :=
  match Byte.of_N (Z.to_N (z mod 256)) with
  | Some b => b
  | None => x00
  end.

Definition Z_of_byte (b : byte) : Z := Z.of_N (Byte.to_N b).

Definition header (number length type : Z) : bytes :=
  [x5a; x01;
   byte_of_Z (number / 256); byte_of_Z number;
   byte_of_Z (length / 16777216); byte_of_Z (length / 65536);
   byte_of_Z (length / 256); byte_of_Z length;
   byte_of_Z (type / 256); byte_of_Z type;
   x00; x00; x00; x00; x00; x00].

Definition unpack (h : bytes) : option (Z * Z) :=
  match h with
  | [_; _; _; _; l3; l2; l1; l0; t1; t0; _; _; _; _; _; _] =>
      Some (((Z_of_byte l3 * 256 + Z_of_byte l2) * 256 + Z_of_byte l1) * 256
            + Z_of_byte l0,
            Z_of_byte t1 * 256 + Z_of_byte t0)
  | _ => None
  end.

(** The double-quote character, and a quoted word. *)
Definition dq : string := String (ascii_of_nat 34) EmptyString.
Definition quoted (s : string) : string := (dq ++ s ++ dq)%string.

Definition text_empty : string := "{}".
Definition text_ok : string := ("{" ++ quoted "ret_code" ++ ":0}")%string.
Definition text_busy : string :=
  ("{" ++ quoted "ret_code" ++ ":1," ++ quoted "err_msg" ++ ":"
       ++ quoted "busy" ++ "}")%string.
Definition text_no_code : string :=
  ("{" ++ quoted "create_on" ++ ":" ++ quoted "now" ++ "}")%string.
Definition text_padded : string := "{}   ".
Definition text_step : string := ("{" ++ quoted "step" ++ ":1}")%string.
Definition text_stop_speed : string :=
  ("{" ++ quoted "vx" ++ ":0.0," ++ quoted "vy" ++ ":0.0,"
       ++ quoted "w" ++ ":0.0}")%string.

Definition beam_text (angle dist valid : string) : string :=
  ("{" ++ quoted "angle" ++ ":" ++ angle ++ "," ++ quoted "dist" ++ ":" ++ dist
       ++ "," ++ quoted "valid" ++ ":" ++ valid ++ "}")%string.

Definition lasers_text (beams : string) : string :=
  ("{" ++ quoted "lasers" ++ ":[{" ++ quoted "beams" ++ ":[" ++ beams
       ++ "]}]}")%string.

Definition beam (angle dist : Q) (valid : bool) : json :=
  JObj [("angle"%string, JNum (Fin angle));
        ("dist"%string, JNum (Fin dist));
        ("valid"%string, JBool valid)].

Definition lasers (beams : list json) : json :=
  JObj [("lasers"%string, JArr [JObj [("beams"%string, JArr beams)]])].

(** The three beams of the specification's filtering example.  [0.1] and
    [0.2] are the exact float values. *)
Definition three_beams : list json :=
  [beam 0 1 true;
   beam (3602879701896397 # 36028797018963968) 30 true;
   beam (3602879701896397 # 18014398509481984) 2 false].

Definition text_three : string :=
  lasers_text (beam_text "0" "1.0" "true" ++ "," ++
               beam_text "0.1" "30.0" "true" ++ "," ++
               beam_text "0.2" "2.0" "false")%string.

Definition text_far : string := lasers_text (beam_text "0" "30.0" "true").
Definition text_none : string := ("{" ++ quoted "lasers" ++ ":[]}")%string.

Definition documents : list (string * json) :=
  [(text_empty, JObj []);
   (text_padded, JObj []);
   (text_ok, JObj [("ret_code"%string, JNum (Fin 0))]);
   (text_busy, JObj [("ret_code"%string, JNum (Fin 1));
                     ("err_msg"%string, JStr "busy")]);
   (text_no_code, JObj [("create_on"%string, JStr "now")]);
   (text_three, lasers three_beams);
   (text_far, lasers [beam 0 30 true]);
   (text_none, JObj [("lasers"%string, JArr [])])].

Definition loads (text : string) : option json := assoc text documents.

Definition is_ascii (b : byte) : bool := Z_of_byte b <? 128.

Definition decode (data : bytes) : option string :=
  if forallb is_ascii data then Some (string_of_list_byte data) else None.

Definition encode (text : string) : bytes := list_byte_of_string text.

(** Parameter maps the fixture can serialise. *)
Definition dumps (msg : json) : option string :=
  match msg with
  | JObj [] => Some EmptyString
  | JObj [(k, JNum (Fin q))] =>
      if String.eqb k "step" && Qeq_bool q 1 then Some text_step else None
  | JObj [(_, JNum (Fin x)); (_, JNum (Fin y)); (_, JNum (Fin z))] =>
      if Qeq_bool x 0 && Qeq_bool y 0 && Qeq_bool z 0
      then Some text_stop_speed else None
  | _ => None
  end.

Definition pack (reqId msgType : Z) (msg : json) : option bytes :=
  match dumps msg with
  | Some text =>
      let body := encode text in
      Some (header reqId (Z.of_nat (List.length body)) msgType ++ body)
  | None => None
  end.

#[local] Instance device : Externals := {
  packMsg := pack;
  unpackHead := unpack;
  robot_control_motion_req := 2010;
  robot_control_stop_req := 2000;
  robot_status_laser_req := 1009;
  decode_utf8 := decode;
  json_loads := loads
}.

(** A response frame as the device puts it on the wire. *)
Definition frame (type : Z) (text : string) : bytes :=
  header 1 (Z.of_nat (List.length (encode text))) type ++ encode text.

(** The two segments of a response: its header, then its body. *)
Definition reply (type : Z) (text : string) : list in_event :=
  [Data (header 1 (Z.of_nat (List.length (encode text))) type);
   Data (encode text)].

(** The stop request and the laser request as [pack] builds them. *)
Definition stop_msg : bytes := header 1 0 2000.
Definition laser_request : bytes := header 1 10 1009 ++ encode text_step.

(** A header that declares 11 MiB. *)
Definition oversize (type : Z) : bytes := header 1 (11 * 1024 * 1024) type.

(** A connected socket that will receive the given events. *)
Definition wire (q : list in_event) : socket := mkSocket true q [].

Definition control_world (s : option socket) (n : list endpoint)
  : Control.world :=
  Control.mkWorld s 0 0 0 n [].

Definition laser_world (n : list endpoint) : LaserGet.world :=
  LaserGet.mkWorld None n [].

(** The control client, connected, about to receive the given events. *)
Definition control_on (q : list in_event) : Control.world :=
  control_world (Some (wire q)) [].

(** The laser client before it connects to a peer that will send the given
    events. *)
Definition laser_on (q : list in_event) : LaserGet.world :=
  laser_world [Accept q []].

(** The laser client once connected ([connect_to_agv] has run). *)
Definition laser_connected (q : list in_event) : LaserGet.world :=
  snd (LaserGet.connect_to_agv LaserGet.default_config (laser_on q)).

Definition space_pressed : Control.keyboard :=
  Control.mkKeys true false false false false.

(** The three beams of the filtering example, typed. *)
Definition typed_three : list LaserGet.Beam :=
  [LaserGet.mkBeam (Some (JNum (Fin 0))) (Some (Fin 1)) (Some true);
   LaserGet.mkBeam (Some (JNum (Fin (3602879701896397 # 36028797018963968))))
                   (Some (Fin 30)) (Some true);
   LaserGet.mkBeam (Some (JNum (Fin (3602879701896397 # 18014398509481984))))
                   (Some (Fin 2)) (Some false)].

(** A configuration the validation rejects: the address is outside
    192.168. *)
Definition foreign_config : LaserGet.config :=
  LaserGet.mkConfig "10.0.0.7" 19204 8 1 5
                    (3602879701896397 # 36028797018963968) 10.

(** A beam flagged valid whose distance is a string. *)
Definition odd_beam : json :=
  JObj [("angle"%string, JNum (Fin 0));
        ("dist"%string, JStr "far");
        ("valid"%string, JBool true)].

(** A beam in range whose validity flag is the string [false], not the
    boolean. *)
Definition quoted_flag_beam : json :=
  JObj [("angle"%string, JNum (Fin 0));
        ("dist"%string, JNum (Fin 1));
        ("valid"%string, JStr "false")].

End Fixture.

(** * Properties *)

Ltac inv H := inversion H; subst; clear H.

(** ** The Python operations on small inputs *)

Example contains_key :
  contains "dist" (JObj [("angle"%string, JNull); ("dist"%string, JNull)])
  = Ret true.
Proof. reflexivity. Qed.

Example contains_substring : contains "angle" (JStr "triangles") = Ret true.
Proof. reflexivity. Qed.

Example contains_number : contains "angle" (JNum (Fin 3)) = Raise TypeError.
Proof. reflexivity. Qed.

Example get_on_list : get (JArr []) "ret_code" (JNum (Fin 0)) = Raise AttributeError.
Proof. reflexivity. Qed.

Example false_equals_zero : eq_zero (JBool false) = true.
Proof. reflexivity. Qed.

Example null_is_not_zero : eq_zero JNull = false.
Proof. reflexivity. Qed.

Example nan_is_out_of_range :
  num_le (Fin (1 # 10)) NaN && num_le NaN (Fin 5) = false.
Proof. reflexivity. Qed.

Example recv_takes_part_of_a_segment :
  recv_queue 2 [Data []; Data [x01; x02; x03]; Stall] =
  (Ret [x01; x02], [Data [x03]; Stall]).
Proof. reflexivity. Qed.

Example recv_after_close : recv_queue 16 [Data []] = (Ret [], []).
Proof. reflexivity. Qed.

Example default_configuration_is_valid :
  LaserGet.validate_configuration LaserGet.default_config = true /\
  LaserGet.validate_laser_params LaserGet.default_config = true.
Proof. split; reflexivity. Qed.

(** ** Counting events *)

Lemma count_app (p : event -> bool) (t u : list event) :
  count p (t ++ u) = (count p t + count p u)%nat.
Proof. unfold count. rewrite filter_app, length_app. reflexivity. Qed.

Lemma count_quiet (p : event -> bool) (t : list event) :
  (forall e, quiet e = true -> p e = false) ->
  forallb quiet t = true -> count p t = 0%nat.
Proof.
  intros Hp. induction t as [|e t IH]; simpl; intros H; [reflexivity|].
  apply andb_prop in H. destruct H as [He Ht].
  unfold count in *. simpl. rewrite (Hp e He). auto.
Qed.

(** ** Facts about agv_control.py *)

Module ControlFacts.
Import Control.
Section WithExternals.
Context {ext : Externals}.

Lemma extends_refl st : extends st st [].
Proof. unfold extends. rewrite app_nil_r. tauto. Qed.

Lemma extends_trans st1 st2 st3 t u :
  extends st1 st2 t -> extends st2 st3 u -> extends st1 st3 (t ++ u).
Proof.
  unfold extends. intros (H1 & H2 & H3 & H4 & H5 & H6) (K1 & K2 & K3 & K4 & K5 & K6).
  rewrite K1, H1, app_assoc. repeat split; congruence.
Qed.

Lemma emit_extends e st : extends st (snd (emit e st)) [e].
Proof. unfold extends, emit, has_socket. simpl. tauto. Qed.

Lemma on_so_extends {A} (op : socket -> res A * socket) st r st' :
  on_so op st = (r, st') -> extends st st' [].
Proof.
  unfold on_so, extends, has_socket. destruct (so st) eqn:E.
  - destruct (op s) as [r0 s']. intros H. inversion H; subst. simpl.
    rewrite app_nil_r. tauto.
  - intros H. inversion H; subst. rewrite E, app_nil_r. tauto.
Qed.

Lemma so_send_extends msg st r st' :
  so_send msg st = (r, st') -> extends st st' [EvSend msg].
Proof.
  unfold so_send, bind. simpl. intros H.
  apply on_so_extends in H.
  pose proof (emit_extends (EvSend msg) st) as E. simpl in E.
  pose proof (extends_trans E H) as R. exact R.
Qed.

Lemma so_recv_extends n st r st' :
  so_recv n st = (r, st') -> extends st st' [EvRecv n].
Proof.
  unfold so_recv, bind. simpl. intros H.
  apply on_so_extends in H.
  pose proof (emit_extends (EvRecv n) st) as E. simpl in E.
  pose proof (extends_trans E H) as R. exact R.
Qed.

Lemma so_settimeout_extends q st :
  extends st (snd (so_settimeout q st)) [EvSetTimeout q].
Proof. apply emit_extends. Qed.

Lemma exchange_extends msg st r st' :
  exchange msg st = (r, st') ->
  exists t, extends st st' (EvSend msg :: t) /\ forallb quiet t = true.
Proof.
  unfold exchange, bind.
  destruct (so_send msg st) as [[[]|e] st1] eqn:E1.
  2:{ intros H; inv H. exists []. split; [eapply so_send_extends; eauto|reflexivity]. }
  apply so_send_extends in E1.
  pose proof (so_settimeout_extends 5 st1) as E2.
  destruct (so_settimeout 5 st1) as [[[]|e] st2] eqn:E2'; simpl in E2.
  2:{ unfold so_settimeout, emit in E2'. discriminate. }
  pose proof (extends_trans E1 E2) as E12. simpl in E12. clear E1 E2 E2'.
  destruct (so_recv 16 st2) as [[header|e] st3] eqn:E3.
  2:{ intros H; inv H. apply so_recv_extends in E3.
      pose proof (extends_trans E12 E3) as R. simpl in R. eexists; split; [exact R|reflexivity]. }
  apply so_recv_extends in E3.
  pose proof (extends_trans E12 E3) as E123. simpl in E123. clear E12 E3.
  destruct (negb (len header =? 16)).
  { intros H; inv H. eexists; split; [exact E123|reflexivity]. }
  destruct (unpackHead header) as [[json_data_len back_req_num]|].
  2:{ intros H; inv H. eexists; split; [exact E123|reflexivity]. }
  destruct (json_data_len >? 10 * 1024 * 1024).
  { intros H; inv H. eexists; split; [exact E123|reflexivity]. }
  assert (tail : forall (text : string) st4 u,
             extends st st4 (EvSend msg :: u) -> forallb quiet u = true ->
             (resp_json <- loads text;;
              ret_code <- lift (get resp_json "ret_code" (JNum (Fin 0)));;
              (if eq_zero ret_code then ret Returned else ret FellThrough)) st4 = (r, st') ->
             exists t, extends st st' (EvSend msg :: t) /\ forallb quiet t = true).
  { intros text st4 u Hu Hq. unfold bind, loads, lift, ret, raise.
    destruct (json_loads text); [|intros H; inv H; eauto].
    destruct (get j "ret_code" (JNum (Fin 0))); [|intros H; inv H; eauto].
    destruct (eq_zero a); intros H; inv H; eauto. }
  destruct (json_data_len >? 0).
  - destruct (so_recv json_data_len st3) as [[data|e] st4] eqn:E4;
      apply so_recv_extends in E4;
      pose proof (extends_trans E123 E4) as E1234; simpl in E1234.
    + unfold decode. destruct (decode_utf8 data).
      * unfold ret at 1. eapply tail; [exact E1234|reflexivity].
      * unfold raise. intros H; inv H. eexists; split; [exact E1234|reflexivity].
    + intros H; inv H. eexists; split; [exact E1234|reflexivity].
  - unfold ret at 1. eapply tail; [exact E123|reflexivity].
Qed.

Lemma pause_run i retry st :
  (pause i retry ;; ret (@None bool)) st =
  (Ret None,
   if i <? retry
   then mkWorld (so st) (vx st) (vy st) (w st) (net st)
                (trace st ++ [EvSleep (1 # 2)])
   else st).
Proof. unfold pause, bind, time_sleep, emit, ret. destruct (i <? retry); reflexivity. Qed.

Lemma pause_trace i retry st r st' :
  (pause i retry ;; ret (@None bool)) st = (r, st') ->
  r = Ret None /\ has_socket st' = has_socket st /\
  trace st' = trace st ++ (if i <? retry then [EvSleep (1 # 2)] else []).
Proof.
  rewrite pause_run. intros H; inv H. destruct (i <? retry); simpl.
  - auto.
  - rewrite app_nil_r. auto.
Qed.

Lemma reconnect_trace i retry st r st' :
  reconnect i retry st = (r, st') ->
  has_socket st = true ->
  has_socket st' = true /\
  trace st' = trace st ++
    (if i <? retry then [EvClose; EvConnect AGV_IP CONTROL_PORT] else []).
Proof.
  unfold reconnect. destruct (i <? retry).
  - unfold bind, so_close, so_new, so_connect, bind, emit, on_so, set_so, set_net, has_socket, ret.
    simpl. destruct (so st); [|discriminate]. simpl.
    destruct (net st) as [|[|q f] rest]; intros H _; inv H; simpl;
      rewrite <- app_assoc; auto.
  - unfold ret. intros H Hs; inv H. rewrite app_nil_r. auto.
Qed.

Lemma iteration_trace i retry msg st r st' :
  iteration i retry msg st = (r, st') ->
  has_socket st = true ->
  exists t u,
    trace st' = trace st ++ EvSend msg :: t ++ u /\
    forallb quiet t = true /\ handler_events i retry u /\
    has_socket st' = true.
Proof.
  unfold iteration. intros H Hs.
  destruct (exchange msg st) as [ro st1] eqn:E.
  apply exchange_extends in E. destruct E as (t & (Et & _ & Es & _) & Hq).
  rewrite Hs in Es.
  assert (soft : forall r0 st0, (pause i retry;; ret (@None bool)) st1 = (r0, st0) ->
            exists t u, trace st0 = trace st ++ EvSend msg :: t ++ u /\
              forallb quiet t = true /\ handler_events i retry u /\
              has_socket st0 = true).
  { intros r0 st0 K. apply pause_trace in K. destruct K as (_ & K1 & K2).
    exists t. eexists. rewrite K2, Et, <- app_assoc. simpl.
    split; [reflexivity|]. split; [exact Hq|]. split; [|congruence].
    unfold handler_events. destruct (i <? retry) eqn:L; [right|left; reflexivity].
    apply Z.ltb_lt in L. auto. }
  destruct ro as [[]|e].
  - inv H. exists t, []. rewrite app_nil_r. unfold handler_events. auto.
  - inv H. exists t, []. rewrite app_nil_r. unfold handler_events. auto.
  - eapply soft; eauto.
  - destruct e; try (eapply soft; eauto; fail).
    unfold bind at 1 in H.
    destruct (reconnect i retry st1) as [[[]|e] st2] eqn:R;
      apply reconnect_trace in R; auto; destruct R as (R1 & R2).
    + apply pause_trace in H. destruct H as (_ & K1 & K2).
      exists t. eexists. rewrite K2, R2, Et, <- !app_assoc. simpl.
      split; [reflexivity|]. split; [exact Hq|]. split; [|congruence].
      unfold handler_events. destruct (i <? retry) eqn:L; [right|left; reflexivity].
      apply Z.ltb_lt in L. auto.
    + inv H. exists t. eexists. rewrite R2, Et, <- !app_assoc. simpl.
      split; [reflexivity|]. split; [exact Hq|]. split; [|congruence].
      unfold handler_events. destruct (i <? retry) eqn:L; [right|left; reflexivity].
      apply Z.ltb_lt in L. auto.
Qed.

Lemma count_cons (p : event -> bool) e t :
  count p (e :: t) = ((if p e then 1 else 0) + count p t)%nat.
Proof. unfold count. simpl. destruct (p e); reflexivity. Qed.

Lemma handler_counts i retry u :
  handler_events i retry u ->
  count is_send u = 0%nat /\
  count is_close u = count is_connect u /\
  (count is_sleep u <= 1)%nat /\ (count is_close u <= 1)%nat /\
  ((count is_sleep u + count is_close u > 0)%nat -> i < retry).
Proof.
  intros [->|(L & [->|[->| ->]])]; cbn; repeat split; auto; lia.
Qed.

Lemma quiet_counts t :
  forallb quiet t = true ->
  count is_send t = 0%nat /\ count is_close t = 0%nat /\
  count is_connect t = 0%nat /\ count is_sleep t = 0%nat.
Proof.
  intros H. repeat split; apply count_quiet; auto; intros [] E; simpl in *; congruence.
Qed.

(** Bounds that hold for every behaviour of the peer. *)
Lemma attempts_bounds n : forall i retry msg st r st',
  attempts n i retry msg st = (r, st') ->
  has_socket st = true ->
  exists t,
    trace st' = trace st ++ t /\
    (count is_send t <= n)%nat /\
    (count is_sleep t <= Z.to_nat (retry - i))%nat /\
    count is_close t = count is_connect t /\
    (count is_close t <= Z.to_nat (retry - i))%nat /\
    has_socket st' = true.
Proof.
  induction n as [|n IH]; intros i retry msg st r st' H Hs.
  - inv H. exists []. rewrite app_nil_r. cbn. repeat split; auto; lia.
  - simpl in H. unfold bind in H.
    destruct (iteration i retry msg st) as [r1 st1] eqn:E.
    apply iteration_trace in E; auto. destruct E as (t & u & Et & Hq & Hu & Hs1).
    apply handler_counts in Hu. destruct Hu as (U1 & U2 & U3 & U4 & U5).
    apply quiet_counts in Hq. destruct Hq as (Q1 & Q2 & Q3 & Q4).
    assert (head : count is_send (EvSend msg :: t ++ u) = 1%nat /\
                   count is_sleep (EvSend msg :: t ++ u) = count is_sleep u /\
                   count is_close (EvSend msg :: t ++ u) = count is_close u /\
                   count is_connect (EvSend msg :: t ++ u) = count is_connect u).
    { rewrite !count_cons, !count_app. simpl. lia. }
    destruct head as (S1 & S2 & S3 & S4).
    destruct r1 as [[b|]|e].
    + inv H. eexists. split; [exact Et|]. rewrite S1, S2, S3, S4.
      repeat split; auto; lia.
    + apply IH in H; auto. destruct H as (t2 & Et2 & B1 & B2 & B3 & B4 & B5).
      exists ((EvSend msg :: t ++ u) ++ t2).
      rewrite Et2, Et, <- app_assoc. split; [reflexivity|].
      rewrite !(count_app _ (EvSend msg :: t ++ u)), S1, S2, S3, S4.
      repeat split; auto; lia.
    + inv H. eexists. split; [exact Et|]. rewrite S1, S2, S3, S4.
      repeat split; auto; lia.
Qed.

Lemma attempts_soft (kind : res outcome -> bool) :
  (forall r, kind r = true -> soft_failure r = true) ->
  forall n i retry msg st,
    every_attempt kind n i retry msg st = true ->
    exists st' t,
      attempts n i retry msg st = (Ret false, st') /\
      trace st' = trace st ++ t /\
      count is_send t = n /\
      count is_sleep t = Nat.min n (Z.to_nat (retry - i)) /\
      count is_close t = 0%nat /\ count is_connect t = 0%nat.
Proof.
  intros Hk. induction n as [|n IH]; intros i retry msg st H.
  - exists st, []. rewrite app_nil_r. repeat split; reflexivity.
  - simpl in H. apply andb_prop in H. destruct H as [K H].
    apply Hk in K.
    assert (It : iteration i retry msg st =
                 (pause i retry ;; ret None) (snd (exchange msg st))).
    { unfold iteration. destruct (exchange msg st) as [[[]|[]] st1];
        simpl in K; try discriminate; reflexivity. }
    destruct (exchange msg st) as [ro st1] eqn:E. simpl in It.
    apply exchange_extends in E. destruct E as (t & (Et & _) & Hq).
    apply quiet_counts in Hq. destruct Hq as (Q1 & Q2 & Q3 & Q4).
    rewrite It in H. rewrite pause_run in It, H. simpl in H.
    apply IH in H. destruct H as (st' & t2 & A & Et2 & C1 & C2 & C3 & C4).
    destruct (i <? retry) eqn:L; simpl in Et2; rewrite Et, <- !app_assoc in Et2;
      simpl in Et2; exists st'; eexists; simpl; unfold bind; rewrite It;
      (split; [exact A|]); (split; [exact Et2|]).
    + apply Z.ltb_lt in L.
      rewrite !count_cons, !count_app, !count_cons. simpl.
      assert (Z.to_nat (retry - i) = S (Z.to_nat (retry - (i + 1)))) as -> by lia.
      simpl Nat.min. repeat split; try lia.
    + apply Z.ltb_ge in L.
      rewrite !count_cons, !count_app. simpl.
      assert (Z.to_nat (retry - i) = 0%nat) as E0 by lia.
      assert (Z.to_nat (retry - (i + 1)) = 0%nat) as E1 by lia.
      rewrite E0. rewrite E1 in C2. rewrite Nat.min_0_r in *.
      repeat split; try lia.
Qed.

Lemma read_header_trace msg st r st1 :
  read_header msg st = (r, st1) ->
  has_socket st1 = has_socket st /\
  forall header, r = Ret header ->
    trace st1 = trace st ++ [EvSend msg; EvSetTimeout 5; EvRecv 16] /\
    has_socket st = true.
Proof.
  unfold read_header, bind.
  destruct (so_send msg st) as [[[]|e] st2] eqn:E1.
  2:{ intros H; inv H. apply so_send_extends in E1. destruct E1 as (_ & _ & E & _).
      split; [exact E|discriminate]. }
  assert (Hs : has_socket st = true).
  { revert E1. unfold so_send, bind, emit, on_so, has_socket. simpl.
    destruct (so st); [reflexivity|discriminate]. }
  apply so_send_extends in E1. destruct E1 as (T1 & _ & S1 & _).
  unfold so_settimeout, emit at 1. simpl.
  intros H. apply so_recv_extends in H. destruct H as (T2 & _ & S2 & _).
  simpl in T2. unfold has_socket in S2 at 2. simpl in S2. fold (has_socket st2) in S2.
  split; [congruence|]. intros header _. split; [|exact Hs].
  rewrite T2, T1, <- !app_assoc. reflexivity.
Qed.

Lemma exchange_after_header msg st :
  exchange msg st =
  match read_header msg st with
  | (Ret header, st1) =>
      (if negb (len header =? 16) then ret Continued
       else
         match unpackHead header with
         | None => raise ValueError
         | Some (json_data_len, back_req_num) =>
             if json_data_len >? 10 * 1024 * 1024 then ret Continued
             else
               resp_data <- (if json_data_len >? 0
                             then data <- so_recv json_data_len ;; decode data
                             else ret "{}"%string) ;;
               resp_json <- loads resp_data ;;
               ret_code <- lift (get resp_json "ret_code" (JNum (Fin 0))) ;;
               if eq_zero ret_code then ret Returned else ret FellThrough
         end) st1
  | (Raise e, st1) => (Raise e, st1)
  end.
Proof.
  unfold exchange, read_header, bind.
  destruct (so_send msg st) as [[[]|e] st2]; [|reflexivity].
  destruct (so_settimeout 5 st2) as [[[]|e] st3]; [|reflexivity].
  destruct (so_recv 16 st3) as [[header|e] st4]; reflexivity.
Qed.

Lemma send_control_command_run api_type params retry st msg :
  has_socket st = true ->
  packMsg 1 api_type params = Some msg -> msg <> [] ->
  send_control_command api_type params retry st =
  attempts (Z.to_nat (retry + 1)) 0 retry msg st.
Proof.
  unfold send_control_command, has_socket. destruct (so st); [|discriminate].
  intros _ -> Hm. destruct msg; [congruence|reflexivity].
Qed.

Lemma send_control_command_bounds api_type params retry st r st' :
  send_control_command api_type params retry st = (r, st') ->
  exists t,
    trace st' = trace st ++ t /\
    (count is_send t <= Z.to_nat (retry + 1))%nat /\
    (count is_sleep t <= Z.to_nat retry)%nat /\
    count is_close t = count is_connect t /\
    (count is_close t <= Z.to_nat retry)%nat /\
    has_socket st' = has_socket st.
Proof.
  unfold send_control_command.
  assert (idle : (r, st') = (r, st') -> forall b, (Ret b, st) = (r, st') ->
            exists t, trace st' = trace st ++ t /\
              (count is_send t <= Z.to_nat (retry + 1))%nat /\
              (count is_sleep t <= Z.to_nat retry)%nat /\
              count is_close t = count is_connect t /\
              (count is_close t <= Z.to_nat retry)%nat /\
              has_socket st' = has_socket st).
  { intros _ b H. inv H. exists []. rewrite app_nil_r. cbn. repeat split; lia. }
  destruct (so st) eqn:Es; [|apply idle; reflexivity].
  destruct (packMsg 1 api_type params) as [[|b msg]|]; try (apply idle; reflexivity).
  intros H. apply attempts_bounds in H; [|unfold has_socket; rewrite Es; reflexivity].
  destruct H as (t & Et & B1 & B2 & B3 & B4 & B5). exists t.
  rewrite Z.sub_0_r in B2, B4. unfold has_socket at 2. rewrite Es.
  repeat split; auto.
Qed.

(** An attempt whose header declares more than 10 MiB stops after the header
    read, and the loop goes on to the next attempt without waiting. *)
Lemma oversize_header_skips_body
    i retry msg st header json_data_len back_req_num st1 :
  read_header msg st = (Ret header, st1) ->
  len header = 16 ->
  unpackHead header = Some (json_data_len, back_req_num) ->
  json_data_len > 10 * 1024 * 1024 ->
  exchange msg st = (Ret Continued, st1) /\
  iteration i retry msg st = (Ret None, st1) /\
  trace st1 = trace st ++ [EvSend msg; EvSetTimeout 5; EvRecv 16].
Proof.
  intros Hh Hl Hu Hn.
  assert (E : exchange msg st = (Ret Continued, st1)).
  { rewrite exchange_after_header, Hh, Hl.
    change (negb (16 =? 16)) with false. cbv iota. rewrite Hu.
    assert ((json_data_len >? 10 * 1024 * 1024) = true) as -> by lia.
    reflexivity. }
  split; [exact E|]. split.
  - unfold iteration. rewrite E. reflexivity.
  - destruct (read_header_trace _ _ Hh) as (_ & K).
    destruct (K header eq_refl) as (T & _). exact T.
Qed.

(** A header read that does not give 16 bytes ends the attempt at once. *)
Lemma short_header_skips_body i retry msg st header st1 :
  read_header msg st = (Ret header, st1) ->
  len header <> 16 ->
  exchange msg st = (Ret Continued, st1) /\
  iteration i retry msg st = (Ret None, st1) /\
  trace st1 = trace st ++ [EvSend msg; EvSetTimeout 5; EvRecv 16].
Proof.
  intros Hh Hl.
  assert (E : exchange msg st = (Ret Continued, st1)).
  { rewrite exchange_after_header, Hh.
    assert ((len header =? 16) = false) as -> by lia. reflexivity. }
  split; [exact E|]. split.
  - unfold iteration. rewrite E. reflexivity.
  - destruct (read_header_trace _ _ Hh) as (_ & K).
    destruct (K header eq_refl) as (T & _). exact T.
Qed.

(** Claim C4.  [send_control_command] is a total function and never makes
    more than [retry + 1] sends, whatever the peer does.  If every attempt
    ends in [socket.timeout] (raised by the send, the header read or the body
    read), it makes exactly [retry + 1] sends and then returns [False]. *)
Theorem retry_bound_on_timeouts api_type params retry st :
  (exists r st' t,
      send_control_command api_type params retry st = (r, st') /\
      trace st' = trace st ++ t /\
      (count is_send t <= Z.to_nat (retry + 1))%nat) /\
  (forall request_msg,
      has_socket st = true ->
      packMsg 1 api_type params = Some request_msg -> request_msg <> [] ->
      0 <= retry ->
      every_attempt timed_out (Z.to_nat (retry + 1)) 0 retry request_msg st = true ->
      exists st' t,
        send_control_command api_type params retry st = (Ret false, st') /\
        trace st' = trace st ++ t /\
        Z.of_nat (count is_send t) = retry + 1).
Proof.
  split.
  - destruct (send_control_command api_type params retry st) as [r st'] eqn:E.
    apply send_control_command_bounds in E. destruct E as (t & Et & B & _).
    exists r, st', t. auto.
  - intros msg Hs Hp Hm Hr Ht.
    rewrite send_control_command_run with (msg := msg) by assumption.
    apply (attempts_soft timed_out) in Ht.
    + destruct Ht as (st' & t & A & Et & C & _). exists st', t.
      repeat split; auto. lia.
    + intros [[]|[]]; simpl; congruence.
Qed.

Lemma exchange_needs_socket msg st e st1 :
  exchange msg st = (Raise e, st1) -> e <> AttributeError ->
  has_socket st = true.
Proof.
  unfold exchange, so_send, bind, emit, on_so, has_socket. simpl.
  destruct (so st); [reflexivity|]. intros H; inv H. congruence.
Qed.


Lemma exchange_keeps_socket msg st r st1 :
  exchange msg st = (r, st1) -> has_socket st = true -> has_socket st1 = true.
Proof.
  intros E Hs. apply exchange_extends in E.
  destruct E as (t & (_ & _ & S1 & _) & _). congruence.
Qed.

(** When an iteration lets the loop go on and attempts remain, the next call
    is the send of the same request. *)
Lemma attempts_go_on i retry msg st st2 :
  0 <= i < retry ->
  has_socket st = true ->
  iteration i retry msg st = (Ret None, st2) ->
  exists r st' t,
    attempts (Z.to_nat (retry + 1 - i)) i retry msg st = (r, st') /\
    trace st' = trace st2 ++ EvSend msg :: t.
Proof.
  intros Hi Hs It.
  assert (Z.to_nat (retry + 1 - i) = S (S (Z.to_nat (retry - i - 1)))) as -> by lia.
  cbn [attempts]. unfold bind at 1. rewrite It.
  pose proof It as Tr. apply iteration_trace in Tr; auto.
  destruct Tr as (_ & _ & _ & _ & _ & Hs2).
  unfold bind at 1.
  destruct (iteration (i + 1) retry msg st2) as [r1 st3] eqn:E.
  pose proof E as Tr. apply iteration_trace in Tr; auto.
  destruct Tr as (t & u & Et & _ & _ & Hs3).
  destruct r1 as [[b|]|e].
  - do 3 eexists. split; [reflexivity|exact Et].
  - destruct (attempts (Z.to_nat (retry - i - 1)) (i + 1 + 1) retry msg st3)
      as [r st'] eqn:A.
    pose proof A as B. apply attempts_bounds in B; auto.
    destruct B as (t2 & Et2 & _).
    exists r, st', (t ++ u ++ t2). split; [reflexivity|].
    rewrite Et2, Et, <- !app_assoc. simpl. rewrite <- ?app_assoc. reflexivity.
  - do 3 eexists. split; [reflexivity|exact Et].
Qed.




(** Claim C3, amended.  With attempts left ([i < retry]): a socket error in
    the exchange makes the client close the socket and create and connect a
    new one; if the connection is accepted it waits 0.5 s and the loop goes
    on with the new socket, and if it is refused the [socket.error] of
    [connect] leaves the loop and the function at once, with no wait and no
    further attempt.  A timeout, like any exception other than a socket
    error, makes it wait 0.5 s and go on with the same socket, without
    closing or reconnecting.  A header read that does not return 16 bytes
    (short or closed) makes it go on at once with the same socket.  Whenever
    the loop goes on, the next call is the send of the same request.
    Whatever happens, a call makes at most [retry + 1] sends and [retry]
    waits, and as many connects as closes. *)
Theorem transport_failure_handling i retry msg :
  0 <= i < retry ->
  (forall st st1 q f rest,
     exchange msg st = (Raise socket_error, st1) ->
     net st1 = Accept q f :: rest ->
     exists st2,
       iteration i retry msg st = (Ret None, st2) /\
       so st2 = Some (mkSocket true q f) /\
       net st2 = rest /\
       trace st2 =
         trace st1 ++ [EvClose; EvConnect AGV_IP CONTROL_PORT; EvSleep (1 # 2)]) /\
  (forall st st1,
     exchange msg st = (Raise socket_error, st1) ->
     refused (net st1) ->
     exists st2,
       iteration i retry msg st = (Raise socket_error, st2) /\
       so st2 = Some unconnected /\
       trace st2 = trace st1 ++ [EvClose; EvConnect AGV_IP CONTROL_PORT] /\
       forall n, attempts (S n) i retry msg st = (Raise socket_error, st2)) /\
  (forall st st1 e,
     exchange msg st = (Raise e, st1) ->
     e <> socket_error ->
     exists st2,
       iteration i retry msg st = (Ret None, st2) /\
       so st2 = so st1 /\ net st2 = net st1 /\
       trace st2 = trace st1 ++ [EvSleep (1 # 2)]) /\
  (forall st header st1,
     read_header msg st = (Ret header, st1) ->
     len header <> 16 ->
     iteration i retry msg st = (Ret None, st1) /\
     trace st1 = trace st ++ [EvSend msg; EvSetTimeout 5; EvRecv 16]) /\
  (forall st st2,
     has_socket st = true ->
     iteration i retry msg st = (Ret None, st2) ->
     exists r st' t,
       attempts (Z.to_nat (retry + 1 - i)) i retry msg st = (r, st') /\
       trace st' = trace st2 ++ EvSend msg :: t) /\
  (forall api_type params st r st',
     send_control_command api_type params retry st = (r, st') ->
     exists t,
       trace st' = trace st ++ t /\
       (count is_send t <= Z.to_nat (retry + 1))%nat /\
       (count is_sleep t <= Z.to_nat retry)%nat /\
       count is_close t = count is_connect t).
Proof.
  intros Hi. assert ((i <? retry) = true) as L by lia.
  assert (Sock : forall st st1, exchange msg st = (Raise socket_error, st1) ->
                   exists s, so st1 = Some s).
  { intros st st1 E.
    assert (Hs : has_socket st1 = true).
    { eapply exchange_keeps_socket; [exact E|].
      eapply exchange_needs_socket; [exact E|discriminate]. }
    unfold has_socket in Hs. destruct (so st1) as [s|]; [eauto|discriminate]. }
  split; [|split; [|split; [|split; [|split]]]].
  - intros st st1 q f rest E Hn.
    destruct (Sock _ _ E) as (s & Es).
    unfold iteration. rewrite E.
    unfold reconnect, pause. rewrite L.
    unfold bind, so_close, so_new, so_connect, time_sleep, bind, emit, on_so,
      set_so, set_net, ret. simpl. rewrite Es. simpl. rewrite Hn.
    eexists. split; [reflexivity|]. simpl. split; [reflexivity|].
    split; [reflexivity|].
    rewrite <- !app_assoc. reflexivity.
  - intros st st1 E Hn.
    destruct (Sock _ _ E) as (s & Es).
    assert (It : exists st2,
               iteration i retry msg st = (Raise socket_error, st2) /\
               so st2 = Some unconnected /\
               trace st2 = trace st1 ++ [EvClose; EvConnect AGV_IP CONTROL_PORT]).
    { unfold iteration. rewrite E.
      unfold reconnect, pause. rewrite L.
      unfold bind, so_close, so_new, so_connect, time_sleep, bind, emit, on_so,
        set_so, set_net, ret. simpl. rewrite Es. simpl.
      unfold refused in Hn.
      destruct (net st1) as [|[|q f] rest]; [| |contradiction];
        (eexists; split; [reflexivity|]; simpl; split; [reflexivity|];
         rewrite <- !app_assoc; reflexivity). }
    destruct It as (st2 & It & S2 & T2). exists st2.
    repeat split; auto.
    intros n. simpl. unfold bind. rewrite It. reflexivity.
  - intros st st1 e E Ne.
    assert (It : iteration i retry msg st = (pause i retry ;; ret None) st1).
    { unfold iteration. rewrite E. destruct e; try reflexivity. congruence. }
    rewrite It, pause_run, L.
    eexists. split; [reflexivity|]. simpl. auto.
  - intros st header st1 Hh Hl.
    destruct (@short_header_skips_body i retry msg st header st1 Hh Hl)
      as (_ & It & T). auto.
  - intros st st2 Hs It. eapply attempts_go_on; eauto.
  - intros api_type params st r st' H.
    apply send_control_command_bounds in H.
    destruct H as (t & Et & B1 & B2 & B3 & _). exists t. auto.
Qed.

Lemma so_new_connect_trace st r st1 :
  (so_new ;; so_connect) st = (r, st1) ->
  has_socket st1 = true /\
  trace st1 = trace st ++ [EvConnect AGV_IP CONTROL_PORT].
Proof.
  unfold bind, so_new, so_connect, bind, emit, set_so, set_net, has_socket.
  simpl. destruct (net st) as [|[|q f] rest]; intros H; inv H; simpl; auto.
Qed.

Lemma main_loop_trace keys : forall st r st1,
  main_loop keys st = (r, st1) ->
  exists t, trace st1 = trace st ++ t /\ has_socket st1 = has_socket st.
Proof.
  induction keys as [|k keys IH]; intros st r st1 H.
  - inv H. exists []. rewrite app_nil_r. auto.
  - simpl in H. unfold bind at 1 in H.
    assert (Hu : exists sta, update_speed_by_keyboard k st = (Ret tt, sta) /\
                   trace sta = trace st /\ has_socket sta = has_socket st).
    { unfold update_speed_by_keyboard, set_speed, has_socket.
      destruct (key_space k); eexists; split; try reflexivity; simpl; auto. }
    destruct Hu as (sta & Hu & Ta & Sa). rewrite Hu in H.
    unfold bind at 1 in H. unfold emit at 1 in H.
    set (stb := mkWorld (so sta) (vx sta) (vy sta) (w sta) (net sta)
                        (trace sta ++ [EvPublish (vx sta) (w sta)])) in H.
    unfold bind at 1 in H.
    destruct (send_control_command robot_control_motion_req (motion_params stb) 1 stb)
      as [rc stc] eqn:Ec.
    apply send_control_command_bounds in Ec.
    destruct Ec as (tc & Tc & _ & _ & _ & _ & Sc).
    assert (Tb : trace stc = trace st ++ EvPublish (vx sta) (w sta) :: tc).
    { rewrite Tc. unfold stb. simpl. rewrite Ta, <- app_assoc. reflexivity. }
    assert (Sb : has_socket stc = has_socket st).
    { rewrite Sc. unfold stb, has_socket. simpl. exact Sa. }
    destruct rc as [b|e].
    + unfold bind at 1 in H. unfold emit at 1 in H.
      apply IH in H. destruct H as (t & Et & Es).
      simpl in Et. unfold has_socket at 2 in Es. simpl in Es.
      fold (has_socket stc) in Es.
      eexists. split; [|congruence].
      rewrite Et, Tb, <- !app_assoc. simpl. reflexivity.
    + inv H. eexists. split; [exact Tb|exact Sb].
Qed.

Lemma iteration_last_returns i retry msg st :
  retry <= i -> exists o st', iteration i retry msg st = (Ret o, st').
Proof.
  intros Hi. apply Z.ltb_ge in Hi. unfold iteration, reconnect, pause.
  rewrite Hi. unfold bind, ret.
  destruct (exchange msg st) as [[[]|[]] st1]; eauto.
Qed.

Lemma reconnects_app t u :
  every_close_reconnects t = true -> every_close_reconnects u = true ->
  every_close_reconnects (t ++ u) = true.
Proof.
  induction t as [|e t IH]; intros Ht Hu; [exact Hu|].
  destruct e; simpl in *; auto.
  destruct t as [|[] t']; try discriminate. simpl in *. auto.
Qed.

Lemma quiet_reconnects t :
  forallb quiet t = true -> every_close_reconnects t = true.
Proof.
  induction t as [|e t IH]; intros H; [reflexivity|].
  simpl in H. apply andb_prop in H. destruct H as [He Ht].
  destruct e; try discriminate; simpl; auto.
Qed.

Lemma handler_reconnects i retry u :
  handler_events i retry u -> every_close_reconnects u = true.
Proof. intros [->|(_ & [->|[->| ->]])]; reflexivity. Qed.

Lemma attempts_reconnects n : forall i retry msg st r st',
  attempts n i retry msg st = (r, st') ->
  has_socket st = true ->
  exists t,
    trace st' = trace st ++ t /\ every_close_reconnects t = true /\
    has_socket st' = true.
Proof.
  induction n as [|n IH]; intros i retry msg st r st' H Hs.
  - inv H. exists []. rewrite app_nil_r. auto.
  - simpl in H. unfold bind in H.
    destruct (iteration i retry msg st) as [r1 st1] eqn:E.
    apply iteration_trace in E; auto. destruct E as (t & u & Et & Hq & Hu & Hs1).
    assert (R : every_close_reconnects (EvSend msg :: t ++ u) = true).
    { simpl. apply reconnects_app.
      - apply quiet_reconnects, Hq.
      - eapply handler_reconnects, Hu. }
    destruct r1 as [[b|]|e].
    + inv H. eauto.
    + apply IH in H; auto. destruct H as (t2 & Et2 & R2 & Hs2).
      exists ((EvSend msg :: t ++ u) ++ t2).
      rewrite Et2, Et, <- app_assoc. split; [reflexivity|].
      split; [|exact Hs2]. apply reconnects_app; assumption.
    + inv H. eauto.
Qed.

Lemma send_control_command_reconnects api_type params retry st r st' :
  send_control_command api_type params retry st = (r, st') ->
  exists t,
    trace st' = trace st ++ t /\ every_close_reconnects t = true /\
    has_socket st' = has_socket st.
Proof.
  unfold send_control_command.
  assert (idle : forall b, (Ret b, st) = (r, st') ->
            exists t, trace st' = trace st ++ t /\
              every_close_reconnects t = true /\
              has_socket st' = has_socket st).
  { intros b H. inv H. exists []. rewrite app_nil_r. auto. }
  destruct (so st) eqn:Es; [|apply idle].
  destruct (packMsg 1 api_type params) as [[|b msg]|]; try (apply idle).
  intros H. apply attempts_reconnects in H; [|unfold has_socket; rewrite Es; reflexivity].
  destruct H as (t & Et & R & Hs). exists t.
  unfold has_socket at 2. rewrite Es. auto.
Qed.

Lemma main_loop_reconnects keys : forall st r st1,
  main_loop keys st = (r, st1) ->
  exists t,
    trace st1 = trace st ++ t /\ every_close_reconnects t = true /\
    has_socket st1 = has_socket st.
Proof.
  induction keys as [|k keys IH]; intros st r st1 H.
  - inv H. exists []. rewrite app_nil_r. auto.
  - simpl in H. unfold bind at 1 in H.
    assert (Hu : exists sta, update_speed_by_keyboard k st = (Ret tt, sta) /\
                   trace sta = trace st /\ has_socket sta = has_socket st).
    { unfold update_speed_by_keyboard, set_speed, has_socket.
      destruct (key_space k); eexists; split; try reflexivity; simpl; auto. }
    destruct Hu as (sta & Hu & Ta & Sa). rewrite Hu in H.
    unfold bind at 1 in H. unfold emit at 1 in H.
    set (stb := mkWorld (so sta) (vx sta) (vy sta) (w sta) (net sta)
                        (trace sta ++ [EvPublish (vx sta) (w sta)])) in H.
    unfold bind at 1 in H.
    destruct (send_control_command robot_control_motion_req (motion_params stb) 1 stb)
      as [rc stc] eqn:Ec.
    apply send_control_command_reconnects in Ec.
    destruct Ec as (tc & Tc & Rc & Sc).
    assert (Tb : trace stc = trace st ++ EvPublish (vx sta) (w sta) :: tc).
    { rewrite Tc. unfold stb. simpl. rewrite Ta, <- app_assoc. reflexivity. }
    assert (Sb : has_socket stc = has_socket st).
    { rewrite Sc. unfold stb, has_socket. simpl. exact Sa. }
    destruct rc as [b|e].
    + unfold bind at 1 in H. unfold emit at 1 in H.
      apply IH in H. destruct H as (t & Et & Rt & Es).
      simpl in Et. unfold has_socket at 2 in Es. simpl in Es.
      fold (has_socket stc) in Es.
      exists ((EvPublish (vx sta) (w sta) :: tc) ++ EvRateSleep :: t).
      split; [|split; [|congruence]].
      * rewrite Et, Tb, <- !app_assoc. simpl. reflexivity.
      * apply reconnects_app; [exact Rc|exact Rt].
    + inv H. eexists. split; [exact Tb|]. split; [exact Rc|exact Sb].
Qed.

(** The [try] body of [agv_keyboard_control]: the first call is the connect,
    and a socket that is closed is replaced at once. *)
Lemma try_body_trace keys st r st1 :
  (so_new ;; so_connect ;; main_loop keys) st = (r, st1) ->
  exists body,
    trace st1 = trace st ++ EvConnect AGV_IP CONTROL_PORT :: body /\
    every_close_reconnects body = true /\
    has_socket st1 = true.
Proof.
  intros E.
  change ((so_new;; so_connect;; main_loop keys) st)
    with (match so_new st with
          | (Ret a, sta) => (so_connect;; main_loop keys) sta
          | (Raise e, sta) => (Raise e, sta)
          end) in E.
  unfold so_new at 1 in E.
  set (sta := set_so (Some unconnected) st) in E.
  unfold bind in E.
  destruct (so_connect sta) as [rc stb] eqn:Ec.
  assert (Hb : has_socket stb = true /\
               trace stb = trace st ++ [EvConnect AGV_IP CONTROL_PORT]).
  { revert Ec. unfold so_connect, bind, emit, set_so, set_net, has_socket, sta.
    simpl. destruct (net st) as [|[|q f] rest]; intros H; inv H; simpl; auto. }
  destruct Hb as (Sb & Tb).
  destruct rc as [[]|e].
  - apply main_loop_reconnects in E. destruct E as (t & Et & Rt & Es).
    exists t. rewrite Et, Tb, <- app_assoc. split; [reflexivity|].
    split; [exact Rt|congruence].
  - inv E. exists []. auto.
Qed.

Lemma iteration_last_state i retry msg st :
  retry <= i ->
  exists o, iteration i retry msg st = (Ret o, snd (exchange msg st)).
Proof.
  intros Hi. apply Z.ltb_ge in Hi. unfold iteration, reconnect, pause.
  rewrite Hi. unfold bind, ret.
  destruct (exchange msg st) as [[[]|[]] st1]; simpl; eauto.
Qed.

(** A send that the socket accepts is followed by the header read. *)
Lemma exchange_sent msg st s :
  so st = Some s -> fst (sock_send s) = Ret tt ->
  exists t,
    trace (snd (exchange msg st)) =
      trace st ++ EvSend msg :: EvSetTimeout 5 :: EvRecv 16 :: t.
Proof.
  intros Es Hsend.
  destruct (exchange msg st) as [r st'] eqn:E. simpl.
  revert E. unfold exchange, bind.
  destruct (so_send msg st) as [[[]|e] st1] eqn:E1.
  2:{ revert E1. unfold so_send, bind, emit, on_so. simpl. rewrite Es.
      destruct (sock_send s) as [[[]|e0] s1]; simpl in *; [discriminate|].
      discriminate. }
  apply so_send_extends in E1. destruct E1 as (T1 & _).
  pose proof (so_settimeout_extends 5 st1) as E2.
  destruct (so_settimeout 5 st1) as [[[]|e] st2] eqn:E2'; simpl in E2.
  2:{ unfold so_settimeout, emit in E2'. discriminate. }
  destruct E2 as (T2' & _).
  assert (T2 : trace st2 = trace st ++ [EvSend msg; EvSetTimeout 5]).
  { rewrite T2', T1, <- app_assoc. reflexivity. }
  destruct (so_recv 16 st2) as [[header|e] st3] eqn:E3;
    apply so_recv_extends in E3; destruct E3 as (T3 & _).
  2:{ intros H; inv H. exists []. rewrite T3, T2, <- app_assoc. reflexivity. }
  assert (T : trace st3 = trace st ++ [EvSend msg; EvSetTimeout 5; EvRecv 16]).
  { rewrite T3, T2, <- app_assoc. reflexivity. }
  assert (here : (r, st') = (r, st') -> st' = st3 ->
            exists t, trace st' =
              trace st ++ EvSend msg :: EvSetTimeout 5 :: EvRecv 16 :: t).
  { intros _ ->. exists []. exact T. }
  destruct (negb (len header =? 16)); [intros H; inv H; auto|].
  destruct (unpackHead header) as [[json_data_len back_req_num]|];
    [|intros H; inv H; auto].
  destruct (json_data_len >? 10 * 1024 * 1024); [intros H; inv H; auto|].
  assert (tail : forall (text : string) st4 u,
             trace st4 = trace st ++ EvSend msg :: EvSetTimeout 5 :: EvRecv 16 :: u ->
             (resp_json <- loads text;;
              ret_code <- lift (get resp_json "ret_code" (JNum (Fin 0)));;
              (if eq_zero ret_code then ret Returned else ret FellThrough)) st4 = (r, st') ->
             exists t, trace st' =
               trace st ++ EvSend msg :: EvSetTimeout 5 :: EvRecv 16 :: t).
  { intros text st4 u Hu. unfold bind, loads, lift, ret, raise.
    destruct (json_loads text); [|intros H; inv H; eauto].
    destruct (get j "ret_code" (JNum (Fin 0))); [|intros H; inv H; eauto].
    destruct (eq_zero a); intros H; inv H; eauto. }
  destruct (json_data_len >? 0).
  - destruct (so_recv json_data_len st3) as [[data|e] st4] eqn:E4;
      apply so_recv_extends in E4; destruct E4 as (T4 & _).
    + assert (T' : trace st4 = trace st ++ EvSend msg :: EvSetTimeout 5 ::
                     EvRecv 16 :: [EvRecv json_data_len]).
      { rewrite T4, T, <- app_assoc. reflexivity. }
      unfold decode. destruct (decode_utf8 data).
      * unfold ret at 1. eapply tail. exact T'.
      * unfold raise. intros H; inv H. eauto.
    + intros H; inv H. eexists. rewrite T4, T, <- app_assoc. reflexivity.
  - unfold ret at 1. eapply tail with (u := []). exact T.
Qed.

(** The [finally] block when [so] is set: the stop request is sent once,
    whatever happens to it the socket is closed next, and the block
    returns. *)
Lemma shutdown_run st msg :
  has_socket st = true ->
  packMsg 1 robot_control_stop_req (JObj []) = Some msg -> msg <> [] ->
  exists st',
    shutdown st = (Ret tt, st') /\
    trace st' = trace (snd (exchange msg st)) ++ [EvClose].
Proof.
  intros Hs Hp Hm. unfold shutdown.
  pose proof Hs as Hs'. unfold has_socket in Hs'.
  destruct (so st) eqn:Es; [clear Hs'|discriminate].
  unfold bind at 1.
  rewrite send_control_command_run with (msg := msg) by assumption.
  change (Z.to_nat (0 + 1)) with 1%nat. simpl attempts. unfold bind at 1.
  destruct (iteration_last_state msg st (Z.le_refl 0)) as (o & K).
  rewrite K.
  destruct (exchange msg st) as [r st1] eqn:E. simpl.
  apply exchange_keeps_socket in E; auto.
  assert (Hc : exists st', so_close st1 = (Ret tt, st') /\
                 trace st' = trace st1 ++ [EvClose]).
  { unfold so_close, bind, emit, on_so, set_so, has_socket in *.
    simpl. destruct (so st1); [|discriminate]. eexists. split; reflexivity. }
  destruct Hc as (st' & C1 & C2).
  exists st'. destruct o; unfold ret; rewrite C1; auto.
Qed.

(** Claim C8.  Whatever the keyboard, the device and the network do while
    [agv_keyboard_control] runs, and whichever way its [try] body ends
    (normally or with an exception), a socket exists at the end of the [try]
    body and it has not been closed: the body's calls start with the connect
    and each close in them is followed at once by the connect of a new
    socket.  From there the function makes these calls and returns: the send
    of the stop request first, then reads only, then the close of the
    socket, which is its last call.  If the socket accepts the send, the
    answer is awaited (timeout set, header read) before the close.  (The
    stop request is the frame the vendor module packs for
    [robot_control_stop_req].) *)
Theorem stop_precedes_close keys st msg :
  packMsg 1 robot_control_stop_req (JObj []) = Some msg -> msg <> [] ->
  exists r st1 body mid st',
    (so_new ;; so_connect ;; main_loop keys) st = (r, st1) /\
    trace st1 = trace st ++ EvConnect AGV_IP CONTROL_PORT :: body /\
    every_close_reconnects body = true /\
    has_socket st1 = true /\
    agv_keyboard_control keys st = (Ret tt, st') /\
    trace st' = trace st1 ++ EvSend msg :: mid ++ [EvClose] /\
    forallb quiet mid = true /\
    (forall s, so st1 = Some s -> fst (sock_send s) = Ret tt ->
       exists mid', mid = EvSetTimeout 5 :: EvRecv 16 :: mid').
Proof.
  intros Hp Hm. unfold agv_keyboard_control.
  destruct ((so_new;; so_connect;; main_loop keys) st) as [r st1] eqn:E.
  destruct (try_body_trace _ _ E) as (body & T1 & R1 & S1).
  destruct (shutdown_run st1 S1 Hp Hm) as (st' & Sh & T').
  destruct (exchange msg st1) as [ro st2] eqn:X.
  pose proof X as X'. apply exchange_extends in X'.
  destruct X' as (mid & (T2 & _) & Hq). simpl in T'.
  exists r, st1, body, mid, st'.
  repeat split; auto.
  - rewrite T', T2, <- app_assoc. reflexivity.
  - intros s Es Hsend.
    destruct (exchange_sent msg st1 Es Hsend) as (t & Ts).
    rewrite X in Ts. simpl in Ts. rewrite T2 in Ts.
    apply app_inv_head in Ts. inv Ts. eauto.
Qed.

(** Claim C9.  When the body of a command response decodes to a JSON object
    that has no [ret_code] field, the attempt counts as a success:
    [send_control_command] returns [True] right after reading that body. *)
Theorem missing_ret_code_is_success
    api_type params retry st request_msg
    header json_data_len back_req_num st1 data st2 text fields :
  packMsg 1 api_type params = Some request_msg -> request_msg <> [] ->
  0 <= retry ->
  read_header request_msg st = (Ret header, st1) ->
  len header = 16 ->
  unpackHead header = Some (json_data_len, back_req_num) ->
  0 < json_data_len <= 10 * 1024 * 1024 ->
  so_recv json_data_len st1 = (Ret data, st2) ->
  decode_utf8 data = Some text ->
  json_loads text = Some (JObj fields) ->
  assoc "ret_code" fields = None ->
  send_control_command api_type params retry st = (Ret true, st2).
Proof.
  intros Hp Hm Hr Hh Hl Hu [Hn1 Hn2] Hb Hd Hj Ha.
  destruct (read_header_trace _ _ Hh) as (_ & K).
  destruct (K header eq_refl) as (_ & Hs).
  rewrite send_control_command_run with (msg := request_msg) by assumption.
  destruct (Z.to_nat (retry + 1)) as [|n] eqn:En; [lia|].
  simpl. unfold bind at 1. unfold iteration.
  rewrite exchange_after_header, Hh, Hl.
  change (negb (16 =? 16)) with false. cbv iota. rewrite Hu.
  assert ((json_data_len >? 10 * 1024 * 1024) = false) as -> by lia.
  assert ((json_data_len >? 0) = true) as -> by lia.
  unfold bind. rewrite Hb. unfold decode. rewrite Hd. unfold ret at 1.
  unfold loads. rewrite Hj. unfold ret at 1. unfold lift. simpl get.
  rewrite Ha. simpl. reflexivity.
Qed.

End WithExternals.
End ControlFacts.

(** ** Facts about agv_laser_get.py *)

Module LaserFacts.
Import LaserGet.

(** *** Reads from the arrival queue *)

Lemma recv_queue_chunks bufsize rest : forall chunks,
  (0 < bufsize)%nat -> List.concat chunks <> [] ->
  exists c chunks',
    recv_queue bufsize (map Data chunks ++ rest) = (Ret c, map Data chunks' ++ rest) /\
    c <> [] /\ (List.length c <= bufsize)%nat /\
    List.concat chunks = c ++ List.concat chunks'.
Proof.
  induction chunks as [|chunk chunks IH]; intros Hb Hc; [simpl in Hc; congruence|].
  destruct chunk as [|b l].
  - simpl in *. apply IH; assumption.
  - simpl map. cbn [app recv_queue].
    destruct (List.length (b :: l) <=? bufsize)%nat eqn:L.
    + apply Nat.leb_le in L. exists (b :: l), chunks.
      repeat split; auto. discriminate.
    + apply Nat.leb_gt in L.
      exists (firstn bufsize (b :: l)), (skipn bufsize (b :: l) :: chunks).
      repeat split.
      * destruct bufsize; [lia|]. simpl. discriminate.
      * rewrite length_firstn. lia.
      * simpl List.concat at 2. rewrite app_assoc, firstn_skipn. reflexivity.
Qed.

Lemma recv_queue_closed bufsize : forall chunks,
  List.concat chunks = [] -> recv_queue bufsize (map Data chunks) = (Ret [], []).
Proof.
  induction chunks as [|chunk chunks IH]; intros Hc; [reflexivity|].
  simpl in Hc. apply app_eq_nil in Hc. destruct Hc as [-> Hc].
  simpl. auto.
Qed.

(** *** [receive_full_data] *)

Lemma len_app (a b : bytes) : len (a ++ b) = len a + len b.
Proof. unfold len. rewrite length_app. lia. Qed.

Lemma recv_receiving n st chunks rest :
  receiving st chunks rest -> 0 < n -> List.concat chunks <> [] ->
  exists c chunks' st',
    recv n st = (Ret c, st') /\ receiving st' chunks' rest /\
    c <> [] /\ len c <= n /\
    List.concat chunks = c ++ List.concat chunks' /\
    trace st' = trace st ++ [EvRecv n].
Proof.
  intros [faults Hs] Hn Hc.
  destruct (@recv_queue_chunks (Z.to_nat n) rest chunks) as (c & chunks' & R & C1 & C2 & C3);
    [lia|assumption|].
  exists c, chunks'. unfold recv, bind, emit, on_sock. simpl. rewrite Hs.
  unfold sock_recv. simpl. rewrite R. eexists. split; [reflexivity|].
  split; [exists faults; reflexivity|]. unfold len. repeat split; auto. lia.
Qed.

Lemma recv_closed n st chunks :
  receiving st chunks [] -> List.concat chunks = [] ->
  exists st', recv n st = (Ret [], st') /\ trace st' = trace st ++ [EvRecv n].
Proof.
  intros [faults Hs] Hc. rewrite app_nil_r in Hs.
  unfold recv, bind, emit, on_sock. simpl. rewrite Hs.
  unfold sock_recv. simpl. rewrite (recv_queue_closed _ _ Hc).
  eexists. split; reflexivity.
Qed.

(** The loop gathers exactly [remaining] bytes when the peer delivers at
    least that many, however they are cut into segments. *)
Lemma receive_loop_accumulates rest : forall fuel received remaining st chunks,
  receiving st chunks rest ->
  0 <= remaining <= len (List.concat chunks) ->
  (Z.to_nat remaining <= fuel)%nat ->
  exists st' chunks' t,
    receive_loop fuel received remaining st =
      (Ret (Some (received ++ firstn (Z.to_nat remaining) (List.concat chunks))), st') /\
    receiving st' chunks' rest /\
    List.concat chunks' = skipn (Z.to_nat remaining) (List.concat chunks) /\
    trace st' = trace st ++ t /\ forallb is_recv t = true.
Proof.
  induction fuel as [|fuel IH]; intros received remaining st chunks Hs Hr Hf.
  - assert (remaining = 0) as -> by lia. simpl. unfold ret.
    exists st, chunks, []. rewrite !app_nil_r. auto.
  - cbn [receive_loop]. destruct (remaining >? 0) eqn:G.
    + apply Z.gtb_lt in G.
      assert (Hc : List.concat chunks <> []).
      { intros E. rewrite E in Hr. unfold len in Hr. simpl in Hr. lia. }
      destruct (recv_receiving (n := Z.min remaining 8192) Hs) as
        (c & chunks' & st1 & R & Hs1 & C1 & C2 & C3 & T1); [lia|assumption|].
      unfold bind. rewrite R.
      destruct c as [|b c]; [congruence|]. set (chunk := b :: c) in *.
      assert (Hpos : 0 < len chunk) by (unfold len, chunk; simpl; lia).
      rewrite C3, len_app in Hr.
      destruct (IH (received ++ chunk) (remaining - len chunk) st1 chunks' Hs1)
        as (st' & chunks'' & t & L & Hs' & C' & T' & Q'); [lia|lia|].
      exists st', chunks'', (EvRecv (Z.min remaining 8192) :: t).
      rewrite L. split.
      * f_equal. f_equal. f_equal. rewrite <- app_assoc. f_equal.
        rewrite C3, firstn_app.
        assert (Hl : (List.length chunk <= Z.to_nat remaining)%nat)
          by (unfold len in *; lia).
        rewrite (firstn_all2 chunk Hl). f_equal. f_equal.
        unfold len. lia.
      * split; [exact Hs'|]. split.
        -- rewrite C', C3, skipn_app.
           assert (Hl : (List.length chunk <= Z.to_nat remaining)%nat)
             by (unfold len in *; lia).
           rewrite (skipn_all2 chunk Hl), app_nil_l. f_equal. unfold len. lia.
        -- rewrite T', T1, <- app_assoc. simpl. auto.
    + assert (remaining = 0) as -> by lia. unfold ret.
      exists st, chunks, []. rewrite !app_nil_r. auto.
Qed.

(** The loop returns [None] when the peer closes before [remaining] bytes
    have arrived. *)
Lemma receive_loop_closed : forall fuel received remaining st chunks,
  receiving st chunks [] ->
  len (List.concat chunks) < remaining ->
  (Z.to_nat remaining <= fuel)%nat ->
  exists st' t,
    receive_loop fuel received remaining st = (Ret None, st') /\
    trace st' = trace st ++ t /\ forallb is_recv t = true.
Proof.
  induction fuel as [|fuel IH]; intros received remaining st chunks Hs Hr Hf.
  - unfold len in Hr. lia.
  - cbn [receive_loop].
    assert (G : (remaining >? 0) = true) by (unfold len in Hr; lia).
    rewrite G. unfold bind.
    destruct (List.concat chunks) as [|b l] eqn:Hc.
    + destruct (recv_closed (Z.min remaining 8192) Hs Hc) as (st1 & R & T1).
      rewrite R. unfold ret. exists st1. eexists. split; [reflexivity|].
      split; [exact T1|reflexivity].
    + destruct (recv_receiving (n := Z.min remaining 8192) Hs) as
        (c & chunks' & st1 & R & Hs1 & C1 & C2 & C3 & T1);
        [unfold len in Hr; lia|rewrite Hc; discriminate|].
      rewrite R. destruct c as [|b' c]; [congruence|]. set (chunk := b' :: c) in *.
      assert (Hpos : 0 < len chunk) by (unfold len, chunk; simpl; lia).
      rewrite <- Hc, C3, len_app in Hr.
      destruct (IH (received ++ chunk) (remaining - len chunk) st1 chunks' Hs1)
        as (st' & t & L & T' & Q'); [lia|lia|].
      exists st', (EvRecv (Z.min remaining 8192) :: t). rewrite L.
      split; [reflexivity|]. rewrite T', T1, <- app_assoc. simpl. auto.
Qed.

(** The recursion depth given to the loop is enough: any two depths of at
    least [remaining] give the same run, so the loop of the model never stops
    for lack of depth. *)
Lemma receive_loop_fuel : forall fuel1 fuel2 received remaining st,
  (Z.to_nat remaining <= fuel1)%nat -> (Z.to_nat remaining <= fuel2)%nat ->
  receive_loop fuel1 received remaining st =
  receive_loop fuel2 received remaining st.
Proof.
  induction fuel1 as [|fuel1 IH]; intros fuel2 received remaining st H1 H2.
  - assert (G : (remaining >? 0) = false) by lia.
    destruct fuel2; simpl; rewrite G; reflexivity.
  - destruct fuel2 as [|fuel2].
    + assert (G : (remaining >? 0) = false) by lia.
      simpl; rewrite G; reflexivity.
    + cbn [receive_loop]. destruct (remaining >? 0); [|reflexivity].
      unfold bind. destruct (recv (Z.min remaining 8192) st) as [[chunk|e] st1];
        [|reflexivity].
      destruct chunk as [|b c]; [reflexivity|].
      assert (Hl : 0 < len (b :: c)) by (unfold len; simpl; lia).
      apply IH; lia.
Qed.

(** Claim C10.  Whatever the socket does, [receive_full_data] raises what
    [recv] raised, returns [None], or returns a byte string of exactly the
    expected length; with an expected length of zero it returns the empty
    byte string and leaves the socket and the trace untouched.  The loop of
    the model is given enough depth: any larger depth gives the same run. *)
Theorem receive_full_data_exact expected_len st :
  ((exists e, fst (receive_full_data expected_len st) = Raise e) \/
   fst (receive_full_data expected_len st) = Ret None \/
   exists received,
     fst (receive_full_data expected_len st) = Ret (Some received) /\
     len received = expected_len) /\
  receive_full_data 0 st = (Ret (Some []), st) /\
  (forall fuel, (Z.to_nat expected_len <= fuel)%nat ->
     receive_loop fuel [] expected_len st =
     receive_loop (Z.to_nat expected_len) [] expected_len st).
Proof.
  split; [|split].
  - unfold receive_full_data, bind.
    destruct (receive_loop (Z.to_nat expected_len) [] expected_len st)
      as [[[received|]|e] st1]; simpl.
    + destruct (len received =? expected_len) eqn:E; simpl.
      * right. right. exists received. split; [reflexivity|lia].
      * right. left. reflexivity.
    + right. left. reflexivity.
    + left. exists e. reflexivity.
  - reflexivity.
  - intros fuel Hf. apply receive_loop_fuel; lia.
Qed.

Lemma receive_full_data_accumulates rest expected_len st chunks :
  receiving st chunks rest ->
  0 <= expected_len <= len (List.concat chunks) ->
  exists st' chunks' t,
    receive_full_data expected_len st =
      (Ret (Some (firstn (Z.to_nat expected_len) (List.concat chunks))), st') /\
    receiving st' chunks' rest /\
    List.concat chunks' = skipn (Z.to_nat expected_len) (List.concat chunks) /\
    trace st' = trace st ++ t /\ forallb is_recv t = true.
Proof.
  intros Hs Hr.
  destruct (@receive_loop_accumulates rest (Z.to_nat expected_len) [] expected_len
              st chunks Hs Hr (Nat.le_refl _))
    as (st' & chunks' & t & L & Hs' & C & T & Q).
  exists st', chunks', t. unfold receive_full_data, bind. rewrite L.
  simpl app.
  assert (E : len (firstn (Z.to_nat expected_len) (List.concat chunks))
              = expected_len).
  { unfold len in *. rewrite length_firstn. lia. }
  rewrite !app_nil_l, E, Z.eqb_refl. simpl. auto.
Qed.

Lemma receive_full_data_closed expected_len st chunks :
  receiving st chunks [] ->
  len (List.concat chunks) < expected_len ->
  exists st' t,
    receive_full_data expected_len st = (Ret None, st') /\
    trace st' = trace st ++ t /\ forallb is_recv t = true.
Proof.
  intros Hs Hr.
  destruct (@receive_loop_closed (Z.to_nat expected_len) [] expected_len
              st chunks Hs Hr (Nat.le_refl _)) as (st' & t & L & T & Q).
  exists st', t. unfold receive_full_data, bind. rewrite L. auto.
Qed.

(** *** The request and the header *)

Section WithExternals.
Context {ext : Externals}.
Variable cfg : config.

Lemma request_header_trace request st header st1 :
  request_header request st = (Ret header, st1) ->
  trace st1 = trace st ++ [EvSend request; EvRecv 16].
Proof.
  unfold request_header, send, recv, bind, emit, on_sock. simpl.
  destruct (sock st) as [s|]; [|discriminate].
  destruct (sock_send s) as [[[]|e] s1]; [|discriminate]. simpl.
  destruct (sock_recv 16 s1) as [r s2]. intros H; inv H. simpl.
  rewrite <- app_assoc. reflexivity.
Qed.

Lemma acquire_after_header st :
  acquire cfg st =
  match packMsg 1 robot_status_laser_req (req_params cfg) with
  | None | Some [] => (Ret None, st)
  | Some request =>
      match request_header request st with
      | (Ret header, st1) =>
          (if negb (len header =? 16) then ret None
           else
             match unpackHead header with
             | None => ret None
             | Some (json_data_len, resp_type) =>
                 if json_data_len >? MAX_DATA_LEN then ret None
                 else if json_data_len <? 0 then ret None
                 else if negb (resp_type =? ROBOT_STATUS_LASER_RESP) then ret None
                 else
                   resp_data <- receive_full_data json_data_len ;;
                   match resp_data with
                   | None | Some [] => ret None
                   | Some data =>
                       laser_json <- parse_body data ;;
                       match laser_json with
                       | None => ret None
                       | Some v => lift (extract_beams cfg v)
                       end
                   end
             end) st1
      | (Raise e, st1) => (Raise e, st1)
      end
  end.
Proof.
  unfold acquire, request_header.
  destruct (packMsg 1 robot_status_laser_req (req_params cfg)) as [[|b m]|];
    try reflexivity.
  unfold bind. destruct (send (b :: m) st) as [[[]|e] st1]; [|reflexivity].
  destruct (recv 16 st1) as [[header|e] st2]; reflexivity.
Qed.

Lemma get_laser_run st st0 :
  validate_configuration cfg = true -> validate_laser_params cfg = true ->
  connect_to_agv cfg st = (Ret true, st0) ->
  get_laser_from_agv cfg st =
  (match fst (acquire cfg st0) with Ret v => Ret v | Raise _ => Ret None end,
   snd (close (snd (acquire cfg st0)))).
Proof.
  intros V1 V2 C. unfold get_laser_from_agv. rewrite V1, V2, C. simpl.
  destruct (acquire cfg st0) as [r st2]. simpl.
  destruct (close st2) as [u st3]. reflexivity.
Qed.

Lemma close_trace st : trace (snd (close st)) = trace st ++ [EvClose].
Proof.
  unfold close, bind, emit, on_sock. simpl.
  destruct (sock st); reflexivity.
Qed.

(** A header that declares more than [MAX_DATA_LEN] bytes ends the
    acquisition after the header read; the socket is then closed. *)
Lemma oversize_header_returns_none
    st st0 request header json_data_len resp_type st1 :
  validate_configuration cfg = true -> validate_laser_params cfg = true ->
  connect_to_agv cfg st = (Ret true, st0) ->
  packMsg 1 robot_status_laser_req (req_params cfg) = Some request ->
  request <> [] ->
  request_header request st0 = (Ret header, st1) ->
  len header = 16 ->
  unpackHead header = Some (json_data_len, resp_type) ->
  json_data_len > MAX_DATA_LEN ->
  exists st2,
    get_laser_from_agv cfg st = (Ret None, st2) /\
    trace st2 = trace st0 ++ [EvSend request; EvRecv 16; EvClose].
Proof.
  intros V1 V2 C Hp Hm Hh Hl Hu Hn.
  rewrite get_laser_run with (st0 := st0) by assumption.
  rewrite acquire_after_header, Hp.
  destruct request as [|b m]; [congruence|]. rewrite Hh, Hl.
  change (negb (16 =? 16)) with false. cbv iota. rewrite Hu.
  assert ((json_data_len >? MAX_DATA_LEN) = true) as -> by lia.
  unfold ret. simpl. eexists. split; [reflexivity|].
  rewrite close_trace, (request_header_trace _ _ Hh), <- app_assoc. reflexivity.
Qed.

(** A header read that does not give 16 bytes ends the acquisition. *)
Lemma short_header_returns_none st request header st1 :
  packMsg 1 robot_status_laser_req (req_params cfg) = Some request ->
  request <> [] ->
  request_header request st = (Ret header, st1) ->
  len header <> 16 ->
  acquire cfg st = (Ret None, st1) /\
  trace st1 = trace st ++ [EvSend request; EvRecv 16].
Proof.
  intros Hp Hm Hh Hl. rewrite acquire_after_header, Hp.
  destruct request as [|b m]; [congruence|]. rewrite Hh.
  assert ((len header =? 16) = false) as -> by lia.
  split; [reflexivity|]. apply (request_header_trace _ _ Hh).
Qed.

(** When the body read gives [None] (the peer closed before the declared
    length arrived), the acquisition ends with [None]. *)
Lemma partial_body_returns_none
    st request header json_data_len st1 st2 :
  packMsg 1 robot_status_laser_req (req_params cfg) = Some request ->
  request <> [] ->
  request_header request st = (Ret header, st1) ->
  len header = 16 ->
  unpackHead header = Some (json_data_len, ROBOT_STATUS_LASER_RESP) ->
  0 <= json_data_len <= MAX_DATA_LEN ->
  receive_full_data json_data_len st1 = (Ret None, st2) ->
  acquire cfg st = (Ret None, st2).
Proof.
  intros Hp Hm Hh Hl Hu Hn Hb. rewrite acquire_after_header, Hp.
  destruct request as [|b m]; [congruence|]. rewrite Hh, Hl.
  change (negb (16 =? 16)) with false. cbv iota. rewrite Hu.
  assert ((json_data_len >? MAX_DATA_LEN) = false) as -> by lia.
  assert ((json_data_len <? 0) = false) as -> by lia.
  rewrite Z.eqb_refl. change (negb true) with false. cbv iota.
  unfold bind. rewrite Hb. reflexivity.
Qed.

End WithExternals.

(** *** The beam filter *)

Section Filter.
Variable cfg : config.

Lemma select_beam_spec v b :
  beam_of_json v = Some b ->
  select_beam cfg v = Ret (option_map point_json (spec_keep (LASER_RANGE_MIN cfg) (LASER_RANGE_MAX cfg) b)).
Proof.
  destruct v as [| | | | |fields]; try discriminate.
  unfold beam_of_json, number_field, bool_field, select_beam, spec_keep.
  simpl contains. simpl get. simpl getitem. unfold rbind.
  destruct (assoc "angle" fields) as [a|];
    destruct (assoc "dist" fields) as [[| |d| | |]|]; try discriminate;
    destruct (assoc "valid" fields) as [[|[]| | | |]|]; try discriminate;
    intros H; inv H; cbn -[num_le]; try reflexivity.
  destruct (num_le (Fin (LASER_RANGE_MIN cfg)) d && num_le d (Fin (LASER_RANGE_MAX cfg))); reflexivity.
Qed.

Lemma scan_beams_spec : forall items beams valid_beams,
  beams_of_json items = Some beams ->
  scan_beams cfg items valid_beams =
  Ret (valid_beams ++ map point_json (spec_filter (LASER_RANGE_MIN cfg) (LASER_RANGE_MAX cfg) beams)).
Proof.
  induction items as [|v items IH]; intros beams valid_beams H.
  - inv H. simpl. rewrite app_nil_r. reflexivity.
  - simpl in H. destruct (beam_of_json v) as [b|] eqn:Eb; [|discriminate].
    destruct (beams_of_json items) as [bs|] eqn:Ebs; [|discriminate].
    inv H. cbn [scan_beams]. rewrite (select_beam_spec _ Eb). simpl.
    destruct (spec_keep (LASER_RANGE_MIN cfg) (LASER_RANGE_MAX cfg) b) as [p|]; simpl.
    + rewrite (IH bs) by reflexivity. rewrite <- app_assoc. reflexivity.
    + apply IH. reflexivity.
Qed.

Lemma scan_lasers_spec : forall groups beams valid_beams,
  payload_of_json groups = Some beams ->
  scan_lasers cfg groups valid_beams =
  Ret (valid_beams ++ map point_json (spec_filter (LASER_RANGE_MIN cfg) (LASER_RANGE_MAX cfg) beams)).
Proof.
  assert (filter_app : forall xs ys,
            spec_filter (LASER_RANGE_MIN cfg) (LASER_RANGE_MAX cfg) (xs ++ ys) =
            spec_filter (LASER_RANGE_MIN cfg) (LASER_RANGE_MAX cfg) xs ++ spec_filter (LASER_RANGE_MIN cfg) (LASER_RANGE_MAX cfg) ys).
  { induction xs as [|x xs IHx]; intros ys; [reflexivity|].
    simpl. destruct (spec_keep (LASER_RANGE_MIN cfg) (LASER_RANGE_MAX cfg) x); rewrite IHx; reflexivity. }
  induction groups as [|g groups IH]; intros beams valid_beams H.
  - inv H. simpl. rewrite app_nil_r. reflexivity.
  - simpl in H. destruct (group_of_json g) as [bs|] eqn:Eg; [|discriminate].
    destruct (payload_of_json groups) as [cs|] eqn:Ec; [|discriminate].
    inv H. cbn [scan_lasers].
    destruct g as [| | | | |fields]; try discriminate.
    simpl in Eg. simpl get.
    destruct (assoc "beams" fields) as [[| | | |items|]|]; try discriminate; simpl.
    + rewrite (scan_beams_spec _ _ Eg). simpl.
      rewrite (IH cs) by reflexivity.
      rewrite filter_app, map_app, app_assoc. reflexivity.
    + inv Eg. simpl. apply IH. reflexivity.
Qed.

Lemma claimed_keep_spec rangeMin rangeMax v b :
  beam_of_json v = Some b ->
  claimed_keep rangeMin rangeMax v =
  option_map point_json (spec_keep rangeMin rangeMax b).
Proof.
  destruct v as [| | | | |fields]; try discriminate.
  unfold beam_of_json, number_field, bool_field, claimed_keep, spec_keep.
  destruct (assoc "angle" fields) as [a|];
    destruct (assoc "dist" fields) as [[| |d| | |]|]; try discriminate;
    destruct (assoc "valid" fields) as [[|[]| | | |]|]; try discriminate;
    intros H; inv H; cbn -[num_le]; try reflexivity.
  destruct (num_le (Fin rangeMin) d && num_le d (Fin rangeMax)); reflexivity.
Qed.

Lemma claimed_points_spec rangeMin rangeMax : forall items beams,
  beams_of_json items = Some beams ->
  claimed_points rangeMin rangeMax items =
  map point_json (spec_filter rangeMin rangeMax beams).
Proof.
  induction items as [|v items IH]; intros beams H.
  - inv H. reflexivity.
  - simpl in H. destruct (beam_of_json v) as [b|] eqn:Eb; [|discriminate].
    destruct (beams_of_json items) as [bs|] eqn:Ebs; [|discriminate].
    inv H. simpl. rewrite (claimed_keep_spec rangeMin rangeMax _ Eb).
    destruct (spec_keep rangeMin rangeMax b) as [p|]; simpl;
      rewrite (IH bs) by reflexivity; reflexivity.
Qed.

Lemma beams_of_json_app : forall xs ys bs cs,
  beams_of_json xs = Some bs -> beams_of_json ys = Some cs ->
  beams_of_json (xs ++ ys) = Some (bs ++ cs).
Proof.
  induction xs as [|x xs IH]; intros ys bs cs Hx Hy.
  - inv Hx. exact Hy.
  - simpl in Hx. destruct (beam_of_json x) as [b|] eqn:Eb; [|discriminate].
    destruct (beams_of_json xs) as [bs'|] eqn:Ebs; [|discriminate].
    inv Hx. simpl. rewrite Eb, (IH ys bs' cs) by auto. reflexivity.
Qed.

Lemma claimed_beams_typed : forall groups beams,
  payload_of_json groups = Some beams ->
  beams_of_json (flat_map claimed_beams groups) = Some beams.
Proof.
  induction groups as [|g groups IH]; intros beams H.
  - inv H. reflexivity.
  - simpl in H. destruct (group_of_json g) as [bs|] eqn:Eg; [|discriminate].
    destruct (payload_of_json groups) as [cs|] eqn:Ec; [|discriminate].
    inv H. simpl. apply beams_of_json_app; [|apply IH; reflexivity].
    destruct g as [| | | | |fields]; try discriminate.
    simpl in Eg. simpl.
    destruct (assoc "beams" fields) as [[| | | |items|]|]; try discriminate.
    + exact Eg.
    + exact Eg.
Qed.

(** Claim C6, amended.  For a payload typed as the interface section says
    (each group an object whose [beams], where present, is a list of
    objects; in a beam [dist], where present, is a number and [valid], where
    present, a boolean), the two loops of [get_laser_from_agv] collect
    exactly the points of the beams that carry an angle and a distance, are
    flagged valid and lie within [[LASER_RANGE_MIN, LASER_RANGE_MAX]], in
    source order; the function's result is that list, or [None] when it is
    empty.  On such a payload the filter read on the decoded payload itself
    ([claimed_filter]) gives the same points. *)
Theorem filter_matches_specification groups beams :
  payload_of_json groups = Some beams ->
  scan_lasers cfg groups [] =
    Ret (map point_json
           (spec_filter (LASER_RANGE_MIN cfg) (LASER_RANGE_MAX cfg) beams)) /\
  (forall fields,
     assoc "lasers" fields = Some (JArr groups) ->
     extract_beams cfg (JObj fields) =
       Ret (match spec_filter (LASER_RANGE_MIN cfg) (LASER_RANGE_MAX cfg) beams with
            | [] => None
            | points => Some (map point_json points)
            end)) /\
  claimed_filter (LASER_RANGE_MIN cfg) (LASER_RANGE_MAX cfg) groups =
    map point_json
        (spec_filter (LASER_RANGE_MIN cfg) (LASER_RANGE_MAX cfg) beams).
Proof.
  intros H.
  assert (L : scan_lasers cfg groups [] =
              Ret (map point_json (spec_filter (LASER_RANGE_MIN cfg) (LASER_RANGE_MAX cfg) beams))).
  { rewrite scan_lasers_spec with (beams := beams) by exact H. reflexivity. }
  split; [exact L|]. split.
  - intros fields Hf. unfold extract_beams. simpl get. rewrite Hf. simpl rbind.
    destruct groups as [|g groups].
    + inv H. reflexivity.
    + rewrite L. simpl rbind.
      destruct (spec_filter (LASER_RANGE_MIN cfg) (LASER_RANGE_MAX cfg) beams); reflexivity.
  - unfold claimed_filter. apply claimed_points_spec, claimed_beams_typed, H.
Qed.

Lemma extract_beams_not_empty laser_json points :
  extract_beams cfg laser_json = Ret (Some points) -> points <> [].
Proof.
  unfold extract_beams, rbind.
  destruct (get laser_json "lasers" (JArr [])) as [[| | | |groups|]|e];
    try discriminate.
  destruct groups as [|g groups]; [discriminate|].
  destruct (scan_lasers cfg (g :: groups) []) as [[|p ps]|e]; try discriminate.
  intros H; inv H. discriminate.
Qed.

End Filter.

(** *** What the caller gets *)

Section Results.
Context {ext : Externals}.
Variable cfg : config.

Lemma acquire_not_empty st points st' :
  acquire cfg st = (Ret (Some points), st') -> points <> [].
Proof.
  rewrite acquire_after_header.
  destruct (packMsg 1 robot_status_laser_req (req_params cfg)) as [[|b m]|];
    try discriminate.
  destruct (request_header (b :: m) st) as [[header|e] st1]; [|discriminate].
  destruct (negb (len header =? 16)); [discriminate|].
  destruct (unpackHead header) as [[json_data_len resp_type]|]; [|discriminate].
  destruct (json_data_len >? MAX_DATA_LEN); [discriminate|].
  destruct (json_data_len <? 0); [discriminate|].
  destruct (negb (resp_type =? ROBOT_STATUS_LASER_RESP)); [discriminate|].
  unfold bind.
  destruct (receive_full_data json_data_len st1) as [[[[|d data]|]|e] st2];
    try discriminate.
  unfold parse_body.
  destruct (decode_utf8 (d :: data)) as [text|]; [|discriminate].
  destruct (json_loads text) as [v|]; [|discriminate].
  unfold ret, lift. intros H. inv H.
  eapply extract_beams_not_empty; eauto.
Qed.

Lemma rejected_header_returns_none st request header st1 :
  packMsg 1 robot_status_laser_req (req_params cfg) = Some request ->
  request <> [] ->
  request_header request st = (Ret header, st1) ->
  header_rejected header = true ->
  acquire cfg st = (Ret None, st1).
Proof.
  intros Hp Hm Hh Hr. rewrite acquire_after_header, Hp.
  destruct request as [|b m]; [congruence|]. rewrite Hh.
  unfold header_rejected in Hr.
  destruct (negb (len header =? 16)); [reflexivity|].
  simpl in Hr.
  destruct (unpackHead header) as [[json_data_len resp_type]|]; [|reflexivity].
  destruct (json_data_len >? MAX_DATA_LEN); [reflexivity|].
  destruct (json_data_len <? 0); [reflexivity|].
  destruct (negb (resp_type =? ROBOT_STATUS_LASER_RESP)); [reflexivity|].
  discriminate.
Qed.

Lemma acquire_extracts
    st request header json_data_len st1 data st2 text v :
  packMsg 1 robot_status_laser_req (req_params cfg) = Some request ->
  request <> [] ->
  request_header request st = (Ret header, st1) ->
  len header = 16 ->
  unpackHead header = Some (json_data_len, ROBOT_STATUS_LASER_RESP) ->
  0 <= json_data_len <= MAX_DATA_LEN ->
  receive_full_data json_data_len st1 = (Ret (Some data), st2) ->
  data <> [] ->
  decode_utf8 data = Some text ->
  json_loads text = Some v ->
  acquire cfg st = (extract_beams cfg v, st2).
Proof.
  intros Hp Hm Hh Hl Hu Hn Hb Hd Ht Hj. rewrite acquire_after_header, Hp.
  destruct request as [|b m]; [congruence|]. rewrite Hh, Hl.
  change (negb (16 =? 16)) with false. cbv iota. rewrite Hu.
  assert ((json_data_len >? MAX_DATA_LEN) = false) as -> by lia.
  assert ((json_data_len <? 0) = false) as -> by lia.
  rewrite Z.eqb_refl. change (negb true) with false. cbv iota.
  unfold bind. rewrite Hb. destruct data as [|d data]; [congruence|].
  unfold parse_body. rewrite Ht, Hj. reflexivity.
Qed.

(** Claim C7, amended.  When the [lasers] list is absent or empty, or when
    the filter keeps no beam, the extraction gives [None] and not an empty
    sequence: [get_laser_from_agv] never returns an empty list, and once the
    connection is made its result for such a payload is [None].  Once the
    connection is made, [None] is also the result when the acquisition
    raises (a timeout or another socket error), when the response header is
    not accepted (short, unparsable, too long, negative, or of another
    response type) and when the peer closes before the whole body arrived:
    the result does not tell the no-data case from these errors. *)
Theorem no_valid_data_is_none :
  (forall fields,
     assoc "lasers" fields = None \/ assoc "lasers" fields = Some (JArr []) ->
     extract_beams cfg (JObj fields) = Ret None) /\
  (forall fields groups,
     assoc "lasers" fields = Some (JArr groups) ->
     scan_lasers cfg groups [] = Ret [] ->
     extract_beams cfg (JObj fields) = Ret None) /\
  (forall st points,
     fst (get_laser_from_agv cfg st) = Ret (Some points) -> points <> []) /\
  (forall st st0 request header json_data_len st1 data st2 text v,
     validate_configuration cfg = true -> validate_laser_params cfg = true ->
     connect_to_agv cfg st = (Ret true, st0) ->
     packMsg 1 robot_status_laser_req (req_params cfg) = Some request ->
     request <> [] ->
     request_header request st0 = (Ret header, st1) ->
     len header = 16 ->
     unpackHead header = Some (json_data_len, ROBOT_STATUS_LASER_RESP) ->
     0 <= json_data_len <= MAX_DATA_LEN ->
     receive_full_data json_data_len st1 = (Ret (Some data), st2) ->
     data <> [] ->
     decode_utf8 data = Some text ->
     json_loads text = Some v ->
     extract_beams cfg v = Ret None ->
     fst (get_laser_from_agv cfg st) = Ret None) /\
  (forall st st0 e,
     validate_configuration cfg = true -> validate_laser_params cfg = true ->
     connect_to_agv cfg st = (Ret true, st0) ->
     fst (acquire cfg st0) = Raise e ->
     fst (get_laser_from_agv cfg st) = Ret None) /\
  (forall st st0 request header st1,
     validate_configuration cfg = true -> validate_laser_params cfg = true ->
     connect_to_agv cfg st = (Ret true, st0) ->
     packMsg 1 robot_status_laser_req (req_params cfg) = Some request ->
     request <> [] ->
     request_header request st0 = (Ret header, st1) ->
     header_rejected header = true ->
     fst (get_laser_from_agv cfg st) = Ret None) /\
  (forall st st0 request header json_data_len st1 st2,
     validate_configuration cfg = true -> validate_laser_params cfg = true ->
     connect_to_agv cfg st = (Ret true, st0) ->
     packMsg 1 robot_status_laser_req (req_params cfg) = Some request ->
     request <> [] ->
     request_header request st0 = (Ret header, st1) ->
     len header = 16 ->
     unpackHead header = Some (json_data_len, ROBOT_STATUS_LASER_RESP) ->
     0 <= json_data_len <= MAX_DATA_LEN ->
     receive_full_data json_data_len st1 = (Ret None, st2) ->
     fst (get_laser_from_agv cfg st) = Ret None).
Proof.
  split; [|split; [|split; [|split; [|split; [|split]]]]].
  - intros fields [H|H]; unfold extract_beams; simpl get; rewrite H; reflexivity.
  - intros fields groups H L. unfold extract_beams. simpl get. rewrite H.
    simpl rbind. destruct groups; [reflexivity|]. rewrite L. reflexivity.
  - intros st points. unfold get_laser_from_agv.
    destruct (negb (validate_configuration cfg) || negb (validate_laser_params cfg));
      [discriminate|].
    destruct (connect_to_agv cfg st) as [[[]|e] st0]; try discriminate.
    destruct (acquire cfg st0) as [[v|e] st2] eqn:A;
      destruct (close st2) as [u st3]; simpl; [|discriminate].
    intros H. inv H. eapply acquire_not_empty; eauto.
  - intros st st0 request header json_data_len st1 data st2 text v
      V1 V2 C Hp Hm Hh Hl Hu Hn Hb Hd Ht Hj Hx.
    rewrite get_laser_run with (st0 := st0) by assumption.
    rewrite acquire_extracts with (request := request) (header := header)
      (json_data_len := json_data_len) (st1 := st1) (data := data) (st2 := st2)
      (text := text) (v := v) by assumption.
    simpl. rewrite Hx. reflexivity.
  - intros st st0 e V1 V2 C A.
    rewrite get_laser_run with (st0 := st0) by assumption.
    simpl. rewrite A. reflexivity.
  - intros st st0 request header st1 V1 V2 C Hp Hm Hh Hr.
    rewrite get_laser_run with (st0 := st0) by assumption.
    rewrite rejected_header_returns_none with (request := request)
      (header := header) (st1 := st1) by assumption.
    reflexivity.
  - intros st st0 request header json_data_len st1 st2 V1 V2 C Hp Hm Hh Hl Hu Hn Hb.
    rewrite get_laser_run with (st0 := st0) by assumption.
    rewrite partial_body_returns_none with (request := request)
      (header := header) (json_data_len := json_data_len) (st1 := st1) (st2 := st2)
      by assumption.
    reflexivity.
Qed.

End Results.

End LaserFacts.

(** ** Framing: what both clients do with the header and the body *)

Module Framing.
Section WithExternals.
Context {ext : Externals}.

(** Claim C2, amended.  A header that declares more than 10 MiB is never
    followed by a body read.  In [send_control_command] the attempt ends
    after the header read and the loop goes on at once to the next attempt
    (the failure is retried, without the 0.5 s wait); in
    [get_laser_from_agv] the socket is closed and the result is [None]. *)
Theorem oversize_payload_is_not_read :
  (forall i retry msg st header json_data_len back_req_num st1,
     Control.read_header msg st = (Ret header, st1) ->
     Control.len header = 16 ->
     unpackHead header = Some (json_data_len, back_req_num) ->
     json_data_len > 10 * 1024 * 1024 ->
     Control.iteration i retry msg st = (Ret None, st1) /\
     Control.trace st1 =
       Control.trace st ++ [EvSend msg; EvSetTimeout 5; EvRecv 16]) /\
  (forall cfg st st0 request header json_data_len resp_type st1,
     LaserGet.validate_configuration cfg = true ->
     LaserGet.validate_laser_params cfg = true ->
     LaserGet.connect_to_agv cfg st = (Ret true, st0) ->
     packMsg 1 robot_status_laser_req (LaserGet.req_params cfg) = Some request ->
     request <> [] ->
     LaserGet.request_header request st0 = (Ret header, st1) ->
     LaserGet.len header = 16 ->
     unpackHead header = Some (json_data_len, resp_type) ->
     json_data_len > LaserGet.MAX_DATA_LEN ->
     exists st2,
       LaserGet.get_laser_from_agv cfg st = (Ret None, st2) /\
       LaserGet.trace st2 =
         LaserGet.trace st0 ++ [EvSend request; EvRecv 16; EvClose]).
Proof.
  split.
  - intros i retry msg st header n k st1 Hh Hl Hu Hn.
    destruct (ControlFacts.oversize_header_skips_body i retry _ _ Hh Hl Hu Hn)
      as (_ & I & T).
    auto.
  - intros cfg st st0 request header n ty st1 V1 V2 C Hp Hm Hh Hl Hu Hn.
    eapply LaserFacts.oversize_header_returns_none; eauto.
Qed.

(** Claim C5, amended.  The header is read with one [recv(16)]; when that
    read gives other than 16 bytes the exchange does not go on with it
    ([get_laser_from_agv] ends with [None], [send_control_command] ends the
    attempt).  The laser client reads the body with [receive_full_data],
    which loops over reads of whatever sizes the transport delivers until
    exactly the declared number of bytes is gathered, and gives [None] when
    the peer closes first; the acquisition then ends with [None]. *)
Theorem framed_reads :
  (forall expected_len st chunks rest,
     LaserGet.receiving st chunks rest ->
     0 <= expected_len <= LaserGet.len (List.concat chunks) ->
     exists st',
       LaserGet.receive_full_data expected_len st =
       (Ret (Some (firstn (Z.to_nat expected_len) (List.concat chunks))), st')) /\
  (forall expected_len st chunks,
     LaserGet.receiving st chunks [] ->
     LaserGet.len (List.concat chunks) < expected_len ->
     exists st', LaserGet.receive_full_data expected_len st = (Ret None, st')) /\
  (forall cfg st request header json_data_len st1 st2,
     packMsg 1 robot_status_laser_req (LaserGet.req_params cfg) = Some request ->
     request <> [] ->
     LaserGet.request_header request st = (Ret header, st1) ->
     LaserGet.len header = 16 ->
     unpackHead header = Some (json_data_len, LaserGet.ROBOT_STATUS_LASER_RESP) ->
     0 <= json_data_len <= LaserGet.MAX_DATA_LEN ->
     LaserGet.receive_full_data json_data_len st1 = (Ret None, st2) ->
     LaserGet.acquire cfg st = (Ret None, st2)) /\
  (forall cfg st request header st1,
     packMsg 1 robot_status_laser_req (LaserGet.req_params cfg) = Some request ->
     request <> [] ->
     LaserGet.request_header request st = (Ret header, st1) ->
     LaserGet.len header <> 16 ->
     LaserGet.acquire cfg st = (Ret None, st1) /\
     LaserGet.trace st1 = LaserGet.trace st ++ [EvSend request; EvRecv 16]) /\
  (forall msg st header st1,
     Control.read_header msg st = (Ret header, st1) ->
     Control.len header <> 16 ->
     Control.exchange msg st = (Ret Control.Continued, st1) /\
     Control.trace st1 =
       Control.trace st ++ [EvSend msg; EvSetTimeout 5; EvRecv 16]).
Proof.
  repeat match goal with |- _ /\ _ => split end.
  - intros n st chunks rest Hs Hr.
    destruct (LaserFacts.receive_full_data_accumulates Hs Hr)
      as (st' & _ & _ & L & _).
    exists st'. exact L.
  - intros n st chunks Hs Hr.
    destruct (LaserFacts.receive_full_data_closed Hs Hr) as (st' & _ & L & _).
    exists st'. exact L.
  - intros. eapply LaserFacts.partial_body_returns_none; eauto.
  - intros. eapply LaserFacts.short_header_returns_none; eauto.
  - intros msg st header st1 Hh Hl.
    destruct (ControlFacts.short_header_skips_body 0 0 _ _ Hh Hl) as (E & _ & T).
    auto.
Qed.

End WithExternals.
End Framing.

(** ** The scripts run against the concrete device *)

Module Scenarios.
Import Fixture.
#[local] Existing Instance device.

(** *** agv_control.py *)

(** The command-success scenario of the specification: one send, the
    answer [{"ret_code":0}], result [True]. *)
Example command_accepted :
  let st := control_on (reply 12000 text_ok) in
  fst (Control.send_control_command 2000 (JObj []) 1 st) = Ret true /\
  Control.trace (snd (Control.send_control_command 2000 (JObj []) 1 st)) =
    [EvSend stop_msg; EvSetTimeout 5; EvRecv 16; EvRecv 14].
Proof. vm_compute. split; reflexivity. Qed.



(** Claim C2 fails on the code for the control client: a header that
    declares 11 MiB does not end the call; the request is sent again at
    once, and the call returns [True] on the next answer. *)
Lemma oversize_then_accepted :
  let st := control_on (Data (oversize 12000) :: reply 12000 text_ok) in
  unpackHead (oversize 12000) = Some (11 * 1024 * 1024, 12000) /\
  fst (Control.send_control_command 2000 (JObj []) 1 st) = Ret true /\
  Control.trace (snd (Control.send_control_command 2000 (JObj []) 1 st)) =
    [EvSend stop_msg; EvSetTimeout 5; EvRecv 16;
     EvSend stop_msg; EvSetTimeout 5; EvRecv 16; EvRecv 14].
Proof. vm_compute. repeat split; reflexivity. Qed.

Lemma oversize_payload_is_not_read_witness :
  (let st := control_on [Data (oversize 12000)] in
   Control.iteration 0 1 stop_msg st =
     (Ret None, snd (Control.read_header stop_msg st)) /\
   Control.trace (snd (Control.read_header stop_msg st)) =
     Control.trace st ++ [EvSend stop_msg; EvSetTimeout 5; EvRecv 16]) /\
  (let st := laser_on [Data (oversize 11009)] in
   exists st2,
     LaserGet.get_laser_from_agv LaserGet.default_config st = (Ret None, st2) /\
     LaserGet.trace st2 =
       LaserGet.trace (laser_connected [Data (oversize 11009)]) ++
       [EvSend laser_request; EvRecv 16; EvClose]).
Proof.
  destruct (@Framing.oversize_payload_is_not_read device) as [A B].
  split.
  - apply (A 0 1 stop_msg (control_on [Data (oversize 12000)]) (oversize 12000)
             (11 * 1024 * 1024) 12000).
    + reflexivity.
    + reflexivity.
    + reflexivity.
    + reflexivity.
  - apply (B LaserGet.default_config (laser_on [Data (oversize 11009)])
             (laser_connected [Data (oversize 11009)]) laser_request
             (oversize 11009) (11 * 1024 * 1024) 11009
             (snd (LaserGet.request_header laser_request
                     (laser_connected [Data (oversize 11009)])))).
    + reflexivity.
    + reflexivity.
    + reflexivity.
    + reflexivity.
    + discriminate.
    + reflexivity.
    + reflexivity.
    + reflexivity.
    + reflexivity.
Defined.

(** Claim C3 fails on the code: the header read of the first attempt times
    out and the request is sent again after 0.5 s on the same socket; the
    socket is neither closed nor reconnected. *)
Lemma timeout_without_reconnect :
  let st := control_on [Stall; Stall] in
  fst (Control.exchange stop_msg st) = Raise socket_timeout /\
  fst (Control.send_control_command 2000 (JObj []) 1 st) = Ret false /\
  Control.trace (snd (Control.send_control_command 2000 (JObj []) 1 st)) =
    [EvSend stop_msg; EvSetTimeout 5; EvRecv 16; EvSleep (1 # 2);
     EvSend stop_msg; EvSetTimeout 5; EvRecv 16].
Proof. vm_compute. repeat split; reflexivity. Qed.

Lemma transport_failure_handling_witness :
  (let st := control_world (Some (wire [Broken])) [Accept (reply 12000 text_ok) []] in
   exists st2,
     Control.iteration 0 1 stop_msg st = (Ret None, st2) /\
     Control.so st2 = Some (mkSocket true (reply 12000 text_ok) []) /\
     Control.net st2 = [] /\
     Control.trace st2 =
       Control.trace (snd (Control.exchange stop_msg st)) ++
       [EvClose; EvConnect Control.AGV_IP Control.CONTROL_PORT; EvSleep (1 # 2)]) /\
  (let st := control_world (Some (wire [Broken])) [Refuse] in
   exists st2,
     Control.iteration 0 1 stop_msg st = (Raise socket_error, st2) /\
     Control.so st2 = Some unconnected /\
     Control.trace st2 =
       Control.trace (snd (Control.exchange stop_msg st)) ++
       [EvClose; EvConnect Control.AGV_IP Control.CONTROL_PORT] /\
     forall n,
       Control.attempts (S n) 0 1 stop_msg st = (Raise socket_error, st2)) /\
  (let st := control_on [Stall] in
   exists st2,
     Control.iteration 0 1 stop_msg st = (Ret None, st2) /\
     Control.so st2 = Control.so (snd (Control.exchange stop_msg st)) /\
     Control.net st2 = Control.net (snd (Control.exchange stop_msg st)) /\
     Control.trace st2 =
       Control.trace (snd (Control.exchange stop_msg st)) ++ [EvSleep (1 # 2)]) /\
  (let st := control_on [Data [x5a; x01]] in
   Control.iteration 0 1 stop_msg st =
     (Ret None, snd (Control.read_header stop_msg st)) /\
   Control.trace (snd (Control.read_header stop_msg st)) =
     Control.trace st ++ [EvSend stop_msg; EvSetTimeout 5; EvRecv 16]) /\
  (let st := control_on [Stall; Stall] in
   exists r st' t,
     Control.attempts (Z.to_nat (1 + 1 - 0)) 0 1 stop_msg st = (r, st') /\
     Control.trace st' =
       Control.trace (snd (Control.iteration 0 1 stop_msg st)) ++
       EvSend stop_msg :: t) /\
  (let st := control_on [Stall; Stall] in
   exists t,
     Control.trace (snd (Control.send_control_command 2000 (JObj []) 1 st)) =
       Control.trace st ++ t /\
     (count is_send t <= Z.to_nat (1 + 1))%nat /\
     (count is_sleep t <= Z.to_nat 1)%nat /\
     count is_close t = count is_connect t).
Proof.
  destruct (@ControlFacts.transport_failure_handling device 0 1 stop_msg)
    as (A & B & C & D & E & F); [lia|].
  split; [|split; [|split; [|split; [|split]]]].
  - apply (A (control_world (Some (wire [Broken])) [Accept (reply 12000 text_ok) []])
             _ (reply 12000 text_ok) [] []); reflexivity.
  - apply (B (control_world (Some (wire [Broken])) [Refuse])); [reflexivity|exact I].
  - apply (C (control_on [Stall]) _ socket_timeout); [reflexivity|discriminate].
  - apply (D (control_on [Data [x5a; x01]]) [x5a; x01]); [reflexivity|discriminate].
  - apply (E (control_on [Stall; Stall])); reflexivity.
  - apply (F 2000 (JObj []) (control_on [Stall; Stall]) (Ret false)).
    vm_compute. reflexivity.
Defined.

Lemma retry_bound_on_timeouts_witness :
  let st := control_on [Stall; Stall; Stall] in
  exists st' t,
    Control.send_control_command 2000 (JObj []) 2 st = (Ret false, st') /\
    Control.trace st' = Control.trace st ++ t /\
    Z.of_nat (count is_send t) = 2 + 1.
Proof.
  apply (proj2 (@ControlFacts.retry_bound_on_timeouts device 2000 (JObj []) 2
                  (control_on [Stall; Stall; Stall])) stop_msg).
  - reflexivity.
  - reflexivity.
  - discriminate.
  - lia.
  - vm_compute. reflexivity.
Defined.

Lemma stop_precedes_close_witness :
  let st := control_world None [Accept (reply 12010 text_ok ++ reply 12000 text_ok) []] in
  exists r st1 body mid st',
    (Control.so_new ;; Control.so_connect ;; Control.main_loop [space_pressed]) st
      = (r, st1) /\
    Control.trace st1 =
      Control.trace st ++ EvConnect Control.AGV_IP Control.CONTROL_PORT :: body /\
    Control.every_close_reconnects body = true /\
    Control.has_socket st1 = true /\
    Control.agv_keyboard_control [space_pressed] st = (Ret tt, st') /\
    Control.trace st' = Control.trace st1 ++ EvSend stop_msg :: mid ++ [EvClose] /\
    forallb quiet mid = true /\
    (forall s, Control.so st1 = Some s -> fst (sock_send s) = Ret tt ->
       exists mid', mid = EvSetTimeout 5 :: EvRecv 16 :: mid').
Proof.
  apply (@ControlFacts.stop_precedes_close device [space_pressed]
           (control_world None
              [Accept (reply 12010 text_ok ++ reply 12000 text_ok) []])
           stop_msg).
  - reflexivity.
  - discriminate.
Defined.

Lemma missing_ret_code_is_success_witness :
  let st := control_on (reply 12000 text_no_code) in
  fst (Control.send_control_command 2000 (JObj []) 1 st) = Ret true.
Proof.
  intros st.
  rewrite (@ControlFacts.missing_ret_code_is_success device 2000 (JObj []) 1 st
             stop_msg (header 1 19 12000) 19 12000
             (snd (Control.read_header stop_msg st))
             (encode text_no_code)
             (snd (Control.so_recv 19 (snd (Control.read_header stop_msg st))))
             text_no_code [("create_on"%string, JStr "now")]).
  - reflexivity.
  - reflexivity.
  - discriminate.
  - lia.
  - reflexivity.
  - reflexivity.
  - reflexivity.
  - lia.
  - reflexivity.
  - reflexivity.
  - reflexivity.
  - reflexivity.
Defined.

(** *** agv_laser_get.py *)

(** The filtering example of the specification, end to end: the frame
    arrives in three segments cut at arbitrary places, and the result is the
    single point [[0, 1.0]]. *)
Example three_beams_end_to_end :
  let wire_bytes := frame 11009 text_three in
  let st := laser_on [Data (firstn 16 wire_bytes);
                      Data (firstn 50 (skipn 16 wire_bytes));
                      Data (skipn 66 wire_bytes)] in
  fst (LaserGet.get_laser_from_agv LaserGet.default_config st) =
    Ret (Some [[JNum (Fin 0); JNum (Fin 1)]]) /\
  LaserGet.trace (snd (LaserGet.get_laser_from_agv LaserGet.default_config st)) =
    [EvSetTimeout 8; EvConnect "192.168.1.121" 19204; EvSend laser_request;
     EvRecv 16; EvRecv 138; EvRecv 88; EvClose].
Proof. vm_compute. split; reflexivity. Qed.

Lemma filter_matches_specification_witness :
  LaserGet.scan_lasers LaserGet.default_config
    [JObj [("beams"%string, JArr three_beams)]] [] =
    Ret [[JNum (Fin 0); JNum (Fin 1)]] /\
  LaserGet.extract_beams LaserGet.default_config (lasers three_beams) =
    Ret (Some [[JNum (Fin 0); JNum (Fin 1)]]) /\
  LaserGet.claimed_filter
    (LaserGet.LASER_RANGE_MIN LaserGet.default_config)
    (LaserGet.LASER_RANGE_MAX LaserGet.default_config)
    [JObj [("beams"%string, JArr three_beams)]] =
    [[JNum (Fin 0); JNum (Fin 1)]].
Proof.
  destruct (@LaserFacts.filter_matches_specification LaserGet.default_config
              [JObj [("beams"%string, JArr three_beams)]] typed_three eq_refl)
    as (A & B & C).
  split; [|split].
  - exact A.
  - exact (B [("lasers"%string, JArr [JObj [("beams"%string, JArr three_beams)]])]
             eq_refl).
  - exact C.
Defined.

(** Claim C6 fails on the code for payloads that are not typed as the
    interface says.  A beam in range whose flag is the string [false] does
    not have validity flag true, yet the code keeps it, as the flag is only
    tested for truth.  A beam flagged valid whose distance is a string makes
    the comparison raise: the filter returns nothing, and the valid beam
    before it is lost with it. *)
Lemma untyped_beams_are_filtered_otherwise :
  (let groups := [JObj [("beams"%string, JArr [quoted_flag_beam])]] in
   LaserGet.claimed_filter
     (LaserGet.LASER_RANGE_MIN LaserGet.default_config)
     (LaserGet.LASER_RANGE_MAX LaserGet.default_config) groups = [] /\
   LaserGet.scan_lasers LaserGet.default_config groups [] =
     Ret [[JNum (Fin 0); JNum (Fin 1)]] /\
   LaserGet.extract_beams LaserGet.default_config (lasers [quoted_flag_beam]) =
     Ret (Some [[JNum (Fin 0); JNum (Fin 1)]])) /\
  (let groups := [JObj [("beams"%string, JArr [beam 0 1 true; odd_beam])]] in
   LaserGet.claimed_filter
     (LaserGet.LASER_RANGE_MIN LaserGet.default_config)
     (LaserGet.LASER_RANGE_MAX LaserGet.default_config) groups =
     [[JNum (Fin 0); JNum (Fin 1)]] /\
   LaserGet.scan_lasers LaserGet.default_config groups [] = Raise TypeError /\
   LaserGet.extract_beams LaserGet.default_config
     (lasers [beam 0 1 true; odd_beam]) = Raise TypeError).
Proof. vm_compute. repeat split; reflexivity. Qed.

(** Claim C5 fails on the code.  In the laser client a header that arrives
    in two segments of 8 bytes is not gathered: one [recv(16)] is made and
    the acquisition ends with [None], although the whole frame was on its
    way.  In the control client the body is read with one [recv]: of the
    five bytes declared only two are read, and the call goes on with them
    and returns [True], leaving the other three in the socket. *)
Lemma split_header_and_partial_body :
  (let wire_bytes := frame 11009 text_three in
   let st := laser_on [Data (firstn 8 wire_bytes); Data (skipn 8 wire_bytes)] in
   fst (LaserGet.get_laser_from_agv LaserGet.default_config st) = Ret None /\
   LaserGet.trace (snd (LaserGet.get_laser_from_agv LaserGet.default_config st)) =
     [EvSetTimeout 8; EvConnect "192.168.1.121" 19204; EvSend laser_request;
      EvRecv 16; EvClose]) /\
  (let st := control_on [Data (header 1 5 12000); Data (encode "{}");
                         Data (encode "   ")] in
   fst (Control.send_control_command 2000 (JObj []) 0 st) = Ret true /\
   Control.so (snd (Control.send_control_command 2000 (JObj []) 0 st)) =
     Some (wire [Data (encode "   ")]) /\
   Control.trace (snd (Control.send_control_command 2000 (JObj []) 0 st)) =
     [EvSend stop_msg; EvSetTimeout 5; EvRecv 16; EvRecv 5]).
Proof. vm_compute. repeat split; reflexivity. Qed.

Lemma framed_reads_witness :
  (let st := laser_connected [Data [x7b]; Data []; Data [x7d; x20]; Data [x20]] in
   exists st',
     LaserGet.receive_full_data 3 st = (Ret (Some [x7b; x7d; x20]), st')) /\
  (let st := laser_connected [Data [x7b]; Data [x7d; x20]] in
   exists st', LaserGet.receive_full_data 5 st = (Ret None, st')) /\
  (let st := laser_connected [Data (header 1 138 11009);
                              Data (firstn 20 (encode text_three))] in
   exists st2,
     LaserGet.acquire LaserGet.default_config st = (Ret None, st2)) /\
  (let st := laser_connected [Data [x5a; x01]] in
   LaserGet.acquire LaserGet.default_config st =
     (Ret None, snd (LaserGet.request_header laser_request st)) /\
   LaserGet.trace (snd (LaserGet.request_header laser_request st)) =
     LaserGet.trace st ++ [EvSend laser_request; EvRecv 16]) /\
  (let st := control_on [Data [x5a; x01]] in
   Control.exchange stop_msg st =
     (Ret Control.Continued, snd (Control.read_header stop_msg st)) /\
   Control.trace (snd (Control.read_header stop_msg st)) =
     Control.trace st ++ [EvSend stop_msg; EvSetTimeout 5; EvRecv 16]).
Proof.
  destruct (@Framing.framed_reads device) as (A & B & C & D & E).
  split; [|split; [|split; [|split]]].
  - apply (A 3 (laser_connected [Data [x7b]; Data []; Data [x7d; x20]; Data [x20]])
             [[x7b]; []; [x7d; x20]; [x20]] []).
    + exists []. reflexivity.
    + vm_compute. split; discriminate.
  - apply (B 5 (laser_connected [Data [x7b]; Data [x7d; x20]])
             [[x7b]; [x7d; x20]]).
    + exists []. reflexivity.
    + reflexivity.
  - eexists.
    apply (C LaserGet.default_config
             (laser_connected [Data (header 1 138 11009);
                               Data (firstn 20 (encode text_three))])
             laser_request (header 1 138 11009) 138
             (snd (LaserGet.request_header laser_request
                     (laser_connected [Data (header 1 138 11009);
                                       Data (firstn 20 (encode text_three))])))).
    + reflexivity.
    + discriminate.
    + reflexivity.
    + reflexivity.
    + reflexivity.
    + vm_compute. split; discriminate.
    + vm_compute. reflexivity.
  - apply (D LaserGet.default_config (laser_connected [Data [x5a; x01]])
             laser_request [x5a; x01]).
    + reflexivity.
    + discriminate.
    + reflexivity.
    + discriminate.
  - apply (E stop_msg (control_on [Data [x5a; x01]]) [x5a; x01]).
    + reflexivity.
    + discriminate.
Defined.

(** Claim C7 fails on the code: with an empty [lasers] list, and with beams
    that are all out of range, the result is [None], not an empty sequence;
    and it is the very value returned when the peer closes in the middle of
    the body or answers with another response type. *)
Lemma no_valid_data_looks_like_failure :
  let run q := fst (LaserGet.get_laser_from_agv LaserGet.default_config (laser_on q)) in
  run (reply 11009 text_none) = Ret None /\
  run (reply 11009 text_far) = Ret None /\
  run [Data (header 1 138 11009); Data (firstn 20 (encode text_three))] = Ret None /\
  run (reply 12000 text_three) = Ret None /\
  run (reply 11009 text_none) <> Ret (Some []).
Proof. vm_compute. repeat split; try reflexivity. discriminate. Qed.

Lemma no_valid_data_is_none_witness :
  LaserGet.extract_beams LaserGet.default_config
    (JObj [("lasers"%string, JArr [])]) = Ret None /\
  LaserGet.extract_beams LaserGet.default_config
    (lasers [beam 0 30 true]) = Ret None /\
  [[JNum (Fin 0); JNum (Fin 1)]] <> [] /\
  fst (LaserGet.get_laser_from_agv LaserGet.default_config
         (laser_on (reply 11009 text_far))) = Ret None /\
  fst (LaserGet.get_laser_from_agv LaserGet.default_config (laser_on [Stall])) =
    Ret None /\
  fst (LaserGet.get_laser_from_agv LaserGet.default_config
         (laser_on (reply 12000 text_three))) = Ret None /\
  fst (LaserGet.get_laser_from_agv LaserGet.default_config
         (laser_on [Data (header 1 138 11009);
                    Data (firstn 20 (encode text_three))])) = Ret None.
Proof.
  destruct (@LaserFacts.no_valid_data_is_none device LaserGet.default_config)
    as (A & B & C & D & E & F & G).
  split; [|split; [|split; [|split; [|split; [|split]]]]].
  - apply A. right. reflexivity.
  - apply (B _ [JObj [("beams"%string, JArr [beam 0 30 true])]]); reflexivity.
  - apply (C (laser_on [Data (frame 11009 text_three)])). vm_compute. reflexivity.
  - apply (D (laser_on (reply 11009 text_far))
             (laser_connected (reply 11009 text_far)) laser_request
             (header 1 (Z.of_nat (List.length (encode text_far))) 11009)
             (Z.of_nat (List.length (encode text_far)))
             (snd (LaserGet.request_header laser_request
                     (laser_connected (reply 11009 text_far))))
             (encode text_far)
             (snd (LaserGet.receive_full_data
                     (Z.of_nat (List.length (encode text_far)))
                     (snd (LaserGet.request_header laser_request
                             (laser_connected (reply 11009 text_far))))))
             text_far (lasers [beam 0 30 true])).
    + reflexivity.
    + reflexivity.
    + reflexivity.
    + reflexivity.
    + discriminate.
    + reflexivity.
    + reflexivity.
    + reflexivity.
    + vm_compute. split; discriminate.
    + vm_compute. reflexivity.
    + discriminate.
    + reflexivity.
    + reflexivity.
    + reflexivity.
  - apply (E (laser_on [Stall]) (laser_connected [Stall]) socket_timeout);
      reflexivity.
  - apply (F (laser_on (reply 12000 text_three))
             (laser_connected (reply 12000 text_three)) laser_request
             (header 1 (Z.of_nat (List.length (encode text_three))) 12000)
             (snd (LaserGet.request_header laser_request
                     (laser_connected (reply 12000 text_three)))));
      try reflexivity. discriminate.
  - apply (G (laser_on [Data (header 1 138 11009);
                        Data (firstn 20 (encode text_three))])
             (laser_connected [Data (header 1 138 11009);
                               Data (firstn 20 (encode text_three))])
             laser_request (header 1 138 11009) 138
             (snd (LaserGet.request_header laser_request
                     (laser_connected [Data (header 1 138 11009);
                                       Data (firstn 20 (encode text_three))])))
             (snd (LaserGet.receive_full_data 138
                     (snd (LaserGet.request_header laser_request
                             (laser_connected [Data (header 1 138 11009);
                                               Data (firstn 20 (encode text_three))])))))).
    + reflexivity.
    + reflexivity.
    + reflexivity.
    + reflexivity.
    + discriminate.
    + reflexivity.
    + reflexivity.
    + reflexivity.
    + vm_compute. split; discriminate.
    + vm_compute. reflexivity.
Defined.

Lemma receive_full_data_exact_witness :
  let st := laser_connected [Data [x7b]; Data [x7d; x20]] in
  LaserGet.receive_loop 7 [] 2 st = LaserGet.receive_loop (Z.to_nat 2) [] 2 st.
Proof.
  apply (proj2 (proj2 (LaserFacts.receive_full_data_exact 2
                         (laser_connected [Data [x7b]; Data [x7d; x20]])))).
  vm_compute. lia.
Defined.

End Scenarios.

(** * Further properties

    Properties of the two scripts beyond the specification's claims. *)

(** ** agv_control.py: the retry loop and the keyboard loop *)

Module ControlMore.
Import Control ControlFacts.
Section WithExternals.
Context {ext : Externals}.

Lemma handler_no_ros i retry u : handler_events i retry u -> count is_ros u = 0%nat.
Proof. intros [->|(_ & [->|[->| ->]])]; reflexivity. Qed.

Lemma quiet_no_ros t : forallb quiet t = true -> count is_ros t = 0%nat.
Proof. apply count_quiet. intros [] E; simpl in *; congruence. Qed.

(** The speeds are left alone by an exchange and by the handlers. *)
Lemma iteration_speeds i retry msg st r st' :
  iteration i retry msg st = (r, st') ->
  vx st' = vx st /\ vy st' = vy st /\ w st' = w st.
Proof.
  unfold iteration. destruct (exchange msg st) as [ro st1] eqn:E.
  apply exchange_extends in E. destruct E as (t & (_ & _ & _ & X & Y & Z) & _).
  assert (P : forall r0 st0, (pause i retry;; ret (@None bool)) st1 = (r0, st0) ->
            vx st0 = vx st /\ vy st0 = vy st /\ w st0 = w st).
  { intros r0 st0. rewrite pause_run. intros H; inv H.
    destruct (i <? retry); simpl; auto. }
  assert (R : forall r0 st0, (reconnect i retry;; pause i retry;; ret (@None bool)) st1 = (r0, st0) ->
            vx st0 = vx st /\ vy st0 = vy st /\ w st0 = w st).
  { intros r0 st0. unfold reconnect, pause.
    destruct (i <? retry).
    - unfold bind, so_close, so_new, so_connect, time_sleep, bind, emit, on_so,
        set_so, set_net, ret. simpl.
      destruct (so st1); [|intros H; inv H; auto].
      simpl. destruct (net st1) as [|[|q f] rest]; intros H; inv H; simpl; auto.
    - unfold bind, ret. intros H; inv H. auto. }
  destruct ro as [[]|[]]; intros H; try (eapply P; eauto; fail);
    try (eapply R; eauto; fail); inv H; auto.
Qed.

Lemma attempts_quiet_ros n : forall i retry msg st r st',
  attempts n i retry msg st = (r, st') ->
  has_socket st = true ->
  exists t, trace st' = trace st ++ t /\ count is_ros t = 0%nat /\
            vx st' = vx st /\ vy st' = vy st /\ w st' = w st.
Proof.
  induction n as [|n IH]; intros i retry msg st r st' H Hs.
  - inv H. exists []. rewrite app_nil_r. auto.
  - simpl in H. unfold bind in H.
    destruct (iteration i retry msg st) as [r1 st1] eqn:E.
    pose proof (iteration_speeds _ _ _ _ E) as (X & Y & Z).
    apply iteration_trace in E; auto. destruct E as (t & u & Et & Hq & Hu & Hs1).
    assert (C : count is_ros (EvSend msg :: t ++ u) = 0%nat).
    { rewrite count_cons, count_app, (quiet_no_ros _ Hq), (handler_no_ros Hu).
      reflexivity. }
    destruct r1 as [[b|]|e].
    + inv H. eexists. split; [exact Et|]. auto.
    + apply IH in H; auto. destruct H as (t2 & Et2 & C2 & X2 & Y2 & Z2).
      exists ((EvSend msg :: t ++ u) ++ t2).
      rewrite Et2, Et, <- app_assoc. split; [reflexivity|].
      rewrite count_app, C, C2. repeat split; congruence.
    + inv H. eexists. split; [exact Et|]. auto.
Qed.

Lemma send_control_command_quiet_ros api_type params retry st r st' :
  send_control_command api_type params retry st = (r, st') ->
  exists t, trace st' = trace st ++ t /\ count is_ros t = 0%nat /\
            vx st' = vx st /\ vy st' = vy st /\ w st' = w st.
Proof.
  unfold send_control_command.
  assert (idle : forall b, (Ret b, st) = (r, st') ->
            exists t, trace st' = trace st ++ t /\ count is_ros t = 0%nat /\
            vx st' = vx st /\ vy st' = vy st /\ w st' = w st).
  { intros b H. inv H. exists []. rewrite app_nil_r. auto. }
  destruct (so st) eqn:Es; [|apply idle].
  destruct (packMsg 1 api_type params) as [[|b msg]|]; try apply idle.
  intros H. apply attempts_quiet_ros in H; auto.
  unfold has_socket. rewrite Es. reflexivity.
Qed.

Lemma count_zero_forall (p : event -> bool) (P : event -> Prop) t :
  (forall e, p e = false -> P e) -> count p t = 0%nat -> Forall P t.
Proof.
  intros Hp. induction t as [|e t IH]; intros H; [constructor|].
  rewrite count_cons in H. destruct (p e) eqn:E; [simpl in H; lia|].
  constructor; [apply Hp; exact E|apply IH; simpl in H; lia].
Qed.

Lemma ros_free_within_levels e : is_ros e = false -> publish_within_levels e.
Proof. destruct e; simpl; intros H; try exact I; discriminate. Qed.

Lemma update_speed_levels k st :
  exists st1,
    update_speed_by_keyboard k st = (Ret tt, st1) /\
    speed_levels (vx st1) (w st1) /\
    (vy st1 = vy st \/ vy st1 = 0%Q) /\
    trace st1 = trace st /\ so st1 = so st /\ net st1 = net st.
Proof.
  unfold update_speed_by_keyboard, set_speed, speed_levels.
  destruct (key_space k).
  - eexists. split; [reflexivity|]. simpl. tauto.
  - eexists. split; [reflexivity|]. simpl.
    destruct (key_w k), (key_s k), (key_a k), (key_d k); tauto.
Qed.

Lemma main_loop_levels keys : forall st r st1,
  main_loop keys st = (r, st1) ->
  exists t, trace st1 = trace st ++ t /\ Forall publish_within_levels t /\
            (vy st1 = vy st \/ vy st1 = 0%Q).
Proof.
  induction keys as [|k keys IH]; intros st r st1 H.
  - inv H. exists []. rewrite app_nil_r. auto.
  - simpl in H. unfold bind at 1 in H.
    destruct (update_speed_levels k st) as (sta & Hu & La & Ya & Ta & _).
    rewrite Hu in H.
    unfold bind at 1 in H. unfold emit at 1 in H.
    set (stb := mkWorld (so sta) (vx sta) (vy sta) (w sta) (net sta)
                        (trace sta ++ [EvPublish (vx sta) (w sta)])) in H.
    unfold bind at 1 in H.
    destruct (send_control_command robot_control_motion_req (motion_params stb) 1 stb)
      as [rc stc] eqn:Ec.
    apply send_control_command_quiet_ros in Ec.
    destruct Ec as (tc & Tc & Cc & _ & Yc & _).
    assert (Fc : Forall publish_within_levels (EvPublish (vx sta) (w sta) :: tc)).
    { constructor; [exact La|].
      eapply count_zero_forall; [apply ros_free_within_levels|exact Cc]. }
    assert (Tb : trace stc = trace st ++ EvPublish (vx sta) (w sta) :: tc).
    { rewrite Tc. unfold stb. simpl. rewrite Ta, <- app_assoc. reflexivity. }
    assert (Yb : vy stc = vy st \/ vy stc = 0%Q).
    { rewrite Yc. unfold stb. simpl. exact Ya. }
    destruct rc as [b|e].
    + unfold bind at 1 in H. unfold emit at 1 in H.
      apply IH in H. destruct H as (t & Et & Ft & Yt). simpl in Et, Yt.
      exists ((EvPublish (vx sta) (w sta) :: tc) ++ EvRateSleep :: t).
      split; [rewrite Et, Tb, <- !app_assoc; reflexivity|]. split.
      * apply Forall_app. split; [exact Fc|]. constructor; [exact I|exact Ft].
      * destruct Yt as [Yt|Yt]; [rewrite Yt; exact Yb|right; exact Yt].
    + inv H. eexists. split; [exact Tb|]. auto.
Qed.

Lemma main_loop_balance keys : forall st r st1,
  main_loop keys st = (r, st1) ->
  exists t, trace st1 = trace st ++ t /\
            count is_close t = count is_connect t /\
            has_socket st1 = has_socket st.
Proof.
  induction keys as [|k keys IH]; intros st r st1 H.
  - inv H. exists []. rewrite app_nil_r. auto.
  - simpl in H. unfold bind at 1 in H.
    destruct (update_speed_levels k st) as (sta & Hu & _ & _ & Ta & Sa & _).
    rewrite Hu in H.
    unfold bind at 1 in H. unfold emit at 1 in H.
    set (stb := mkWorld (so sta) (vx sta) (vy sta) (w sta) (net sta)
                        (trace sta ++ [EvPublish (vx sta) (w sta)])) in H.
    unfold bind at 1 in H.
    destruct (send_control_command robot_control_motion_req (motion_params stb) 1 stb)
      as [rc stc] eqn:Ec.
    apply send_control_command_bounds in Ec.
    destruct Ec as (tc & Tc & _ & _ & Bc & _ & Sc).
    assert (Tb : trace stc = trace st ++ EvPublish (vx sta) (w sta) :: tc).
    { rewrite Tc. unfold stb. simpl. rewrite Ta, <- app_assoc. reflexivity. }
    assert (Sb : has_socket stc = has_socket st).
    { rewrite Sc. unfold stb, has_socket. simpl. rewrite Sa. reflexivity. }
    assert (Cb : count is_close (EvPublish (vx sta) (w sta) :: tc) =
                 count is_connect (EvPublish (vx sta) (w sta) :: tc)).
    { rewrite !count_cons. simpl. exact Bc. }
    destruct rc as [b|e].
    + unfold bind at 1 in H. unfold emit at 1 in H.
      apply IH in H. destruct H as (t & Et & Ct & St). simpl in Et.
      unfold has_socket at 2 in St. simpl in St. fold (has_socket stc) in St.
      exists ((EvPublish (vx sta) (w sta) :: tc) ++ EvRateSleep :: t).
      split; [rewrite Et, Tb, <- !app_assoc; reflexivity|]. split; [|congruence].
      rewrite !count_app, !(count_cons _ EvRateSleep). simpl. lia.
    + inv H. eexists. split; [exact Tb|]. auto.
Qed.

Lemma send_control_command_last_returns api_type params retry st :
  retry <= 0 ->
  exists b st', send_control_command api_type params retry st = (Ret b, st').
Proof.
  intros Hr. unfold send_control_command.
  destruct (so st); [|eauto].
  destruct (packMsg 1 api_type params) as [[|b msg]|]; eauto.
  destruct (Z.to_nat (retry + 1)) as [|[|n]] eqn:En; [simpl; unfold ret; eauto| |lia].
  simpl. unfold bind.
  destruct (iteration_last_returns (b :: msg) st (i := 0) (retry := retry)) as (o & st1 & K);
    [lia|].
  rewrite K. destruct o; unfold ret; eauto.
Qed.

(** The [finally] block, whether or not the stop request can be packed. *)
Lemma shutdown_balance st :
  has_socket st = true ->
  exists t st',
    shutdown st = (Ret tt, st') /\
    trace st' = trace st ++ t ++ [EvClose] /\
    count is_close t = 0%nat /\ count is_connect t = 0%nat /\
    count is_ros t = 0%nat /\ vy st' = vy st.
Proof.
  intros Hs. unfold shutdown.
  pose proof Hs as Hs'. unfold has_socket in Hs'.
  destruct (so st) eqn:Es; [clear Hs'|discriminate].
  unfold bind at 1.
  destruct (send_control_command_last_returns robot_control_stop_req (JObj []) st
              (Z.le_refl 0)) as (b & st1 & K).
  rewrite K.
  pose proof (send_control_command_bounds _ _ _ _ K) as (t & Et & _ & _ & B1 & B2 & S1).
  pose proof (send_control_command_quiet_ros _ _ _ _ K) as (t' & Et' & R & _ & Y & _).
  rewrite Et in Et'. apply app_inv_head in Et'. subst t'.
  rewrite Hs in S1. simpl in B2.
  unfold so_close, bind, emit, on_so, set_so. simpl.
  unfold has_socket in S1. destruct (so st1); [|discriminate].
  exists t. eexists. split; [reflexivity|]. simpl.
  rewrite Et, <- app_assoc. repeat split; auto; lia.
Qed.

(** Property X1.  Whatever keys are read and whatever the device does,
    [agv_keyboard_control] returns normally, every velocity it publishes has
    a linear part in {0, 0.2, -0.2} and an angular part in {0, 0.8, -0.8},
    and the lateral speed [vy] is never set to anything but 0: at the end it
    is what it was at the start, or 0. *)
Theorem published_speeds_are_keyboard_levels keys st :
  exists t st',
    agv_keyboard_control keys st = (Ret tt, st') /\
    trace st' = trace st ++ t /\
    Forall publish_within_levels t /\
    (vy st' = vy st \/ vy st' = 0%Q).
Proof.
  unfold agv_keyboard_control.
  destruct ((so_new;; so_connect;; main_loop keys) st) as [r st1] eqn:E.
  assert (H1 : exists pre, trace st1 = trace st ++ pre /\ has_socket st1 = true /\
                 Forall publish_within_levels pre /\
                 (vy st1 = vy st \/ vy st1 = 0%Q)).
  { change ((so_new;; so_connect;; main_loop keys) st)
      with (match so_new st with
            | (Ret a, sta) => (so_connect;; main_loop keys) sta
            | (Raise e, sta) => (Raise e, sta)
            end) in E.
    unfold so_new at 1 in E.
    set (sta := set_so (Some unconnected) st) in E.
    unfold bind in E.
    destruct (so_connect sta) as [rc stb] eqn:Ec.
    assert (Hb : has_socket stb = true /\ vy stb = vy st /\
                 trace stb = trace st ++ [EvConnect AGV_IP CONTROL_PORT]).
    { revert Ec. unfold so_connect, bind, emit, set_so, set_net, has_socket, sta.
      simpl. destruct (net st) as [|[|q f] rest]; intros H; inv H; simpl; auto. }
    destruct Hb as (Sb & Yb & Tb).
    destruct rc as [[]|e].
    - pose proof (main_loop_trace _ _ E) as (t0 & Et0 & Es0).
      apply main_loop_levels in E. destruct E as (t & Et & Ft & Yt).
      eexists. rewrite Et, Tb, <- app_assoc. split; [reflexivity|].
      split; [congruence|]. split.
      + constructor; [exact I|exact Ft].
      + rewrite Yb in Yt. exact Yt.
    - inv E. eexists. split; [exact Tb|]. split; [exact Sb|].
      split; [repeat constructor|left; exact Yb]. }
  destruct H1 as (pre & T1 & S1 & F1 & Y1).
  destruct (shutdown_balance st1 S1) as (t & st' & R & T2 & _ & _ & C & Y2).
  exists (pre ++ t ++ [EvClose]), st'. rewrite R, T2, T1, <- app_assoc.
  repeat split; auto.
  - apply Forall_app. split; [exact F1|]. apply Forall_app. split.
    + eapply count_zero_forall; [apply ros_free_within_levels|exact C].
    + repeat constructor.
  - rewrite Y2. exact Y1.
Qed.

(** Property X2.  In every run of [agv_keyboard_control] the first outside
    call is a connect, the last one is a close, and there are as many closes
    as connects: the socket of every connection attempt, reconnections
    included, is closed. *)
Theorem every_connect_is_closed keys st :
  exists t st',
    agv_keyboard_control keys st = (Ret tt, st') /\
    trace st' = trace st ++ EvConnect AGV_IP CONTROL_PORT :: t ++ [EvClose] /\
    count is_close (EvConnect AGV_IP CONTROL_PORT :: t ++ [EvClose]) =
    count is_connect (EvConnect AGV_IP CONTROL_PORT :: t ++ [EvClose]).
Proof.
  unfold agv_keyboard_control.
  destruct ((so_new;; so_connect;; main_loop keys) st) as [r st1] eqn:E.
  assert (H1 : exists pre, trace st1 = trace st ++ EvConnect AGV_IP CONTROL_PORT :: pre /\
                 has_socket st1 = true /\
                 count is_close pre = count is_connect pre).
  { change ((so_new;; so_connect;; main_loop keys) st)
      with (match so_new st with
            | (Ret a, sta) => (so_connect;; main_loop keys) sta
            | (Raise e, sta) => (Raise e, sta)
            end) in E.
    unfold so_new at 1 in E.
    set (sta := set_so (Some unconnected) st) in E.
    unfold bind in E.
    destruct (so_connect sta) as [rc stb] eqn:Ec.
    assert (Hb : has_socket stb = true /\
                 trace stb = trace st ++ [EvConnect AGV_IP CONTROL_PORT]).
    { revert Ec. unfold so_connect, bind, emit, set_so, set_net, has_socket, sta.
      simpl. destruct (net st) as [|[|q f] rest]; intros H; inv H; simpl; auto. }
    destruct Hb as (Sb & Tb).
    destruct rc as [[]|e].
    - apply main_loop_balance in E. destruct E as (t & Et & Ct & St).
      exists t. rewrite Et, Tb, <- app_assoc. split; [reflexivity|].
      split; [congruence|exact Ct].
    - inv E. exists []. split; [exact Tb|]. auto. }
  destruct H1 as (pre & T1 & S1 & C1).
  destruct (shutdown_balance st1 S1) as (t & st' & R & T2 & Cc & Cn & _ & _).
  exists (pre ++ t), st'. rewrite R, T2, T1, <- !app_assoc. simpl.
  rewrite <- ?app_assoc.
  split; [reflexivity|]. split; [reflexivity|].
  rewrite !count_cons, !count_app. cbn. lia.
Qed.

Lemma iteration_success i retry msg st b st' :
  iteration i retry msg st = (Ret (Some b), st') ->
  b = true /\ exchange msg st = (Ret Returned, st').
Proof.
  unfold iteration. destruct (exchange msg st) as [ro st1].
  assert (P : (pause i retry;; ret (@None bool)) st1 = (Ret (Some b), st') -> False).
  { rewrite pause_run. discriminate. }
  assert (R : (reconnect i retry;; pause i retry;; ret (@None bool)) st1
              = (Ret (Some b), st') -> False).
  { unfold bind at 1. destruct (reconnect i retry st1) as [[[]|e] st2];
      [rewrite pause_run|]; discriminate. }
  destruct ro as [[]|[]]; intros H; try (exfalso; auto; fail); inv H; auto.
Qed.

Lemma iteration_raise i retry msg st e st' :
  iteration i retry msg st = (Raise e, st') ->
  e = socket_error /\ i < retry /\ so st' = Some unconnected /\
  exists st1, exchange msg st = (Raise socket_error, st1) /\ refused (net st1).
Proof.
  unfold iteration. destruct (exchange msg st) as [ro st1] eqn:E.
  assert (P : (pause i retry;; ret (@None bool)) st1 = (Raise e, st') -> False).
  { rewrite pause_run. discriminate. }
  destruct ro as [[]|[]]; intros H; try (exfalso; auto; fail); try discriminate.
  assert (Hs : has_socket st1 = true).
  { pose proof (exchange_needs_socket _ _ E) as K.
    apply exchange_extends in E. destruct E as (t & (_ & _ & S1 & _) & _).
    rewrite S1. apply K. discriminate. }
  revert H. unfold reconnect, pause. destruct (i <? retry) eqn:L.
  - apply Z.ltb_lt in L.
    unfold bind, so_close, so_new, so_connect, time_sleep, bind, emit, on_so,
      set_so, set_net, ret, refused. simpl.
    unfold has_socket in Hs. destruct (so st1); [|discriminate]. simpl.
    destruct (net st1) as [|[|q f] rest] eqn:N; intros H; inv H; simpl;
      repeat split; auto; exists st1; rewrite N; auto.
  - unfold bind, ret. discriminate.
Qed.

Lemma attempts_result n : forall i retry msg st b st',
  attempts n i retry msg st = (Ret b, st') ->
  has_socket st = true ->
  exists t,
    trace st' = trace st ++ t /\
    (b = false -> count is_send t = n) /\
    (b = true -> (1 <= count is_send t <= n)%nat /\
                 (count is_sleep t < count is_send t)%nat) /\
    (count is_sleep t <= count is_send t)%nat.
Proof.
  induction n as [|n IH]; intros i retry msg st b st' H Hs.
  - inv H. exists []. rewrite app_nil_r. cbn. repeat split; auto; try lia;
      try discriminate.
  - simpl in H. unfold bind in H.
    destruct (iteration i retry msg st) as [r1 st1] eqn:E.
    destruct r1 as [[b0|]|e]; [| |discriminate].
    + inv H. apply iteration_success in E. destruct E as (-> & E).
      apply exchange_extends in E. destruct E as (t & (Et & _) & Hq).
      apply quiet_counts in Hq. destruct Hq as (Q1 & _ & _ & Q4).
      exists (EvSend msg :: t). split; [exact Et|].
      rewrite !count_cons. simpl. rewrite Q1, Q4.
      repeat split; try lia; try discriminate.
    + apply iteration_trace in E; auto. destruct E as (t & u & Et & Hq & Hu & Hs1).
      apply handler_counts in Hu. destruct Hu as (U1 & _ & U3 & _).
      apply quiet_counts in Hq. destruct Hq as (Q1 & _ & _ & Q4).
      apply IH in H; auto. destruct H as (t2 & Et2 & F & T & L).
      exists ((EvSend msg :: t ++ u) ++ t2).
      rewrite Et2, Et, <- app_assoc. split; [reflexivity|].
      rewrite !count_app, !count_cons, !count_app. simpl.
      rewrite Q1, Q4, U1.
      repeat split; intros; subst;
        try (specialize (F eq_refl)); try (specialize (T eq_refl)); lia.
Qed.

(** Property X4.  With a socket and a packed request,
    [send_control_command] returns [False] only after it has sent the
    request [retry + 1] times, whatever made the attempts fail; when it
    returns [True] it has sent it between 1 and [retry + 1] times and has
    waited fewer times than it has sent (no wait follows the success). *)
Theorem false_means_all_attempts_sent
    api_type params retry st request_msg b st' :
  has_socket st = true ->
  packMsg 1 api_type params = Some request_msg -> request_msg <> [] ->
  send_control_command api_type params retry st = (Ret b, st') ->
  exists t,
    trace st' = trace st ++ t /\
    (b = false -> count is_send t = Z.to_nat (retry + 1)) /\
    (b = true -> (1 <= count is_send t <= Z.to_nat (retry + 1))%nat /\
                 (count is_sleep t < count is_send t)%nat).
Proof.
  intros Hs Hp Hm H.
  rewrite send_control_command_run with (msg := request_msg) in H by assumption.
  apply attempts_result in H; auto.
  destruct H as (t & Et & F & T & _). exists t. auto.
Qed.

Lemma attempts_raise n : forall i retry msg st e st',
  attempts n i retry msg st = (Raise e, st') ->
  0 <= i ->
  e = socket_error /\ 1 <= retry /\ so st' = Some unconnected.
Proof.
  induction n as [|n IH]; intros i retry msg st e st' H Hi; [discriminate|].
  simpl in H. unfold bind in H.
  destruct (iteration i retry msg st) as [r1 st1] eqn:E.
  destruct r1 as [[b0|]|e0].
  - discriminate.
  - apply IH in H; [exact H|lia].
  - inv H. apply iteration_raise in E. destruct E as (-> & L & S & _).
    repeat split; auto. lia.
Qed.

(** Property X5.  The only exception that leaves [send_control_command] is
    the [socket.error] of a reconnection that fails: it needs [retry >= 1],
    and the global [so] is then a new socket that is not connected. *)
Theorem only_reconnect_failure_escapes api_type params retry st e st' :
  send_control_command api_type params retry st = (Raise e, st') ->
  e = socket_error /\ 1 <= retry /\ so st' = Some unconnected.
Proof.
  unfold send_control_command.
  destruct (so st); [|discriminate].
  destruct (packMsg 1 api_type params) as [[|b msg]|]; try discriminate.
  intros H. apply attempts_raise in H; [exact H|lia].
Qed.

(** Property X6.  When the header of a command response declares a payload
    length of zero, or a negative one, no body is read: the body is taken to
    be [{}] and the call returns [True] right after the header read. *)
Theorem empty_payload_is_success
    api_type params retry st request_msg header json_data_len back_req_num st1 :
  packMsg 1 api_type params = Some request_msg -> request_msg <> [] ->
  0 <= retry ->
  read_header request_msg st = (Ret header, st1) ->
  len header = 16 ->
  unpackHead header = Some (json_data_len, back_req_num) ->
  json_data_len <= 0 ->
  json_loads "{}" = Some (JObj []) ->
  send_control_command api_type params retry st = (Ret true, st1) /\
  trace st1 = trace st ++ [EvSend request_msg; EvSetTimeout 5; EvRecv 16].
Proof.
  intros Hp Hm Hr Hh Hl Hu Hn Hj.
  destruct (read_header_trace _ _ Hh) as (_ & K).
  destruct (K header eq_refl) as (T & Hs).
  split; [|exact T].
  rewrite send_control_command_run with (msg := request_msg) by assumption.
  destruct (Z.to_nat (retry + 1)) as [|n] eqn:En; [lia|].
  simpl. unfold bind at 1. unfold iteration.
  rewrite exchange_after_header, Hh, Hl.
  change (negb (16 =? 16)) with false. cbv iota. rewrite Hu.
  assert ((json_data_len >? 10 * 1024 * 1024) = false) as -> by lia.
  assert ((json_data_len >? 0) = false) as -> by lia.
  unfold bind. unfold ret at 1. unfold loads. rewrite Hj.
  reflexivity.
Qed.

(** Property X8.  When the first connection is refused,
    [agv_keyboard_control] publishes nothing and sends no motion command:
    it tries the stop command on the unconnected socket, closes it and
    returns, leaving the speeds as they were. *)
Theorem refused_connection_still_stops keys st msg :
  refused (net st) ->
  packMsg 1 robot_control_stop_req (JObj []) = Some msg -> msg <> [] ->
  exists st',
    agv_keyboard_control keys st = (Ret tt, st') /\
    trace st' =
      trace st ++ [EvConnect AGV_IP CONTROL_PORT; EvSend msg; EvClose] /\
    vx st' = vx st /\ vy st' = vy st /\ w st' = w st.
Proof.
  intros Hn Hp Hm. unfold agv_keyboard_control.
  assert (E : exists st1,
            (so_new;; so_connect;; main_loop keys) st = (Raise socket_error, st1) /\
            so st1 = Some unconnected /\
            trace st1 = trace st ++ [EvConnect AGV_IP CONTROL_PORT] /\
            vx st1 = vx st /\ vy st1 = vy st /\ w st1 = w st).
  { unfold bind, so_new, so_connect, bind, emit, set_so, set_net. simpl.
    unfold refused in Hn.
    destruct (net st) as [|[|q f] rest]; [| |contradiction];
      eexists; (split; [reflexivity|]); simpl; auto. }
  destruct E as (st1 & -> & S1 & T1 & X & Y & Z).
  unfold shutdown. rewrite S1. unfold bind at 1.
  rewrite send_control_command_run with (msg := msg);
    [|unfold has_socket; rewrite S1; reflexivity|assumption|assumption].
  change (Z.to_nat (0 + 1)) with 1%nat. simpl attempts.
  unfold bind at 1. unfold iteration, exchange.
  unfold bind at 1. unfold so_send, bind, emit, on_so. simpl. rewrite S1. simpl.
  unfold so_close, bind, emit, on_so, set_so, ret. simpl.
  eexists. split; [reflexivity|]. simpl.
  rewrite T1, <- !app_assoc. simpl. auto.
Qed.

Lemma exchange_capped msg st r st' :
  exchange msg st = (r, st') ->
  exists t, trace st' = trace st ++ t /\ Forall capped_read t.
Proof.
  unfold exchange, bind.
  destruct (so_send msg st) as [[[]|e] st1] eqn:E1;
    apply so_send_extends in E1; destruct E1 as (T1 & _).
  2:{ intros H; inv H. eexists. split; [exact T1|]. repeat constructor. }
  unfold so_settimeout, emit at 1. simpl.
  match goal with |- context [so_recv 16 ?s] => set (st2 := s) end.
  assert (T2 : trace st2 = trace st ++ [EvSend msg; EvSetTimeout 5]).
  { unfold st2. simpl. rewrite T1, <- app_assoc. reflexivity. }
  destruct (so_recv 16 st2) as [[header|e] st3] eqn:E3;
    apply so_recv_extends in E3; destruct E3 as (T3 & _).
  2:{ intros H; inv H. eexists. rewrite T3, T2, <- app_assoc.
      split; [reflexivity|]. repeat constructor; simpl; auto. }
  assert (T : trace st3 = trace st ++ [EvSend msg; EvSetTimeout 5; EvRecv 16]).
  { rewrite T3, T2, <- app_assoc. reflexivity. }
  assert (F : Forall capped_read [EvSend msg; EvSetTimeout 5; EvRecv 16]).
  { repeat constructor; simpl; auto. }
  assert (stop : forall x, (x, st3) = (r, st') ->
            exists t, trace st' = trace st ++ t /\ Forall capped_read t).
  { intros x H. inv H. eauto. }
  destruct (negb (len header =? 16)); [apply stop|].
  destruct (unpackHead header) as [[json_data_len back_req_num]|]; [|apply stop].
  match goal with
  | |- context [if ?c then ret Continued else _] => destruct c eqn:Big
  end; [apply stop|].
  assert (tail : forall (text : string) st4 u,
             trace st4 = trace st ++ u -> Forall capped_read u ->
             (resp_json <- loads text;;
              ret_code <- lift (get resp_json "ret_code" (JNum (Fin 0)));;
              (if eq_zero ret_code then ret Returned else ret FellThrough)) st4 = (r, st') ->
             exists t, trace st' = trace st ++ t /\ Forall capped_read t).
  { intros text st4 u Hu Hq. unfold bind, loads, lift, ret, raise.
    destruct (json_loads text); [|intros H; inv H; eauto].
    destruct (get j "ret_code" (JNum (Fin 0))); [|intros H; inv H; eauto].
    destruct (eq_zero a); intros H; inv H; eauto. }
  destruct (json_data_len >? 0) eqn:Pos.
  - assert (F4 : Forall capped_read
                   ([EvSend msg; EvSetTimeout 5; EvRecv 16] ++ [EvRecv json_data_len])).
    { apply Forall_app. split; [exact F|]. constructor; [simpl; lia|constructor]. }
    destruct (so_recv json_data_len st3) as [[data|e] st4] eqn:E4;
      apply so_recv_extends in E4; destruct E4 as (T4 & _);
      rewrite T, <- app_assoc in T4.
    + unfold decode. destruct (decode_utf8 data).
      * unfold ret at 1. eapply tail; [exact T4|exact F4].
      * unfold raise. intros H; inv H. eexists.
        split; [exact T4|exact F4].
    + intros H; inv H. eexists.
      split; [exact T4|exact F4].
  - unfold ret at 1. eapply tail; [exact T|exact F].
Qed.

Lemma iteration_capped i retry msg st r st' :
  iteration i retry msg st = (r, st') ->
  has_socket st = true ->
  exists t, trace st' = trace st ++ t /\ Forall capped_read t /\
            has_socket st' = true.
Proof.
  intros H Hs. unfold iteration in H.
  destruct (exchange msg st) as [ro st1] eqn:E.
  pose proof (exchange_extends _ _ E) as (t0 & (_ & _ & S1 & _) & _).
  rewrite Hs in S1.
  apply exchange_capped in E. destruct E as (t & Et & Ft).
  assert (soft : forall r0 st0, (pause i retry;; ret (@None bool)) st1 = (r0, st0) ->
            exists t, trace st0 = trace st ++ t /\ Forall capped_read t /\
                      has_socket st0 = true).
  { intros r0 st0 K. apply pause_trace in K. destruct K as (_ & K1 & K2).
    eexists. rewrite K2, Et, <- app_assoc. split; [reflexivity|].
    split; [|congruence]. apply Forall_app. split; [exact Ft|].
    destruct (i <? retry); repeat constructor. }
  destruct ro as [[]|e].
  - inv H. eauto.
  - inv H. eauto.
  - eapply soft; eauto.
  - destruct e; try (eapply soft; eauto; fail).
    unfold bind at 1 in H.
    destruct (reconnect i retry st1) as [[[]|e] st2] eqn:R;
      apply reconnect_trace in R; auto; destruct R as (R1 & R2).
    + apply pause_trace in H. destruct H as (_ & K1 & K2).
      eexists. rewrite K2, R2, Et, <- !app_assoc. split; [reflexivity|].
      split; [|congruence]. apply Forall_app. split; [exact Ft|].
      destruct (i <? retry); repeat constructor.
    + inv H. eexists. rewrite R2, Et, <- !app_assoc. split; [reflexivity|].
      split; [|congruence]. apply Forall_app. split; [exact Ft|].
      destruct (i <? retry); repeat constructor.
Qed.

Lemma attempts_capped n : forall i retry msg st r st',
  attempts n i retry msg st = (r, st') ->
  has_socket st = true ->
  exists t, trace st' = trace st ++ t /\ Forall capped_read t.
Proof.
  induction n as [|n IH]; intros i retry msg st r st' H Hs.
  - inv H. exists []. rewrite app_nil_r. auto.
  - simpl in H. unfold bind in H.
    destruct (iteration i retry msg st) as [r1 st1] eqn:E.
    apply iteration_capped in E; auto. destruct E as (t & Et & Ft & Hs1).
    destruct r1 as [[b|]|e].
    + inv H. eauto.
    + apply IH in H; auto. destruct H as (t2 & Et2 & Ft2).
      exists (t ++ t2). rewrite Et2, Et, <- app_assoc. split; [reflexivity|].
      apply Forall_app. auto.
    + inv H. eauto.
Qed.

(** Property X7.  Every read [send_control_command] asks of the socket is
    the 16-byte header read or a body read of at least 1 and at most
    10 x 1024 x 1024 bytes. *)
Theorem reads_are_capped api_type params retry st :
  exists t,
    trace (snd (send_control_command api_type params retry st)) = trace st ++ t /\
    Forall capped_read t.
Proof.
  unfold send_control_command.
  assert (idle : exists t, trace st = trace st ++ t /\ Forall capped_read t).
  { exists []. rewrite app_nil_r. auto. }
  destruct (so st) eqn:Es; [|exact idle].
  destruct (packMsg 1 api_type params) as [[|b msg]|]; try exact idle.
  destruct (attempts (Z.to_nat (retry + 1)) 0 retry (b :: msg) st) as [r st'] eqn:A.
  apply attempts_capped in A; [exact A|].
  unfold has_socket. rewrite Es. reflexivity.
Qed.

Lemma main_loop_traffic keys : forall st r st1,
  main_loop keys st = (r, st1) ->
  exists t, trace st1 = trace st ++ t /\
            (count is_send t <= 2 * List.length keys)%nat /\
            (count is_sleep t <= List.length keys)%nat /\
            (count is_ros t <= 2 * List.length keys)%nat.
Proof.
  induction keys as [|k keys IH]; intros st r st1 H.
  - inv H. exists []. rewrite app_nil_r. cbn. auto.
  - simpl in H. unfold bind at 1 in H.
    destruct (update_speed_levels k st) as (sta & Hu & _ & _ & Ta & _).
    rewrite Hu in H.
    unfold bind at 1 in H. unfold emit at 1 in H.
    set (stb := mkWorld (so sta) (vx sta) (vy sta) (w sta) (net sta)
                        (trace sta ++ [EvPublish (vx sta) (w sta)])) in H.
    unfold bind at 1 in H.
    destruct (send_control_command robot_control_motion_req (motion_params stb) 1 stb)
      as [rc stc] eqn:Ec.
    pose proof (send_control_command_bounds _ _ _ _ Ec) as (tc & Tc & B1 & B2 & _).
    pose proof (send_control_command_quiet_ros _ _ _ _ Ec) as (tc' & Tc' & R & _).
    rewrite Tc in Tc'. apply app_inv_head in Tc'. subst tc'.
    change (Z.to_nat (1 + 1)) with 2%nat in B1.
    change (Z.to_nat 1) with 1%nat in B2.
    assert (Tb : trace stc = trace st ++ EvPublish (vx sta) (w sta) :: tc).
    { rewrite Tc. unfold stb. simpl. rewrite Ta, <- app_assoc. reflexivity. }
    destruct rc as [b|e].
    + unfold bind at 1 in H. unfold emit at 1 in H.
      apply IH in H. destruct H as (t & Et & C1 & C2 & C3). simpl in Et.
      exists ((EvPublish (vx sta) (w sta) :: tc) ++ EvRateSleep :: t).
      split; [rewrite Et, Tb, <- !app_assoc; reflexivity|].
      rewrite !count_app, !count_cons. simpl List.length. cbn [is_send is_sleep is_ros].
      lia.
    + inv H. eexists. split; [exact Tb|].
      rewrite !count_cons. simpl List.length. cbn [is_send is_sleep is_ros]. lia.
Qed.

(** Property X3.  A run of [agv_keyboard_control] that makes [n] passes
    through its loop sends at most [2 n + 1] frames (two attempts per motion
    command, one for the stop command), waits 0.5 s at most [n] times, and
    makes at most [2 n] calls to the ROS side. *)
Theorem traffic_is_bounded keys st :
  exists t,
    trace (snd (agv_keyboard_control keys st)) = trace st ++ t /\
    (count is_send t <= 2 * List.length keys + 1)%nat /\
    (count is_sleep t <= List.length keys)%nat /\
    (count is_ros t <= 2 * List.length keys)%nat.
Proof.
  unfold agv_keyboard_control.
  destruct ((so_new;; so_connect;; main_loop keys) st) as [r st1] eqn:E.
  assert (H1 : exists pre, trace st1 = trace st ++ pre /\ has_socket st1 = true /\
                 (count is_send pre <= 2 * List.length keys)%nat /\
                 (count is_sleep pre <= List.length keys)%nat /\
                 (count is_ros pre <= 2 * List.length keys)%nat).
  { change ((so_new;; so_connect;; main_loop keys) st)
      with (match so_new st with
            | (Ret a, sta) => (so_connect;; main_loop keys) sta
            | (Raise e, sta) => (Raise e, sta)
            end) in E.
    unfold so_new at 1 in E.
    set (sta := set_so (Some unconnected) st) in E.
    unfold bind in E.
    destruct (so_connect sta) as [rc stb] eqn:Ec.
    assert (Hb : has_socket stb = true /\
                 trace stb = trace st ++ [EvConnect AGV_IP CONTROL_PORT]).
    { revert Ec. unfold so_connect, bind, emit, set_so, set_net, has_socket, sta.
      simpl. destruct (net st) as [|[|q f] rest]; intros H; inv H; simpl; auto. }
    destruct Hb as (Sb & Tb).
    destruct rc as [[]|e].
    - pose proof (main_loop_trace _ _ E) as (t0 & _ & Es0).
      apply main_loop_traffic in E. destruct E as (t & Et & C1 & C2 & C3).
      eexists. rewrite Et, Tb, <- app_assoc. split; [reflexivity|].
      split; [congruence|]. simpl app. rewrite !count_cons.
      cbn [is_send is_sleep is_ros]. lia.
    - inv E. eexists. split; [exact Tb|]. split; [exact Sb|]. cbn. lia. }
  destruct H1 as (pre & T1 & S1 & C1 & C2 & C3).
  destruct (shutdown_balance st1 S1) as (t & st' & R & T2 & _ & _ & Cr & _).
  pose proof R as R'. unfold shutdown in R'.
  destruct (so st1) eqn:Es; [|unfold has_socket in S1; rewrite Es in S1; discriminate].
  unfold bind at 1 in R'.
  destruct (send_control_command robot_control_stop_req (JObj []) 0 st1)
    as [rs st2] eqn:Eq.
  pose proof (send_control_command_bounds _ _ _ _ Eq) as (ts & Ts & B1 & B2 & _).
  change (Z.to_nat (0 + 1)) with 1%nat in B1. change (Z.to_nat 0) with 0%nat in B2.
  assert (Hts : t = ts).
  { destruct rs as [b|e].
    - revert R'. unfold so_close, bind, emit, on_so. simpl.
      destruct (so st2); intros K; inv K.
      simpl in T2. rewrite Ts, <- app_assoc in T2.
      apply app_inv_head in T2. apply app_inj_tail in T2. symmetry. tauto.
    - discriminate. }
  subst ts. rewrite R. simpl.
  exists (pre ++ t ++ [EvClose]). rewrite T2, T1, <- app_assoc.
  split; [reflexivity|]. rewrite !count_app. cbn. lia.
Qed.

End WithExternals.
End ControlMore.

(** ** agv_laser_get.py: connecting, reading and filtering *)

Module LaserMore.
Import LaserGet LaserFacts.

Lemma recv_queue_le bufsize : forall q c q',
  recv_queue bufsize q = (Ret c, q') -> (List.length c <= bufsize)%nat.
Proof.
  induction q as [|ev q IH]; intros c q' H.
  - inv H. simpl. lia.
  - destruct ev as [[|b l]| |]; cbn [recv_queue] in H; try discriminate.
    + eapply IH; eauto.
    + destruct (List.length (b :: l) <=? bufsize)%nat eqn:L; inv H.
      * apply Nat.leb_le in L. exact L.
      * rewrite length_firstn. lia.
Qed.

Lemma recv_any n st r st' :
  recv n st = (r, st') ->
  trace st' = trace st ++ [EvRecv n] /\ net st' = net st /\
  forall c, r = Ret c -> (List.length c <= Z.to_nat n)%nat.
Proof.
  unfold recv, bind, emit, on_sock. simpl.
  destruct (sock st) as [s|]; [|intros H; inv H; simpl; repeat split; discriminate].
  unfold sock_recv. destruct (connected s).
  - destruct (recv_queue (Z.to_nat n) (inbox s)) as [r0 q] eqn:R.
    intros H; inv H. simpl. repeat split. intros c ->.
    eapply recv_queue_le; eauto.
  - intros H; inv H. simpl. repeat split. discriminate.
Qed.

Lemma bounded_read_mono cap cap' e :
  cap' <= cap -> bounded_read cap' e -> bounded_read cap e.
Proof. destruct e; simpl; try tauto. lia. Qed.

Lemma receive_loop_any : forall fuel received remaining st r st',
  receive_loop fuel received remaining st = (r, st') ->
  exists t,
    trace st' = trace st ++ t /\ net st' = net st /\
    Forall (bounded_read remaining) t /\
    (0 <= remaining -> forall out, r = Ret (Some out) ->
       (Z.to_nat remaining <= fuel)%nat ->
       len out = len received + remaining).
Proof.
  induction fuel as [|fuel IH]; intros received remaining st r st' H.
  - simpl in H. destruct (remaining >? 0) eqn:G; inv H;
      exists []; rewrite app_nil_r; repeat split; auto;
      intros Hr out E Hf; inv E; lia.
  - cbn [receive_loop] in H. destruct (remaining >? 0) eqn:G.
    + apply Z.gtb_lt in G. unfold bind in H.
      destruct (recv (Z.min remaining 8192) st) as [[chunk|e] st1] eqn:R.
      * apply recv_any in R. destruct R as (T1 & N1 & L1).
        specialize (L1 chunk eq_refl).
        assert (B : bounded_read remaining (EvRecv (Z.min remaining 8192)))
          by (simpl; lia).
        destruct chunk as [|b c].
        -- inv H. exists [EvRecv (Z.min remaining 8192)].
           repeat split; auto. discriminate.
        -- set (chunk := b :: c) in *.
           assert (Hpos : 0 < len chunk) by (unfold len, chunk; simpl; lia).
           assert (Hle : len chunk <= remaining) by (unfold len; lia).
           apply IH in H. destruct H as (t & T & N & F & K).
           exists (EvRecv (Z.min remaining 8192) :: t).
           rewrite T, T1, <- app_assoc. split; [reflexivity|].
           split; [congruence|]. split.
           ++ constructor; [exact B|].
              eapply Forall_impl; [|exact F].
              intros e. apply bounded_read_mono. lia.
           ++ intros Hr out E Hf. rewrite (K ltac:(lia) out E ltac:(lia)).
              rewrite len_app. lia.
      * inv H. apply recv_any in R. destruct R as (T1 & N1 & _).
        exists [EvRecv (Z.min remaining 8192)]. repeat split; auto.
        -- constructor; [simpl; lia|constructor].
        -- discriminate.
    + inv H. exists []. rewrite app_nil_r. repeat split; auto.
      intros Hr out E Hf. inv E. lia.
Qed.

Lemma receive_full_data_calls expected_len st :
  exists t,
    trace (snd (receive_full_data expected_len st)) = trace st ++ t /\
    net (snd (receive_full_data expected_len st)) = net st /\
    Forall (bounded_read expected_len) t.
Proof.
  unfold receive_full_data, bind.
  destruct (receive_loop (Z.to_nat expected_len) [] expected_len st)
    as [r st1] eqn:L.
  apply receive_loop_any in L. destruct L as (t & T & N & F & _).
  exists t. destruct r as [[received|]|e]; simpl;
    try destruct (negb (len received =? expected_len)); simpl; auto.
Qed.

(** Property X9.  Every read [receive_full_data] asks of the socket is for
    at least 1 byte, at most 8192 bytes and at most the expected length;
    nothing else is called. *)
Theorem body_reads_are_bounded expected_len st :
  exists t,
    trace (snd (receive_full_data expected_len st)) = trace st ++ t /\
    net (snd (receive_full_data expected_len st)) = net st /\
    Forall (bounded_read expected_len) t.
Proof. apply receive_full_data_calls. Qed.

(** Property X10.  For a non-negative expected length, [receive_full_data]
    returns [None] only from inside its loop, when a read gave no data: the
    length test after the loop never fails, because no read returns more
    than was asked for. *)
Theorem length_check_never_fails expected_len st st' :
  0 <= expected_len ->
  receive_full_data expected_len st = (Ret None, st') ->
  receive_loop (Z.to_nat expected_len) [] expected_len st = (Ret None, st').
Proof.
  intros Hn. unfold receive_full_data, bind.
  destruct (receive_loop (Z.to_nat expected_len) [] expected_len st)
    as [r st1] eqn:L.
  destruct r as [[received|]|e]; try discriminate.
  - apply receive_loop_any in L. destruct L as (_ & _ & _ & _ & K).
    rewrite (K Hn received eq_refl (Nat.le_refl _)).
    change (len []) with 0. rewrite Z.add_0_l, Z.eqb_refl. discriminate.
  - intros H; inv H. reflexivity.
Qed.

(** Property X11.  [receive_full_data] takes exactly the bytes it returns
    off the stream: two calls in a row return the first [a] bytes and then
    the next [b] bytes, and what follows them stays in the socket, however
    the stream is cut into segments. *)
Theorem consecutive_body_reads st chunks rest a b :
  receiving st chunks rest ->
  0 <= a -> 0 <= b -> a + b <= len (List.concat chunks) ->
  exists st1 st2 chunks',
    receive_full_data a st =
      (Ret (Some (firstn (Z.to_nat a) (List.concat chunks))), st1) /\
    receive_full_data b st1 =
      (Ret (Some (firstn (Z.to_nat b)
                         (skipn (Z.to_nat a) (List.concat chunks)))), st2) /\
    receiving st2 chunks' rest /\
    List.concat chunks' = skipn (Z.to_nat (a + b)) (List.concat chunks).
Proof.
  intros Hs Ha Hb Hab.
  destruct (@receive_full_data_accumulates rest a st chunks Hs)
    as (st1 & chunks1 & t1 & R1 & Hs1 & C1 & _); [lia|].
  assert (L1 : len (List.concat chunks1) = len (List.concat chunks) - a).
  { rewrite C1. unfold len in *. rewrite length_skipn. lia. }
  destruct (@receive_full_data_accumulates rest b st1 chunks1 Hs1)
    as (st2 & chunks2 & t2 & R2 & Hs2 & C2 & _); [lia|].
  exists st1, st2, chunks2. rewrite C1 in R2, C2.
  repeat split; auto.
  rewrite C2, skipn_skipn. f_equal. lia.
Qed.

(** *** Connecting *)

Section Connecting.
Variable cfg : config.

Lemma connect_to_agv_run st :
  exists st' t,
    connect_to_agv cfg st = (Ret (negb (all_refused 3 (net st))), st') /\
    trace st' = trace st ++ EvSetTimeout (TIMEOUT cfg) :: t /\
    (1 <= count is_connect t <= 3)%nat /\
    count is_connect t = S (count is_sleep t) /\
    count is_close t = 0%nat /\ count is_send t = 0%nat /\
    (all_refused 3 (net st) = true ->
       count is_connect t = 3%nat /\ sock st' = Some unconnected) /\
    (all_refused 3 (net st) = false ->
       exists q f, sock st' = Some (mkSocket true q f)).
Proof.
  unfold connect_to_agv, bind, sock_new, emit. simpl.
  unfold connect, bind, emit. simpl.
  destruct (net st) as [|[|q1 f1] [|[|q2 f2] [|[|q3 f3] rest]]]; simpl;
    eexists; eexists; (split; [reflexivity|]); simpl;
    rewrite <- ?app_assoc; simpl;
    (split; [reflexivity|]); cbn;
    repeat split; try lia; try discriminate; eauto.
Qed.


End Connecting.

(** *** The whole acquisition *)

Section Acquisition.
Context {ext : Externals}.
Variable cfg : config.

Lemma bounded_read_counts cap t :
  Forall (bounded_read cap) t ->
  count is_close t = 0%nat /\ count is_connect t = 0%nat /\
  count is_sleep t = 0%nat /\ count is_send t = 0%nat.
Proof.
  induction 1 as [|e t He _ IH]; [cbn; auto|].
  destruct e; simpl in He; try contradiction.
  rewrite !ControlFacts.count_cons. simpl. exact IH.
Qed.

Lemma request_header_any request st r st1 :
  request_header request st = (r, st1) ->
  exists t, trace st1 = trace st ++ EvSend request :: t /\
            (t = [] \/ t = [EvRecv 16]).
Proof.
  unfold request_header, send, bind. unfold emit at 1. simpl.
  set (sta := mkWorld (sock st) (net st) (trace st ++ [EvSend request])).
  destruct (on_sock sock_send sta) as [[[]|e] stb] eqn:E.
  - assert (Tb : trace stb = trace st ++ [EvSend request]).
    { revert E. unfold on_sock, sta. simpl. destruct (sock st); [|discriminate].
      destruct (sock_send s). intros H; inv H. reflexivity. }
    intros H. apply recv_any in H. destruct H as (T & _).
    exists [EvRecv 16]. rewrite T, Tb, <- app_assoc. auto.
  - intros H; inv H. exists [].
    revert E. unfold on_sock, sta. simpl. destruct (sock st).
    + destruct (sock_send s). intros H; inv H. auto.
    + intros H; inv H. auto.
Qed.

(** The acquisition only sends the request and reads. *)
Lemma acquire_calls st r st' :
  acquire cfg st = (r, st') ->
  exists t,
    trace st' = trace st ++ t /\
    count is_close t = 0%nat /\ count is_connect t = 0%nat /\
    count is_sleep t = 0%nat /\ (count is_send t <= 1)%nat.
Proof.
  rewrite acquire_after_header.
  assert (idle : forall x, (x, st) = (r, st') ->
            exists t, trace st' = trace st ++ t /\
              count is_close t = 0%nat /\ count is_connect t = 0%nat /\
              count is_sleep t = 0%nat /\ (count is_send t <= 1)%nat).
  { intros x H. inv H. exists []. rewrite app_nil_r. cbn.
    repeat split; auto. }
  destruct (packMsg 1 robot_status_laser_req (req_params cfg)) as [[|b m]|];
    try apply idle.
  destruct (request_header (b :: m) st) as [rh st1] eqn:Eh.
  apply request_header_any in Eh. destruct Eh as (th & Th & Hth).
  assert (Ch : count is_close (EvSend (b :: m) :: th) = 0%nat /\
               count is_connect (EvSend (b :: m) :: th) = 0%nat /\
               count is_sleep (EvSend (b :: m) :: th) = 0%nat /\
               count is_send (EvSend (b :: m) :: th) = 1%nat).
  { destruct Hth as [-> | ->]; cbn; repeat split; try reflexivity. }
  assert (stop : forall x, (x, st1) = (r, st') ->
            exists t, trace st' = trace st ++ t /\
              count is_close t = 0%nat /\ count is_connect t = 0%nat /\
              count is_sleep t = 0%nat /\ (count is_send t <= 1)%nat).
  { intros x H. inv H. eexists. split; [exact Th|].
    destruct Ch as (A & B & C & D). rewrite D. auto. }
  destruct rh as [header|e]; [|apply stop].
  destruct (negb (len header =? 16)); [apply stop|].
  destruct (unpackHead header) as [[json_data_len resp_type]|]; [|apply stop].
  destruct (json_data_len >? MAX_DATA_LEN); [apply stop|].
  destruct (json_data_len <? 0); [apply stop|].
  destruct (negb (resp_type =? ROBOT_STATUS_LASER_RESP)); [apply stop|].
  unfold bind at 1.
  destruct (receive_full_data_calls json_data_len st1) as (tb & Tb & _ & Fb).
  destruct (receive_full_data json_data_len st1) as [rb st2]. simpl in Tb.
  apply bounded_read_counts in Fb. destruct Fb as (B1 & B2 & B3 & B4).
  assert (after : forall x, (x, st2) = (r, st') ->
            exists t, trace st' = trace st ++ t /\
              count is_close t = 0%nat /\ count is_connect t = 0%nat /\
              count is_sleep t = 0%nat /\ (count is_send t <= 1)%nat).
  { intros x H. inv H. exists ((EvSend (b :: m) :: th) ++ tb).
    rewrite Tb, Th, <- app_assoc. split; [reflexivity|].
    destruct Ch as (A & B & C & D).
    rewrite !(count_app _ (EvSend (b :: m) :: th)), A, B, C, D, B1, B2, B3, B4.
    auto. }
  destruct rb as [[[|d data]|]|e]; try apply after.
  unfold bind, parse_body.
  destruct (decode_utf8 (d :: data)) as [text|]; [|apply after].
  destruct (json_loads text) as [v|]; [|apply after].
  unfold ret, lift. apply after.
Qed.

(** Property X14.  Once [connect_to_agv] has a connection,
    [get_laser_from_agv] returns a value whatever the peer does (no
    exception leaves it), sends at most one request, and closes the socket
    exactly once, as its last outside call. *)
Theorem socket_closed_after_connection st :
  validate_configuration cfg = true -> validate_laser_params cfg = true ->
  all_refused 3 (net st) = false ->
  exists r st' t,
    get_laser_from_agv cfg st = (Ret r, st') /\
    trace st' = trace st ++ t ++ [EvClose] /\
    count is_close t = 0%nat /\ (count is_send t <= 1)%nat.
Proof.
  intros V1 V2 Hn.
  destruct (connect_to_agv_run cfg st)
    as (st0 & tc & C & Tc & _ & _ & Cc & Sc & _).
  rewrite Hn in C. simpl in C.
  rewrite get_laser_run with (st0 := st0) by assumption.
  destruct (acquire cfg st0) as [ra st2] eqn:A. simpl.
  apply acquire_calls in A. destruct A as (ta & Ta & A1 & _ & _ & A4).
  exists (match ra with Ret v => v | Raise _ => None end).
  exists (snd (close st2)), ((EvSetTimeout (TIMEOUT cfg) :: tc) ++ ta).
  split; [destruct ra; reflexivity|].
  rewrite close_trace, Ta, Tc, <- !app_assoc. split; [reflexivity|].
  rewrite !count_app, !ControlFacts.count_cons. simpl. lia.
Qed.

(** Property X13.  [get_laser_from_agv] does not return [None] when the
    configuration is rejected or when no connection can be made: the
    [sock.close()] of its [finally] clause raises.  With a rejected
    configuration it raises [UnboundLocalError] before any outside call;
    after three refused connections (and two waits) it raises
    [AttributeError], with nothing sent and nothing closed. *)
Theorem failed_connection_raises st :
  (validate_configuration cfg = false \/ validate_laser_params cfg = false ->
   get_laser_from_agv cfg st = (Raise UnboundLocalError, st)) /\
  (validate_configuration cfg = true -> validate_laser_params cfg = true ->
   all_refused 3 (net st) = true ->
   exists st' t,
     get_laser_from_agv cfg st = (Raise AttributeError, st') /\
     trace st' = trace st ++ t /\
     count is_connect t = 3%nat /\ count is_sleep t = 2%nat /\
     count is_close t = 0%nat /\ count is_send t = 0%nat).
Proof.
  split.
  - intros H. unfold get_laser_from_agv.
    destruct H as [-> | ->]; simpl; [reflexivity|].
    rewrite orb_true_r. reflexivity.
  - intros V1 V2 Hn.
    destruct (connect_to_agv_run cfg st)
      as (st0 & tc & C & Tc & _ & Cs & Cc & Sc & Href & _).
    rewrite Hn in C. simpl in C. destruct (Href Hn) as (C3 & _).
    unfold get_laser_from_agv. rewrite V1, V2, C. simpl.
    exists st0, (EvSetTimeout (TIMEOUT cfg) :: tc).
    split; [reflexivity|]. split; [exact Tc|].
    rewrite !ControlFacts.count_cons. simpl. lia.
Qed.

(** Property X15.  A response header that declares no payload (length zero
    or negative) or carries a response type other than 11009 ends the
    acquisition with [None] without any body read. *)
Theorem rejected_header_skips_body
    st request header json_data_len resp_type st1 :
  packMsg 1 robot_status_laser_req (req_params cfg) = Some request ->
  request <> [] ->
  request_header request st = (Ret header, st1) ->
  len header = 16 ->
  unpackHead header = Some (json_data_len, resp_type) ->
  json_data_len <= 0 \/ resp_type <> ROBOT_STATUS_LASER_RESP ->
  acquire cfg st = (Ret None, st1) /\
  trace st1 = trace st ++ [EvSend request; EvRecv 16].
Proof.
  intros Hp Hm Hh Hl Hu Hc. split; [|apply (request_header_trace _ _ Hh)].
  rewrite acquire_after_header, Hp.
  destruct request as [|b m]; [congruence|]. rewrite Hh, Hl.
  change (negb (16 =? 16)) with false. cbv iota. rewrite Hu.
  destruct (json_data_len >? MAX_DATA_LEN); [reflexivity|].
  destruct (json_data_len <? 0) eqn:Neg; [reflexivity|].
  destruct (resp_type =? ROBOT_STATUS_LASER_RESP) eqn:Ty; [|reflexivity].
  simpl negb. cbv iota.
  destruct Hc as [Hc|Hc]; [|apply Z.eqb_eq in Ty; contradiction].
  assert (json_data_len = 0) as -> by lia.
  reflexivity.
Qed.

Lemma select_beam_point beam p :
  select_beam cfg beam = Ret (Some p) -> point_in_range cfg p.
Proof.
  unfold select_beam, rbind, point_in_range.
  destruct (contains "angle" beam) as [[]|]; try discriminate. cbn [negb].
  destruct (contains "dist" beam) as [[]|]; try discriminate. cbn [negb].
  destruct (get beam "valid" (JBool false)) as [valid|]; try discriminate.
  destruct (negb (truthy valid)); try discriminate.
  destruct (getitem beam "dist") as [dist|]; try discriminate.
  destruct (as_number dist) as [d|] eqn:D; try discriminate.
  destruct (num_le (Fin (LASER_RANGE_MIN cfg)) d) eqn:L1; try discriminate.
  destruct (num_le d (Fin (LASER_RANGE_MAX cfg))) eqn:L2; try discriminate.
  cbn [andb].
  destruct (getitem beam "angle") as [angle|]; try discriminate.
  intros H; inv H. exists angle, dist, d. repeat split; auto.
Qed.

Lemma scan_beams_points : forall items acc out,
  Forall (point_in_range cfg) acc ->
  scan_beams cfg items acc = Ret out -> Forall (point_in_range cfg) out.
Proof.
  induction items as [|beam items IH]; intros acc out Ha H.
  - inv H. exact Ha.
  - cbn [scan_beams] in H. unfold rbind in H.
    destruct (select_beam cfg beam) as [[p|]|] eqn:S; try discriminate.
    + apply select_beam_point in S. eapply IH; [|exact H].
      apply Forall_app. split; [exact Ha|]. constructor; [exact S|constructor].
    + eapply IH; eauto.
Qed.

Lemma scan_lasers_points : forall groups acc out,
  Forall (point_in_range cfg) acc ->
  scan_lasers cfg groups acc = Ret out -> Forall (point_in_range cfg) out.
Proof.
  induction groups as [|g groups IH]; intros acc out Ha H.
  - inv H. exact Ha.
  - cbn [scan_lasers] in H. unfold rbind in H.
    destruct (get g "beams" (JArr [])) as [bv|]; try discriminate.
    destruct (iter bv) as [items|]; try discriminate.
    destruct (scan_beams cfg items acc) as [acc'|] eqn:S; try discriminate.
    apply scan_beams_points in S; auto. eapply IH; eauto.
Qed.

Lemma extract_beams_points laser_json points :
  extract_beams cfg laser_json = Ret (Some points) ->
  Forall (point_in_range cfg) points.
Proof.
  unfold extract_beams, rbind.
  destruct (get laser_json "lasers" (JArr [])) as [[| | | |groups|]|e];
    try discriminate.
  destruct groups as [|g groups]; [discriminate|].
  destruct (scan_lasers cfg (g :: groups) []) as [[|p ps]|e] eqn:S;
    try discriminate.
  intros H; inv H. eapply scan_lasers_points; [|exact S]. constructor.
Qed.

Lemma acquire_points st points st' :
  acquire cfg st = (Ret (Some points), st') ->
  Forall (point_in_range cfg) points.
Proof.
  rewrite acquire_after_header.
  destruct (packMsg 1 robot_status_laser_req (req_params cfg)) as [[|b m]|];
    try discriminate.
  destruct (request_header (b :: m) st) as [[header|e] st1]; [|discriminate].
  destruct (negb (len header =? 16)); [discriminate|].
  destruct (unpackHead header) as [[json_data_len resp_type]|]; [|discriminate].
  destruct (json_data_len >? MAX_DATA_LEN); [discriminate|].
  destruct (json_data_len <? 0); [discriminate|].
  destruct (negb (resp_type =? ROBOT_STATUS_LASER_RESP)); [discriminate|].
  unfold bind.
  destruct (receive_full_data json_data_len st1) as [[[[|d data]|]|e] st2];
    try discriminate.
  unfold parse_body.
  destruct (decode_utf8 (d :: data)) as [text|]; [|discriminate].
  destruct (json_loads text) as [v|]; [|discriminate].
  unfold ret, lift. intros H. inv H.
  eapply extract_beams_points; eauto.
Qed.

(** Property X16.  For every payload, well typed or not, each point
    [get_laser_from_agv] returns is a two-element list [[angle, dist]] whose
    [dist] is a number within [[LASER_RANGE_MIN, LASER_RANGE_MAX]]. *)
Theorem points_are_pairs_in_range st points :
  fst (get_laser_from_agv cfg st) = Ret (Some points) ->
  Forall (point_in_range cfg) points.
Proof.
  unfold get_laser_from_agv.
  destruct (negb (validate_configuration cfg) || negb (validate_laser_params cfg));
    [discriminate|].
  destruct (connect_to_agv cfg st) as [[[]|e] st0]; try discriminate.
  destruct (acquire cfg st0) as [[v|e] st2] eqn:A;
    destruct (close st2) as [u st3]; simpl; [|discriminate].
  intros H. inv H. eapply acquire_points; eauto.
Qed.

(** *** Exceptions and order in the filter *)

Lemma scan_beams_raises : forall items acc beam e,
  In beam items -> select_beam cfg beam = Raise e ->
  exists e', scan_beams cfg items acc = Raise e'.
Proof.
  induction items as [|b items IH]; intros acc beam e Hin Hs; [contradiction|].
  cbn [scan_beams]. unfold rbind.
  destruct (select_beam cfg b) as [[p|]|e0] eqn:S.
  - destruct Hin as [->|Hin]; [congruence|]. eapply IH; eauto.
  - destruct Hin as [->|Hin]; [congruence|]. eapply IH; eauto.
  - eauto.
Qed.

Lemma scan_lasers_raises : forall groups acc fields items beam e,
  In (JObj fields) groups ->
  assoc "beams" fields = Some (JArr items) ->
  In beam items -> select_beam cfg beam = Raise e ->
  exists e', scan_lasers cfg groups acc = Raise e'.
Proof.
  induction groups as [|g groups IH]; intros acc fields items beam e Hg Hb Hin Hs;
    [contradiction|].
  cbn [scan_lasers]. unfold rbind.
  destruct Hg as [->|Hg].
  - simpl get. rewrite Hb. simpl iter.
    edestruct scan_beams_raises with (items := items) (acc := acc)
      as (e' & E'); eauto.
    rewrite E'. eauto.
  - destruct (get g "beams" (JArr [])) as [bv|]; [|eauto].
    destruct (iter bv) as [its|]; [|eauto].
    destruct (scan_beams cfg its acc) as [acc'|]; [|eauto].
    eapply IH; eauto.
Qed.

(** Property X17.  One beam on which the filter raises (for instance a
    valid beam whose [dist] is a string) makes the whole extraction raise,
    whatever the other beams and groups hold; [get_laser_from_agv] turns
    that into [None] (X14), so the valid beams of the frame are lost. *)
Theorem bad_beam_discards_frame lasers_fields groups fields items beam e :
  assoc "lasers" lasers_fields = Some (JArr groups) ->
  In (JObj fields) groups ->
  assoc "beams" fields = Some (JArr items) ->
  In beam items ->
  select_beam cfg beam = Raise e ->
  exists e', extract_beams cfg (JObj lasers_fields) = Raise e'.
Proof.
  intros Hl Hg Hb Hin Hs. unfold extract_beams. simpl get. rewrite Hl.
  simpl rbind. destruct groups as [|g groups]; [contradiction|].
  edestruct scan_lasers_raises with (groups := g :: groups)
    (acc := @nil (list json)) as (e' & E'); eauto.
  rewrite E'. simpl. eauto.
Qed.

Lemma scan_beams_acc : forall items acc,
  scan_beams cfg items acc =
  (do r <- scan_beams cfg items []; Ret (acc ++ r)).
Proof.
  induction items as [|beam items IH]; intros acc.
  - simpl. rewrite app_nil_r. reflexivity.
  - cbn [scan_beams]. unfold rbind.
    destruct (select_beam cfg beam) as [[p|]|e]; [| |reflexivity].
    + rewrite (IH (acc ++ [p])), (IH ([] ++ [p])). unfold rbind.
      destruct (scan_beams cfg items []); [|reflexivity].
      rewrite <- app_assoc. reflexivity.
    + rewrite (IH acc). reflexivity.
Qed.

Lemma scan_lasers_acc : forall groups acc,
  scan_lasers cfg groups acc =
  (do r <- scan_lasers cfg groups []; Ret (acc ++ r)).
Proof.
  induction groups as [|g groups IH]; intros acc.
  - simpl. rewrite app_nil_r. reflexivity.
  - cbn [scan_lasers]. unfold rbind.
    destruct (get g "beams" (JArr [])) as [bv|]; [|reflexivity].
    destruct (iter bv) as [items|]; [|reflexivity].
    rewrite (scan_beams_acc items acc). unfold rbind.
    destruct (scan_beams cfg items []) as [r0|]; [|reflexivity].
    rewrite (IH (acc ++ r0)), (IH r0). unfold rbind.
    destruct (scan_lasers cfg groups []); [|reflexivity].
    rewrite <- app_assoc. reflexivity.
Qed.

(** Property X18.  For every payload, the points of a list of groups are
    the points of its first part followed by the points of the rest: the
    filter keeps the order of the groups and treats each group on its
    own. *)
Theorem groups_concatenate groups1 groups2 :
  scan_lasers cfg (groups1 ++ groups2) [] =
  (do r1 <- scan_lasers cfg groups1 [];
   do r2 <- scan_lasers cfg groups2 [];
   Ret (r1 ++ r2)).
Proof.
  assert (G : forall acc,
            scan_lasers cfg (groups1 ++ groups2) acc =
            (do r1 <- scan_lasers cfg groups1 acc; scan_lasers cfg groups2 r1)).
  { induction groups1 as [|g groups1 IH]; intros acc; [reflexivity|].
    simpl app. cbn [scan_lasers]. unfold rbind.
    destruct (get g "beams" (JArr [])) as [bv|]; [|reflexivity].
    destruct (iter bv) as [items|]; [|reflexivity].
    destruct (scan_beams cfg items acc) as [acc'|]; [|reflexivity].
    apply IH. }
  rewrite G. unfold rbind.
  destruct (scan_lasers cfg groups1 []) as [r1|]; [|reflexivity].
  apply scan_lasers_acc.
Qed.

End Acquisition.

End LaserMore.

(** ** The further properties on the concrete device *)

Module MoreScenarios.
Import Fixture.
#[local] Existing Instance device.

Lemma false_means_all_attempts_sent_witness :
  let st := control_on (reply 12000 text_busy ++ reply 12000 text_ok) in
  exists t,
    Control.trace (snd (Control.send_control_command 2000 (JObj []) 1 st)) =
      Control.trace st ++ t /\
    (true = false -> count is_send t = Z.to_nat (1 + 1)) /\
    (true = true -> (1 <= count is_send t <= Z.to_nat (1 + 1))%nat /\
                    (count is_sleep t < count is_send t)%nat).
Proof.
  apply (@ControlMore.false_means_all_attempts_sent device 2000 (JObj []) 1
           (control_on (reply 12000 text_busy ++ reply 12000 text_ok))
           stop_msg true).
  - reflexivity.
  - reflexivity.
  - discriminate.
  - vm_compute. reflexivity.
Defined.

Lemma only_reconnect_failure_escapes_witness :
  let st := control_world (Some (wire [Broken])) [Refuse] in
  socket_error = socket_error /\ 1 <= 1 /\
  Control.so (snd (Control.send_control_command 2000 (JObj []) 1 st)) =
    Some unconnected.
Proof.
  apply (@ControlMore.only_reconnect_failure_escapes device 2000 (JObj []) 1
           (control_world (Some (wire [Broken])) [Refuse])).
  vm_compute. reflexivity.
Defined.

Lemma empty_payload_is_success_witness :
  let st := control_on [Data (header 1 0 12000)] in
  Control.send_control_command 2000 (JObj []) 1 st =
    (Ret true, snd (Control.read_header stop_msg st)) /\
  Control.trace (snd (Control.read_header stop_msg st)) =
    Control.trace st ++ [EvSend stop_msg; EvSetTimeout 5; EvRecv 16].
Proof.
  apply (@ControlMore.empty_payload_is_success device 2000 (JObj []) 1
           (control_on [Data (header 1 0 12000)]) stop_msg
           (header 1 0 12000) 0 12000).
  - reflexivity.
  - discriminate.
  - lia.
  - reflexivity.
  - reflexivity.
  - reflexivity.
  - lia.
  - reflexivity.
Defined.

Lemma refused_connection_still_stops_witness :
  let st := control_world None [Refuse] in
  exists st',
    Control.agv_keyboard_control [space_pressed; space_pressed] st = (Ret tt, st') /\
    Control.trace st' =
      Control.trace st ++
      [EvConnect Control.AGV_IP Control.CONTROL_PORT; EvSend stop_msg; EvClose] /\
    Control.vx st' = Control.vx st /\ Control.vy st' = Control.vy st /\
    Control.w st' = Control.w st.
Proof.
  apply (@ControlMore.refused_connection_still_stops device
           [space_pressed; space_pressed] (control_world None [Refuse]) stop_msg).
  - exact I.
  - reflexivity.
  - discriminate.
Defined.

Lemma length_check_never_fails_witness :
  let st := laser_connected [Data [x7b]; Data [x7d; x20]] in
  LaserGet.receive_loop (Z.to_nat 5) [] 5 st =
    (Ret None, snd (LaserGet.receive_full_data 5 st)).
Proof.
  apply (@LaserMore.length_check_never_fails 5
           (laser_connected [Data [x7b]; Data [x7d; x20]])).
  - lia.
  - vm_compute. reflexivity.
Defined.

Lemma consecutive_body_reads_witness :
  let st := laser_connected [Data [x7b]; Data []; Data [x7d; x20]; Data [x20]] in
  exists st1 st2 chunks',
    LaserGet.receive_full_data 1 st = (Ret (Some [x7b]), st1) /\
    LaserGet.receive_full_data 2 st1 = (Ret (Some [x7d; x20]), st2) /\
    LaserGet.receiving st2 chunks' [] /\
    List.concat chunks' = [x20].
Proof.
  apply (@LaserMore.consecutive_body_reads
           (laser_connected [Data [x7b]; Data []; Data [x7d; x20]; Data [x20]])
           [[x7b]; []; [x7d; x20]; [x20]] [] 1 2).
  - exists []. reflexivity.
  - lia.
  - lia.
  - vm_compute. discriminate.
Defined.

Lemma failed_connection_raises_witness :
  LaserGet.get_laser_from_agv foreign_config (laser_on []) =
    (Raise UnboundLocalError, laser_on []) /\
  (let st := laser_world [Refuse; Refuse; Refuse] in
   exists st' t,
     LaserGet.get_laser_from_agv LaserGet.default_config st =
       (Raise AttributeError, st') /\
     LaserGet.trace st' = LaserGet.trace st ++ t /\
     count is_connect t = 3%nat /\ count is_sleep t = 2%nat /\
     count is_close t = 0%nat /\ count is_send t = 0%nat).
Proof.
  split.
  - apply (proj1 (@LaserMore.failed_connection_raises device foreign_config
                    (laser_on []))).
    left. reflexivity.
  - apply (proj2 (@LaserMore.failed_connection_raises device
                    LaserGet.default_config
                    (laser_world [Refuse; Refuse; Refuse]))); reflexivity.
Defined.

Lemma socket_closed_after_connection_witness :
  let st := laser_world [Refuse; Accept [Stall] []] in
  exists r st' t,
    LaserGet.get_laser_from_agv LaserGet.default_config st = (Ret r, st') /\
    LaserGet.trace st' = LaserGet.trace st ++ t ++ [EvClose] /\
    count is_close t = 0%nat /\ (count is_send t <= 1)%nat.
Proof.
  apply (@LaserMore.socket_closed_after_connection device
           LaserGet.default_config
           (laser_world [Refuse; Accept [Stall] []])); reflexivity.
Defined.

Lemma rejected_header_skips_body_witness :
  let st := laser_connected (reply 12000 text_three) in
  LaserGet.acquire LaserGet.default_config st =
    (Ret None, snd (LaserGet.request_header laser_request st)) /\
  LaserGet.trace (snd (LaserGet.request_header laser_request st)) =
    LaserGet.trace st ++ [EvSend laser_request; EvRecv 16].
Proof.
  apply (@LaserMore.rejected_header_skips_body device LaserGet.default_config
           (laser_connected (reply 12000 text_three)) laser_request
           (header 1 138 12000) 138 12000).
  - reflexivity.
  - discriminate.
  - reflexivity.
  - reflexivity.
  - reflexivity.
  - right. discriminate.
Defined.

Lemma points_are_pairs_in_range_witness :
  Forall (LaserGet.point_in_range LaserGet.default_config)
         [[JNum (Fin 0); JNum (Fin 1)]].
Proof.
  apply (@LaserMore.points_are_pairs_in_range device LaserGet.default_config
           (laser_on [Data (frame 11009 text_three)])).
  vm_compute. reflexivity.
Defined.

Lemma bad_beam_discards_frame_witness :
  exists e,
    LaserGet.extract_beams LaserGet.default_config
      (lasers [beam 0 1 true; odd_beam]) = Raise e.
Proof.
  apply (@LaserMore.bad_beam_discards_frame LaserGet.default_config
           [("lasers"%string,
             JArr [JObj [("beams"%string, JArr [beam 0 1 true; odd_beam])]])]
           [JObj [("beams"%string, JArr [beam 0 1 true; odd_beam])]]
           [("beams"%string, JArr [beam 0 1 true; odd_beam])]
           [beam 0 1 true; odd_beam] odd_beam TypeError).
  - reflexivity.
  - left. reflexivity.
  - reflexivity.
  - right. left. reflexivity.
  - reflexivity.
Defined.

End MoreScenarios.
